(** * co/mem.cc: the tiered allocator, embedded and verified

    The development follows src/mem.cc on a 64-bit, non-Windows build
    ([__arch64], GCC builtins).  Addresses are integers, machine integers
    are [Z] with their wrap-around written out, a bitmap is the list of
    its word-sized cells, and the objects that live at addresses (huge
    blocks, large blocks, sub-allocators, list links) are kept in finite
    maps keyed by address. *)

From Stdlib Require Import ZArith Lia Bool.
From stdpp Require Import base tactics option list numbers gmap.

Local Open Scope Z_scope.

(** ** Machine integers *)

Definition u32 (x : Z) : Z := x mod 2 ^ 32.
Definition u64 (x : Z) : Z := x mod 2 ^ 64.
(** conversion to [int] (two's complement) *)
Definition s32 (x : Z) : Z := (x + 2 ^ 31) mod 2 ^ 32 - 2 ^ 31.
(** [~x] on a [size_t] *)
Definition not64 (x : Z) : Z := u64 (Z.lnot x).

(** ** Constants (lines 157-170) *)

Definition B : Z := 6.
Definition g_array_size : Z := 32.
Definition R : Z := Z.shiftl 1 B - 1.
Definition C : Z := 1.
Definition g_sb_bits : Z := 15.
Definition g_lb_bits : Z := g_sb_bits + B.
Definition g_hb_bits : Z := g_lb_bits + B.
Definition g_max_alloc_size : Z := Z.shiftl 1 17.

(** ** Bit-scan intrinsics (lines 99-106) *)

(** number of trailing zero bits of a positive number *)
Fixpoint ctz (p : positive) : Z :=
  match p with
  | xO q => 1 + ctz q
  | _ => 0
  end.

(** [__builtin_ffsll]: one plus the index of the lowest set bit, 0 for 0 *)
Definition ffsll (x : Z) : Z :=
  match x with
  | Zpos p => 1 + ctz p
  | _ => 0
  end.

(** [63 - __builtin_clzll(x)] is the index of the highest set bit of a
    non-zero [x]; the source calls it on non-zero words only. *)
Definition _find_msb (x : Z) : Z := Z.log2 x.

(** the result is a [uint32]: [ffsll 0 - 1] wraps to [2^32 - 1] *)
Definition _find_lsb (x : Z) : Z := u32 (ffsll x - 1).

(** ** Bitset (lines 172-205) *)

(** A bitmap is the list of its cells; a cell outside the list reads as 0
    and a store outside the list is dropped (the source would touch
    memory it does not own there; every statement below is about
    in-range indices). *)
Definition cell (s : list Z) (n : nat) : Z := default 0 (s !! n).

Definition cell_of (i : Z) : nat := Z.to_nat (Z.shiftr i B).

Definition Bitset_set (s : list Z) (i : Z) : list Z :=
  <[cell_of i := Z.lor (cell s (cell_of i)) (u64 (Z.shiftl C (Z.land i R)))]> s.

Definition Bitset_unset (s : list Z) (i : Z) : list Z :=
  <[cell_of i := Z.land (cell s (cell_of i)) (not64 (u64 (Z.shiftl C (Z.land i R))))]> s.

(** [atomic_or] on one cell; sequentially it is [set] *)
Definition Bitset_atomic_set (s : list Z) (i : Z) : list Z :=
  <[cell_of i := Z.lor (cell s (cell_of i)) (u64 (Z.shiftl C (Z.land i R)))]> s.

(** the [do ... while (--n >= 0)] loop of [rfind], from cell [n] down *)
Fixpoint rfind_from (s : list Z) (n : nat) : Z :=
  let x := cell s n in
  if x =? 0 then
    match n with
    | O => -1
    | S m => rfind_from s m
    end
  else s32 (_find_msb x + s32 (Z.shiftl (Z.of_nat n) B)).

Definition Bitset_rfind (s : list Z) (i : Z) : Z :=
  rfind_from s (Z.to_nat (s32 (Z.shiftr i B))).

(** bit [j] of a bitmap, for stating properties *)
Definition bit (s : list Z) (j : Z) : bool :=
  Z.testbit (cell s (Z.to_nat (j / 64))) (j mod 64).

(** what [rfind] finds, stated on the cell it starts from *)
Definition is_top (s : list Z) (bound r : Z) : Prop :=
  (r = -1 /\ forall j, 0 <= j <= bound -> bit s j = false)
  \/ (0 <= r <= bound /\ bit s r = true
      /\ forall j, r < j <= bound -> bit s j = false).

(** every cell is a 64-bit word *)
Definition words (s : list Z) : Prop := Forall (fun c => 0 <= c < 2 ^ 64) s.

(** ** Helpers of co/god.h and co/atomic.h

    Modelled from the spec: [god::fetch_add], [god::align_up],
    [god::align_down] and the atomic operations are declared in headers
    that are not part of src/.  The spec's reading is used:
    [fetch_add(&v, n)] yields the old value of [v] and advances [v] by
    [n]; [align_up<N>]/[align_down<N>] round to a multiple of the power
    of two [N]; an atomic operation on one cell is, in a sequential run,
    the plain operation. *)

Definition align_up (N x : Z) : Z := Z.land (x + (N - 1)) (Z.lnot (N - 1)).
Definition align_down (N x : Z) : Z := Z.land x (Z.lnot (N - 1)).

(** ** SmallAlloc and LargeAlloc (lines 268-352, 568-677)

    The two classes have the same fields and the same member functions up
    to three constants: the shift of a slot (4 or 12), the number of bits
    of a bitmap and [MAX_bIT].  They are embedded once, indexed by the
    tier.  The [_next]/[_prev] fields live in the link store below. *)

Inductive tier := Small | Large.

Definition slot_bits (t : tier) : Z :=
  match t with Small => 4 | Large => 12 end.

Definition BS_BITS (t : tier) : Z :=
  match t with
  | Small => Z.shiftl 1 (g_sb_bits - 4)
  | Large => Z.shiftl 1 (g_lb_bits - 12)
  end.

Definition SA_SIZE : Z := 64.
Definition LA_SIZE : Z := 64.

Definition MAX_bIT (t : tier) : Z :=
  match t with
  | Small => BS_BITS Small - Z.shiftr (SA_SIZE + Z.shiftr (BS_BITS Small) 2) 4
  | Large => BS_BITS Large - 1
  end.

Record Alloc := mkAlloc {
  a_parent : Z;          (* _parent *)
  a_ta : Z;              (* _ta *)
  a_p : Z;               (* _p, beginning address to alloc *)
  a_bs : list Z;         (* the cells _pbs points to *)
  a_xbs : list Z;        (* the cells _xpbs points to *)
  a_cur_bit : Z          (* _cur_bit *)
}.

Definition set_bs (a : Alloc) (s : list Z) : Alloc :=
  mkAlloc (a_parent a) (a_ta a) (a_p a) s (a_xbs a) (a_cur_bit a).
Definition set_xbs (a : Alloc) (s : list Z) : Alloc :=
  mkAlloc (a_parent a) (a_ta a) (a_p a) (a_bs a) s (a_cur_bit a).
Definition set_cur_bit (a : Alloc) (c : Z) : Alloc :=
  mkAlloc (a_parent a) (a_ta a) (a_p a) (a_bs a) (a_xbs a) c.

(** [SmallAlloc::alloc] / [LargeAlloc::alloc]; [None] is the null pointer *)
Definition Alloc_alloc (t : tier) (a : Alloc) (n : Z) : option Z * Alloc :=
  if u32 (a_cur_bit a + n) <=? MAX_bIT t then
    let a1 := set_bs a (Bitset_set (a_bs a) (a_cur_bit a)) in
    let old := a_cur_bit a1 in
    (Some (a_p a1 + u32 (Z.shiftl old (slot_bits t))),
     set_cur_bit a1 (u32 (old + n)))
  else (None, a).

(** [SmallAlloc::free] / [LargeAlloc::free] *)
Definition Alloc_free (t : tier) (a : Alloc) (p : Z) : bool * Alloc :=
  let i := s32 (Z.shiftr (p - a_p a) (slot_bits t)) in
  let a1 := set_bs a (Bitset_unset (a_bs a) (u32 i)) in
  let r := Bitset_rfind (a_bs a1) (a_cur_bit a1) in
  if r <? i then
    let c := if 0 <=? r then u32 i else 0 in
    (c =? 0, set_cur_bit a1 c)
  else (false, a1).

(** [SmallAlloc::xfree] / [LargeAlloc::xfree] *)
Definition Alloc_xfree (t : tier) (a : Alloc) (p : Z) : Alloc :=
  let i := u32 (Z.shiftr (p - a_p a) (slot_bits t)) in
  set_xbs a (Bitset_atomic_set (a_xbs a) i).

(** [SmallAlloc::realloc] / [LargeAlloc::realloc] *)
Definition Alloc_realloc (t : tier) (a : Alloc) (p o n : Z) : option Z * Alloc :=
  let i := u32 (Z.shiftr (p - a_p a) (slot_bits t)) in
  if (a_cur_bit a =? u32 (i + o)) && (u32 (i + n) <=? MAX_bIT t) then
    (Some p, set_cur_bit a (u32 (i + n)))
  else (None, a).

(** the [for (int i = M; i >= 0; --i)] loop of [try_hard_alloc], from
    cell [i] down; the two [break]s end the recursion *)
Fixpoint drain (a : Alloc) (i : nat) : Alloc :=
  let x := cell (a_xbs a) i in
  if x =? 0 then
    match i with
    | O => a
    | S j => drain a j
    end
  else
    let a1 := set_xbs a (<[i := Z.land (cell (a_xbs a) i) (not64 x)]> (a_xbs a)) in
    let a2 := set_bs a1 (<[i := Z.land (cell (a_bs a1) i) (not64 x)]> (a_bs a1)) in
    let lsb := s32 (u32 (_find_lsb x + u32 (Z.shiftl (Z.of_nat i) B))) in
    let r := Bitset_rfind (a_bs a2) (a_cur_bit a2) in
    if lsb <=? r then a2
    else
      let a3 := set_cur_bit a2 (if 0 <=? r then u32 lsb else 0) in
      if a_cur_bit a3 =? 0 then a3
      else
        match i with
        | O => a3
        | S j => drain a3 j
        end.

(** [SmallAlloc::try_hard_alloc] / [LargeAlloc::try_hard_alloc] *)
Definition Alloc_try_hard_alloc (t : tier) (a : Alloc) (n : Z) : option Z * Alloc :=
  let M := s32 (Z.shiftr (a_cur_bit a) B) in
  let a' := if 0 <=? M then drain a (Z.to_nat M) else a in
  if u32 (a_cur_bit a' + n) <=? MAX_bIT t then
    let a1 := set_bs a' (Bitset_set (a_bs a') (a_cur_bit a')) in
    let old := a_cur_bit a1 in
    (Some (a_p a1 + u32 (Z.shiftl old (slot_bits t))),
     set_cur_bit a1 (u32 (old + n)))
  else (None, a').

(** the constructors: header fields as the source sets them; the bitmaps
    are whatever the memory under the header holds *)
Definition SmallAlloc_new (this parent g_thread_alloc : Z) (bs xbs : list Z) : Alloc :=
  mkAlloc parent g_thread_alloc
          (this + (SA_SIZE + Z.shiftr (BS_BITS Small) 2)) bs xbs 0.

Definition LargeAlloc_new (this parent g_thread_alloc : Z) (bs xbs : list Z) : Alloc :=
  mkAlloc parent g_thread_alloc (this + 4096) bs xbs 0.

(** the slot index of a pointer, [(p - _p) / slot_size] *)
Definition slot_size (t : tier) : Z := 2 ^ slot_bits t.
Definition slot_of (t : tier) (a : Alloc) (p : Z) : Z := (p - a_p a) / slot_size t.

(** a run of [alloc] calls that all succeed, with the pointers returned *)
Fixpoint alloc_all (t : tier) (a : Alloc) (us : list Z) : option (list Z) :=
  match us with
  | [] => Some []
  | u :: us' =>
      match Alloc_alloc t a u with
      | (Some p, a') => (fun ps => p :: ps) <$> alloc_all t a' us'
      | (None, _) => None
      end
  end.

(** a bitmap of the tier: [BS_BITS] bits in 64-bit cells *)
Definition bitmap (t : tier) (s : list Z) : Prop :=
  words s /\ 64 * Z.of_nat (length s) = BS_BITS t.

(** a sub-allocator as its constructor leaves it on fresh (zeroed) memory *)
Definition fresh_cells (t : tier) : list Z :=
  replicate (Z.to_nat (BS_BITS t / 64)) 0.

Definition Alloc_new (t : tier) (this parent g_thread_alloc : Z) : Alloc :=
  match t with
  | Small => SmallAlloc_new this parent g_thread_alloc (fresh_cells Small) (fresh_cells Small)
  | Large => LargeAlloc_new this parent g_thread_alloc (fresh_cells Large) (fresh_cells Large)
  end.

(** *** Histories of one sub-allocator

    The member functions as operations, the contract their callers keep
    ([ThreadAlloc] passes at least one unit, frees pointers it got from
    this allocator once, and only grows in [realloc]), and the states a
    sub-allocator goes through under that contract. *)

Inductive op :=
| OpAlloc (n : Z)
| OpTryHardAlloc (n : Z)
| OpFree (p : Z)
| OpXfree (p : Z)
| OpRealloc (p o n : Z).

(** [p] is the address of an object handed out and not yet freed by its owner *)
Definition live (t : tier) (a : Alloc) (p : Z) : Prop :=
  0 <= slot_of t a p < BS_BITS t /\ bit (a_bs a) (slot_of t a p) = true.

Definition op_ok (t : tier) (a : Alloc) (o : op) : Prop :=
  match o with
  | OpAlloc n | OpTryHardAlloc n => 1 <= n < 2 ^ 31
  | OpFree p => live t a p /\ bit (a_xbs a) (slot_of t a p) = false
  | OpXfree p => live t a p
  | OpRealloc p o n => live t a p /\ 1 <= o <= n /\ n < 2 ^ 31
  end.

Definition run (t : tier) (a : Alloc) (o : op) : Alloc :=
  match o with
  | OpAlloc n => snd (Alloc_alloc t a n)
  | OpTryHardAlloc n => snd (Alloc_try_hard_alloc t a n)
  | OpFree p => snd (Alloc_free t a p)
  | OpXfree p => Alloc_xfree t a p
  | OpRealloc p o n => snd (Alloc_realloc t a p o n)
  end.

Inductive reachable (t : tier) : Alloc -> Prop :=
| reach_new this parent ta : reachable t (Alloc_new t this parent ta)
| reach_step a o : reachable t a -> op_ok t a o -> reachable t (run t a o).

(** what holds of a sub-allocator between two operations *)
Record cursor_inv (t : tier) (a : Alloc) : Prop := mk_cursor_inv {
  inv_bs : bitmap t (a_bs a);
  inv_xbs : bitmap t (a_xbs a);
  inv_cur : 0 <= a_cur_bit a <= MAX_bIT t;
  inv_below : forall j, 0 <= j -> bit (a_bs a) j = true -> j < a_cur_bit a;
  inv_empty : (forall j, 0 <= j -> bit (a_bs a) j = false) -> a_cur_bit a = 0;
  inv_sub : forall j, 0 <= j -> bit (a_xbs a) j = true -> bit (a_bs a) j = true
}.

(** spec scenario 2: three 16-byte objects A, B, C from a fresh SmallAlloc
    at address 0 (payload base 576), then B and C freed in that order *)
Definition sa_fresh : Alloc := Alloc_new Small 0 0 1.
Definition sa_abc : Alloc :=
  run Small (run Small (run Small sa_fresh (OpAlloc 1)) (OpAlloc 1)) (OpAlloc 1).
Definition sa_a_only : Alloc :=
  run Small (run Small sa_abc (OpFree (576 + 16))) (OpFree (576 + 32)).

(** *** [try_hard_alloc] as the specification words it

    The drain of [xbs] into [bs] and the final [alloc], written over
    unbounded integers from the prose of the specification (section 4.3),
    to be compared with [Alloc_try_hard_alloc] above. *)

(** the lowest set bit of a non-zero word *)
Fixpoint first_set (x j : Z) (fuel : nat) : Z :=
  match fuel with
  | O => j
  | S f => if Z.testbit x j then j else first_set x (j + 1) f
  end.

Definition lowest_set (x : Z) : Z := first_set x 0 64.

(** clear the bits of [x] in cell [i] *)
Definition clear_bits (s : list Z) (i : nat) (x : Z) : list Z :=
  <[i := Z.land (cell s i) (Z.lnot x)]> s.

Fixpoint spec_drain (a : Alloc) (i : nat) : Alloc :=
  let x := cell (a_xbs a) i in
  if decide (x = 0) then
    match i with O => a | S j => spec_drain a j end
  else
    let a' := set_bs (set_xbs a (clear_bits (a_xbs a) i x))
                     (clear_bits (a_bs a) i x) in
    let lsb := 64 * Z.of_nat i + lowest_set x in
    let r := Bitset_rfind (a_bs a') (a_cur_bit a') in
    if decide (lsb <= r) then a'
    else if decide (0 <= r) then
      match i with
      | O => set_cur_bit a' lsb
      | S j => spec_drain (set_cur_bit a' lsb) j
      end
    else set_cur_bit a' 0.

Definition spec_alloc (t : tier) (a : Alloc) (n : Z) : option Z * Alloc :=
  if decide (a_cur_bit a + n <= MAX_bIT t) then
    (Some (a_p a + a_cur_bit a * slot_size t),
     set_cur_bit (set_bs a (Bitset_set (a_bs a) (a_cur_bit a))) (a_cur_bit a + n))
  else (None, a).

Definition spec_try_hard_alloc (t : tier) (a : Alloc) (n : Z) : option Z * Alloc :=
  spec_alloc t (spec_drain a (Z.to_nat (a_cur_bit a / 64))) n.

(** spec scenario 3 in small: C and B handed to another thread, which
    frees them *)
Definition sa_xfreed : Alloc :=
  run Small (run Small sa_abc (OpXfree (576 + 32))) (OpXfree (576 + 16)).

(** ** HugeBlock and LargeBlock (lines 230-266, 452-465, 547-560)

    [C << i] with [i >= 64] is undefined in the source; the embedding
    keeps the low 64 bits of the shift. *)

Record HugeBlock := mkHB {
  hb_p : Z;              (* _p, beginning address to alloc *)
  hb_bits : Z            (* _bits *)
}.

Record LargeBlock := mkLB {
  lb_parent : Z;         (* _parent *)
  lb_p : Z;              (* _p *)
  lb_bits : Z            (* _bits *)
}.

Definition HugeBlock_new (p : Z) : HugeBlock := mkHB p 0.

Definition LargeBlock_new (this parent : Z) : LargeBlock :=
  mkLB parent (this + Z.shiftl 1 g_sb_bits) 0.

Definition HugeBlock_alloc (h : HugeBlock) : option Z * HugeBlock :=
  let i := _find_lsb (not64 (hb_bits h)) in
  if i <? R then
    (Some (hb_p h + u64 (Z.shiftl i g_lb_bits)),
     mkHB (hb_p h) (Z.lor (hb_bits h) (u64 (Z.shiftl C i))))
  else (None, h).

Definition HugeBlock_free (h : HugeBlock) (p : Z) : bool * HugeBlock :=
  let i := u32 (Z.shiftr (p - hb_p h) g_lb_bits) in
  let bits := Z.land (hb_bits h) (not64 (u64 (Z.shiftl C i))) in
  (bits =? 0, mkHB (hb_p h) bits).

Definition LargeBlock_alloc (b : LargeBlock) : option Z * LargeBlock :=
  let i := _find_lsb (not64 (lb_bits b)) in
  if i <? R then
    (Some (lb_p b + u64 (Z.shiftl i g_sb_bits)),
     mkLB (lb_parent b) (lb_p b) (Z.lor (lb_bits b) (u64 (Z.shiftl C i))))
  else (None, b).

Definition LargeBlock_free (b : LargeBlock) (p : Z) : bool * LargeBlock :=
  let i := u32 (Z.shiftr (p - lb_p b) g_sb_bits) in
  let bits := Z.land (lb_bits b) (not64 (u64 (Z.shiftl C i))) in
  (bits =? 0, mkLB (lb_parent b) (lb_p b) bits).

(** ** The process state

    Objects live at addresses: the stores below map the address of a
    header to its fields.  The [_next]/[_prev] words that open every
    header are kept in one store, as the list functions see them through
    [DoubleLink*].  Calls that leave the allocator (the VM layer, the
    system allocator, the mutexes) are recorded in a trace, and what the
    system hands back is drawn from [os], the list of its future answers. *)

Record DoubleLink := mkLink { next : Z; prev : Z }.

Record ThreadAlloc := mkTA {
  ta_lb : Z;             (* _lb *)
  ta_la : Z;             (* _la *)
  ta_sa : Z;             (* _sa *)
  ta_id : Z              (* _id *)
}.

Inductive event :=
| EvReserve (n r : Z)        (* _vm_reserve(n) gave r *)
| EvCommit (p n : Z)         (* _vm_commit(p, n) *)
| EvDecommit (p n : Z)       (* _vm_decommit(p, n) *)
| EvRelease (p n : Z)        (* _vm_free(p, n) *)
| EvLock (k : Z)             (* lock_guard on _x[k].mtx taken *)
| EvUnlock (k : Z)           (* ... and released *)
| EvMalloc (n r : Z)         (* ::malloc(n) or operator new gave r *)
| EvSysFree (p : Z).         (* ::free(p) *)

Record State := mkState {
  links : gmap Z DoubleLink;
  hbs : gmap Z HugeBlock;
  lbs : gmap Z LargeBlock;
  las : gmap Z Alloc;
  sas : gmap Z Alloc;
  tas : gmap Z ThreadAlloc;
  shards : list Z;           (* _x[k].hb of the GlobalAlloc singleton *)
  tls : gmap Z Z;            (* g_thread_alloc of each thread *)
  g_alloc_id : Z;            (* the static counter of ThreadAlloc() *)
  held : list Z;             (* shard mutexes currently held *)
  trace : list event;
  os : list Z
}.

Definition set_links (f : gmap Z DoubleLink -> gmap Z DoubleLink) (s : State) : State :=
  mkState (f (links s)) (hbs s) (lbs s) (las s) (sas s) (tas s) (shards s)
          (tls s) (g_alloc_id s) (held s) (trace s) (os s).
Definition set_hbs (f : gmap Z HugeBlock -> gmap Z HugeBlock) (s : State) : State :=
  mkState (links s) (f (hbs s)) (lbs s) (las s) (sas s) (tas s) (shards s)
          (tls s) (g_alloc_id s) (held s) (trace s) (os s).
Definition set_lbs (f : gmap Z LargeBlock -> gmap Z LargeBlock) (s : State) : State :=
  mkState (links s) (hbs s) (f (lbs s)) (las s) (sas s) (tas s) (shards s)
          (tls s) (g_alloc_id s) (held s) (trace s) (os s).
Definition set_las (f : gmap Z Alloc -> gmap Z Alloc) (s : State) : State :=
  mkState (links s) (hbs s) (lbs s) (f (las s)) (sas s) (tas s) (shards s)
          (tls s) (g_alloc_id s) (held s) (trace s) (os s).
Definition set_sas (f : gmap Z Alloc -> gmap Z Alloc) (s : State) : State :=
  mkState (links s) (hbs s) (lbs s) (las s) (f (sas s)) (tas s) (shards s)
          (tls s) (g_alloc_id s) (held s) (trace s) (os s).
Definition set_tas (f : gmap Z ThreadAlloc -> gmap Z ThreadAlloc) (s : State) : State :=
  mkState (links s) (hbs s) (lbs s) (las s) (sas s) (f (tas s)) (shards s)
          (tls s) (g_alloc_id s) (held s) (trace s) (os s).
Definition set_shards (f : list Z -> list Z) (s : State) : State :=
  mkState (links s) (hbs s) (lbs s) (las s) (sas s) (tas s) (f (shards s))
          (tls s) (g_alloc_id s) (held s) (trace s) (os s).
Definition set_tls (f : gmap Z Z -> gmap Z Z) (s : State) : State :=
  mkState (links s) (hbs s) (lbs s) (las s) (sas s) (tas s) (shards s)
          (f (tls s)) (g_alloc_id s) (held s) (trace s) (os s).
Definition set_g_alloc_id (v : Z) (s : State) : State :=
  mkState (links s) (hbs s) (lbs s) (las s) (sas s) (tas s) (shards s)
          (tls s) v (held s) (trace s) (os s).
Definition set_held (f : list Z -> list Z) (s : State) : State :=
  mkState (links s) (hbs s) (lbs s) (las s) (sas s) (tas s) (shards s)
          (tls s) (g_alloc_id s) (f (held s)) (trace s) (os s).
Definition set_trace (f : list event -> list event) (s : State) : State :=
  mkState (links s) (hbs s) (lbs s) (las s) (sas s) (tas s) (shards s)
          (tls s) (g_alloc_id s) (held s) (f (trace s)) (os s).
Definition set_os (f : list Z -> list Z) (s : State) : State :=
  mkState (links s) (hbs s) (lbs s) (las s) (sas s) (tas s) (shards s)
          (tls s) (g_alloc_id s) (held s) (trace s) (f (os s)).

(** the state before the first call: no object, every shard empty, the
    id counter at [(uint32)-1] *)
Definition init_state (answers : list Z) : State :=
  mkState ∅ ∅ ∅ ∅ ∅ ∅ (replicate (Z.to_nat g_array_size) 0) ∅ (u32 (-1)) [] [] answers.

(** *** The monad of allocator code

    A computation reads and writes the state and may get stuck ([None]):
    that is where the source would dereference a null or dangling
    pointer. *)

Definition M (A : Type) : Type := State -> option (A * State).

#[global] Instance M_ret : MRet M := fun A x s => Some (x, s).
#[global] Instance M_bind : MBind M := fun A B f m s =>
  match m s with
  | Some (x, s') => f x s'
  | None => None
  end.

Definition stuck {A} : M A := fun _ => None.
Definition gets {A} (f : State -> A) : M A := fun s => Some (f s, s).
Definition modify (f : State -> State) : M unit := fun s => Some (tt, f s).
Definition deref {A} (f : State -> option A) : M A :=
  fun s => match f s with Some x => Some (x, s) | None => None end.
Definition when (b : bool) (c : M unit) : M unit := if b then c else mret tt.
Definition emit (e : event) : M unit := modify (set_trace (fun tr => tr ++ [e])).

(** the next answer of the system; 0 when it has none left *)
Definition ask : M Z :=
  fun s => match os s with
           | r :: rest => Some (r, set_os (fun _ => rest) s)
           | [] => Some (0, s)
           end.

(** *** The VM layer (lines 73-97) and the system allocator

    Committing, decommitting and releasing a range all leave it without
    content: whatever header was stored there is gone. *)

Definition outside (p n a : Z) : Prop := ~ (p <= a < p + n).

Definition wipe (p n : Z) (s : State) : State :=
  set_links (filter (fun kv => outside p n kv.1))
    (set_hbs (filter (fun kv => outside p n kv.1))
      (set_lbs (filter (fun kv => outside p n kv.1))
        (set_las (filter (fun kv => outside p n kv.1))
          (set_sas (filter (fun kv => outside p n kv.1)) s)))).

Definition _vm_reserve (n : Z) : M Z :=
  r ← ask; emit (EvReserve n r);; mret r.

Definition _vm_commit (p n : Z) : M unit :=
  emit (EvCommit p n);; modify (wipe p n).

Definition _vm_decommit (p n : Z) : M unit :=
  emit (EvDecommit p n);; modify (wipe p n).

Definition _vm_free (p n : Z) : M unit :=
  emit (EvRelease p n);; modify (wipe p n).

Definition sys_malloc (n : Z) : M Z :=
  r ← ask; emit (EvMalloc n r);; mret r.

Definition sys_free (p : Z) : M unit := emit (EvSysFree p).

Definition lock (k : Z) : M unit :=
  hs ← gets held;
  if bool_decide (k ∈ hs) then stuck
  else emit (EvLock k);; modify (set_held (fun l => k :: l)).

Definition unlock (k : Z) : M unit :=
  emit (EvUnlock k);; modify (set_held (filter (fun j => j <> k))).

(** *** Intrusive lists (lines 404-449, 479-483)

    A list variable is a place that holds the head pointer: the [hb]
    field of a shard, or the [_sa], [_lb], [_la] field of a ThreadAlloc.
    Link words that were never written read as 0, the content of fresh
    pages; an access through the null pointer is stuck. *)

Inductive list_t :=
| ShardList (k : nat)
| SaList (ta : Z)
| LbList (ta : Z)
| LaList (ta : Z).

Definition get_ta (ta : Z) : M ThreadAlloc := deref (fun s => tas s !! ta).

Definition get_head (l : list_t) : M Z :=
  match l with
  | ShardList k => deref (fun s => shards s !! k)
  | SaList ta => t ← get_ta ta; mret (ta_sa t)
  | LbList ta => t ← get_ta ta; mret (ta_lb t)
  | LaList ta => t ← get_ta ta; mret (ta_la t)
  end.

Definition set_head (l : list_t) (v : Z) : M unit :=
  match l with
  | ShardList k => _ ← deref (fun s => shards s !! k); modify (set_shards (<[k := v]>))
  | SaList ta =>
      t ← get_ta ta; modify (set_tas (<[ta := mkTA (ta_lb t) (ta_la t) v (ta_id t)]>))
  | LbList ta =>
      t ← get_ta ta; modify (set_tas (<[ta := mkTA v (ta_la t) (ta_sa t) (ta_id t)]>))
  | LaList ta =>
      t ← get_ta ta; modify (set_tas (<[ta := mkTA (ta_lb t) v (ta_sa t) (ta_id t)]>))
  end.

Definition link_at (m : gmap Z DoubleLink) (a : Z) : DoubleLink :=
  default (mkLink 0 0) (m !! a).

Definition get_next (a : Z) : M Z :=
  if a =? 0 then stuck else gets (fun s => next (link_at (links s) a)).

Definition get_prev (a : Z) : M Z :=
  if a =? 0 then stuck else gets (fun s => prev (link_at (links s) a)).

Definition put_next (a v : Z) : M unit :=
  if a =? 0 then stuck
  else modify (set_links (fun m => <[a := mkLink v (prev (link_at m a))]> m)).

Definition put_prev (a v : Z) : M unit :=
  if a =? 0 then stuck
  else modify (set_links (fun m => <[a := mkLink (next (link_at m a)) v]> m)).

Definition list_push_front (l : list_t) (node : Z) : M unit :=
  h ← get_head l;
  if h =? 0 then
    put_next node 0;;
    put_prev node node;;
    set_head l node
  else
    put_next node h;;
    hp ← get_prev h; put_prev node hp;;
    put_prev h node;;
    set_head l node.

Definition list_move_front (l : list_t) (node : Z) : M unit :=
  h ← get_head l;
  if node =? h then mret tt
  else
    np ← get_prev node; nn ← get_next node; put_next np nn;;
    nn ← get_next node; np ← get_prev node; put_prev nn np;;
    hp ← get_prev h; put_prev node hp;;
    put_next node h;;
    put_prev h node;;
    set_head l node.

Definition list_move_head_back (l : list_t) : M unit :=
  h ← get_head l;
  head ← get_next h;
  hp ← get_prev h; put_next hp h;;
  put_next h 0;;
  set_head l head.

Definition list_erase (l : list_t) (node : Z) : M unit :=
  np ← get_prev node; nn ← get_next node; put_next np nn;;
  nn ← get_next node;
  x ← (if nn =? 0 then get_head l else mret nn);
  np ← get_prev node; put_prev x np.

(** the [for] loop of the [_try_alloc] macro; the body answers [Some r]
    where the source leaves through [goto end] *)
Fixpoint try_loop {A} (body : Z -> M (option A)) (h : Z) (n : nat) (k : Z)
  : M (option A) :=
  match n with
  | O => mret None
  | S n' =>
      if k =? h then mret None
      else
        r ← body k;
        match r with
        | Some x => mret (Some x)
        | None => k' ← get_next k; try_loop body h n' k'
        end
  end.

Definition _try_alloc {A} (l : list_t) (n : nat) (body : Z -> M (option A))
  : M (option A) :=
  h ← get_head l;
  k ← get_next h;
  list_move_head_back l;;
  try_loop body h n k.

(** the guard [if (l && l->next)] in front of every [_try_alloc] *)
Definition at_least_two {A} (l : list_t) (body : M (option A)) : M (option A) :=
  h ← get_head l;
  if h =? 0 then mret None
  else
    hn ← get_next h;
    if hn =? 0 then mret None else body.

(** *** Member functions on objects in the state *)

Definition HugeBlock_alloc_at (hb : Z) : M (option Z) :=
  h ← deref (fun s => hbs s !! hb);
  modify (set_hbs (<[hb := snd (HugeBlock_alloc h)]>));;
  mret (fst (HugeBlock_alloc h)).

Definition HugeBlock_free_at (hb p : Z) : M bool :=
  h ← deref (fun s => hbs s !! hb);
  modify (set_hbs (<[hb := snd (HugeBlock_free h p)]>));;
  mret (fst (HugeBlock_free h p)).

Definition LargeBlock_alloc_at (lb : Z) : M (option Z) :=
  b ← deref (fun s => lbs s !! lb);
  modify (set_lbs (<[lb := snd (LargeBlock_alloc b)]>));;
  mret (fst (LargeBlock_alloc b)).

Definition LargeBlock_free_at (lb p : Z) : M bool :=
  b ← deref (fun s => lbs s !! lb);
  modify (set_lbs (<[lb := snd (LargeBlock_free b p)]>));;
  mret (fst (LargeBlock_free b p)).

Definition SmallAlloc_alloc (sa u : Z) : M (option Z) :=
  a ← deref (fun s => sas s !! sa);
  modify (set_sas (<[sa := snd (Alloc_alloc Small a u)]>));;
  mret (fst (Alloc_alloc Small a u)).

Definition SmallAlloc_try_hard_alloc (sa u : Z) : M (option Z) :=
  a ← deref (fun s => sas s !! sa);
  modify (set_sas (<[sa := snd (Alloc_try_hard_alloc Small a u)]>));;
  mret (fst (Alloc_try_hard_alloc Small a u)).

Definition SmallAlloc_free (sa p : Z) : M bool :=
  a ← deref (fun s => sas s !! sa);
  modify (set_sas (<[sa := snd (Alloc_free Small a p)]>));;
  mret (fst (Alloc_free Small a p)).

Definition SmallAlloc_xfree (sa p : Z) : M unit :=
  a ← deref (fun s => sas s !! sa);
  modify (set_sas (<[sa := Alloc_xfree Small a p]>)).

Definition LargeAlloc_alloc (la u : Z) : M (option Z) :=
  a ← deref (fun s => las s !! la);
  modify (set_las (<[la := snd (Alloc_alloc Large a u)]>));;
  mret (fst (Alloc_alloc Large a u)).

Definition LargeAlloc_try_hard_alloc (la u : Z) : M (option Z) :=
  a ← deref (fun s => las s !! la);
  modify (set_las (<[la := snd (Alloc_try_hard_alloc Large a u)]>));;
  mret (fst (Alloc_try_hard_alloc Large a u)).

Definition LargeAlloc_free (la p : Z) : M bool :=
  a ← deref (fun s => las s !! la);
  modify (set_las (<[la := snd (Alloc_free Large a p)]>));;
  mret (fst (Alloc_free Large a p)).

Definition LargeAlloc_xfree (la p : Z) : M unit :=
  a ← deref (fun s => las s !! la);
  modify (set_las (<[la := Alloc_xfree Large a p]>)).

(** the bitmaps a placement-new finds under a header: those of the
    sub-allocator that was there before, zeros on fresh pages *)
Definition cells_at (t : tier) (m : gmap Z Alloc) (x : Z) : list Z * list Z :=
  match m !! x with
  | Some old => (a_bs old, a_xbs old)
  | None => (fresh_cells t, fresh_cells t)
  end.

Definition g_thread_alloc (tid : Z) : M Z :=
  gets (fun s => default 0 (tls s !! tid)).

(** [LargeBlock::make_small_alloc], run by thread [tid] *)
Definition make_small_alloc (tid lb : Z) : M (option Z) :=
  x ← LargeBlock_alloc_at lb;
  match x with
  | Some x =>
      gta ← g_thread_alloc tid;
      modify (set_links (<[x := mkLink 0 0]>));;
      modify (fun s =>
        set_sas (<[x := SmallAlloc_new x lb gta (cells_at Small (sas s) x).1
                                       (cells_at Small (sas s) x).2]>) s);;
      mret (Some x)
  | None => mret None
  end.

(** *** GlobalAlloc (lines 354-369, 467-544) *)

Definition shard_of (alloc_id : Z) : nat :=
  Z.to_nat (Z.land alloc_id (g_array_size - 1)).

Definition make_huge_block : M (option Z) :=
  x ← _vm_reserve (u32 (Z.shiftl 1 g_hb_bits));
  if x =? 0 then mret None
  else
    _vm_commit x 4096;;
    let p := align_up (u32 (Z.shiftl 1 g_lb_bits)) x in
    let p := if p =? x then x + u32 (Z.shiftl 1 g_lb_bits) else p in
    modify (set_hbs (<[x := HugeBlock_new p]>));;
    mret (Some x).

(** the part of [GlobalAlloc::alloc] under the lock guard: the pointer
    and the parent it leaves in [*parent] (0 when none was written) *)
Definition GlobalAlloc_alloc_locked (k : nat) : M (option Z * Z) :=
  let l := ShardList k in
  xhb ← get_head l;
  r ← (if xhb =? 0 then mret None
       else p ← HugeBlock_alloc_at xhb; mret ((fun p => (Some p, xhb)) <$> p));
  match r with
  | Some r => mret r
  | None =>
      r ← at_least_two l (_try_alloc l 8 (fun hb =>
             p ← HugeBlock_alloc_at hb;
             match p with
             | Some p => list_move_front l hb;; mret (Some (Some p, hb))
             | None => mret None
             end));
      match r with
      | Some r => mret r
      | None =>
          hb ← make_huge_block;
          match hb with
          | Some hb =>
              list_push_front l hb;;
              p ← HugeBlock_alloc_at hb;
              mret (p, hb)
          | None => mret (None, 0)
          end
      end
  end.

Definition GlobalAlloc_alloc (alloc_id : Z) : M (option Z * Z) :=
  let k := shard_of alloc_id in
  lock (Z.of_nat k);;
  r ← GlobalAlloc_alloc_locked k;
  unlock (Z.of_nat k);;
  match r.1 with
  | Some p => _vm_commit p (u32 (Z.shiftl 1 g_lb_bits))
  | None => mret tt
  end;;
  mret r.

Definition make_large_block (alloc_id : Z) : M (option Z) :=
  r ← GlobalAlloc_alloc alloc_id;
  match r.1 with
  | Some p => modify (set_lbs (<[p := LargeBlock_new p r.2]>));; mret (Some p)
  | None => mret None
  end.

Definition make_large_alloc (tid alloc_id : Z) : M (option Z) :=
  r ← GlobalAlloc_alloc alloc_id;
  match r.1 with
  | Some p =>
      gta ← g_thread_alloc tid;
      modify (fun s =>
        set_las (<[p := LargeAlloc_new p r.2 gta (cells_at Large (las s) p).1
                                       (cells_at Large (las s) p).2]>) s);;
      mret (Some p)
  | None => mret None
  end.

(** the part of [GlobalAlloc::free] under the lock guard *)
Definition GlobalAlloc_free_locked (k : nat) (p hb : Z) : M bool :=
  e ← HugeBlock_free_at hb p;
  xhb ← get_head (ShardList k);
  let r := e && negb (hb =? xhb) in
  when r (list_erase (ShardList k) hb);;
  mret r.

Definition GlobalAlloc_free (p hb alloc_id : Z) : M unit :=
  _vm_decommit p (u32 (Z.shiftl 1 g_lb_bits));;
  let k := shard_of alloc_id in
  lock (Z.of_nat k);;
  r ← GlobalAlloc_free_locked k p hb;
  unlock (Z.of_nat k);;
  when r (_vm_free hb (u32 (Z.shiftl 1 g_hb_bits))).

(** *** ThreadAlloc (lines 371-391, 680-794) *)

(** [a && b] where [b] is only evaluated when [a] holds *)
Definition and_then (a : bool) (b : M bool) : M bool :=
  if a then b else mret false.

(** the unit counts [ThreadAlloc::alloc] computes from a size *)
Definition small_units (n : Z) : Z :=
  if 16 <? n then Z.shiftr (u32 (align_up 16 (u32 n))) 4 else 1.

Definition large_units (n : Z) : Z :=
  Z.shiftr (u32 (align_up 4096 (u32 n))) 12.

(** the small tier of [ThreadAlloc::alloc], from the scan of the other
    SmallAllocs on *)
Definition small_alloc_slow (tid this u : Z) : M (option Z) :=
  r ← at_least_two (SaList this) (_try_alloc (SaList this) 2 (fun k =>
         p ← SmallAlloc_try_hard_alloc k u;
         match p with
         | Some p => list_move_front (SaList this) k;; mret (Some p)
         | None => mret None
         end));
  match r with
  | Some p => mret (Some p)
  | None =>
      lb0 ← get_head (LbList this);
      sa ← (if lb0 =? 0 then mret None else make_small_alloc tid lb0);
      match sa with
      | Some sa => list_push_front (SaList this) sa;; SmallAlloc_alloc sa u
      | None =>
          r ← at_least_two (LbList this) (_try_alloc (LbList this) 4 (fun k =>
                 sa ← make_small_alloc tid k;
                 match sa with
                 | Some sa =>
                     list_move_front (LbList this) k;;
                     p ← SmallAlloc_alloc sa u;
                     mret (Some p)
                 | None => mret None
                 end));
          match r with
          | Some p => mret p
          | None =>
              t ← get_ta this;
              lb ← make_large_block (ta_id t);
              match lb with
              | Some lb =>
                  list_push_front (LbList this) lb;;
                  sa ← make_small_alloc tid lb;
                  list_push_front (SaList this) (default 0 sa);;
                  SmallAlloc_alloc (default 0 sa) u
              | None => mret None
              end
          end
      end
  end.

Definition large_alloc_slow (tid this u : Z) : M (option Z) :=
  r ← at_least_two (LaList this) (_try_alloc (LaList this) 4 (fun k =>
         p ← LargeAlloc_try_hard_alloc k u;
         match p with
         | Some p => list_move_front (LaList this) k;; mret (Some p)
         | None => mret None
         end));
  match r with
  | Some p => mret (Some p)
  | None =>
      t ← get_ta this;
      la ← make_large_alloc tid (ta_id t);
      match la with
      | Some la => list_push_front (LaList this) la;; LargeAlloc_alloc la u
      | None => mret None
      end
  end.

(** [ThreadAlloc::alloc], run by thread [tid] on the object at [this] *)
Definition ThreadAlloc_alloc (tid this n : Z) : M (option Z) :=
  if n <=? 2048 then
    let u := small_units n in
    sa0 ← get_head (SaList this);
    r ← (if sa0 =? 0 then mret None else SmallAlloc_alloc sa0 u);
    match r with
    | Some p => mret (Some p)
    | None => small_alloc_slow tid this u
    end
  else if n <=? g_max_alloc_size then
    let u := large_units n in
    la0 ← get_head (LaList this);
    r ← (if la0 =? 0 then mret None else LargeAlloc_alloc la0 u);
    match r with
    | Some p => mret (Some p)
    | None => large_alloc_slow tid this u
    end
  else
    p ← sys_malloc n;
    mret (if p =? 0 then None else Some p).

(** [ThreadAlloc::free] *)
Definition ThreadAlloc_free (tid this p n : Z) : M unit :=
  if p =? 0 then mret tt
  else if n <=? 2048 then
    let sa := align_down (Z.shiftl 1 g_sb_bits) p in
    a ← deref (fun s => sas s !! sa);
    if a_ta a =? this then
      e ← SmallAlloc_free sa p;
      e ← and_then e (sa0 ← get_head (SaList this); mret (negb (sa =? sa0)));
      when e (
        list_erase (SaList this) sa;;
        a ← deref (fun s => sas s !! sa);
        let lb := a_parent a in
        e ← LargeBlock_free_at lb sa;
        e ← and_then e (lb0 ← get_head (LbList this); mret (negb (lb =? lb0)));
        when e (
          list_erase (LbList this) lb;;
          b ← deref (fun s => lbs s !! lb);
          t ← get_ta this;
          GlobalAlloc_free lb (lb_parent b) (ta_id t)))
    else SmallAlloc_xfree sa p
  else if n <=? g_max_alloc_size then
    let la := align_down (Z.shiftl 1 g_lb_bits) p in
    a ← deref (fun s => las s !! la);
    if a_ta a =? this then
      e ← LargeAlloc_free la p;
      e ← and_then e (la0 ← get_head (LaList this); mret (negb (la =? la0)));
      when e (
        list_erase (LaList this) la;;
        a ← deref (fun s => las s !! la);
        t ← get_ta this;
        GlobalAlloc_free la (a_parent a) (ta_id t))
    else LargeAlloc_xfree la p
  else sys_free p.

(** *** The public entry points (lines 394-401, 831-846) *)

Definition sizeof_ThreadAlloc : Z := 48.

(** Modelled from the spec: [atomic_inc] (co/atomic.h, not in src/)
    advances the process-wide counter and yields the new value, so that
    ids are assigned from 0 upwards. *)
Definition atomic_inc_g_alloc_id : M Z :=
  v ← gets g_alloc_id;
  modify (set_g_alloc_id (u32 (v + 1)));;
  mret (u32 (v + 1)).

(** [new ThreadAlloc()]; stuck where [operator new] would throw *)
Definition ThreadAlloc_new : M Z :=
  a ← sys_malloc sizeof_ThreadAlloc;
  if a =? 0 then stuck
  else
    id ← atomic_inc_g_alloc_id;
    modify (set_tas (<[a := mkTA 0 0 0 id]>));;
    mret a.

Definition thread_alloc (tid : Z) : M Z :=
  g ← g_thread_alloc tid;
  if g =? 0 then
    a ← ThreadAlloc_new;
    modify (set_tls (<[tid := a]>));;
    mret a
  else mret g.

Definition co_alloc (tid n : Z) : M (option Z) :=
  this ← thread_alloc tid; ThreadAlloc_alloc tid this n.

Definition co_free (tid p n : Z) : M unit :=
  this ← thread_alloc tid; ThreadAlloc_free tid this p n.

(** *** Well-formed lists

    [seg m p xs e]: the nodes [xs] are chained through their link words
    in the store [m], the first one has [p] as its [prev] and the last
    one [e] as its [next].  In a list the head's [prev] is the tail and
    the tail's [next] is null. *)

Fixpoint seg (m : gmap Z DoubleLink) (p : Z) (xs : list Z) (e : Z) : Prop :=
  match xs with
  | [] => True
  | a :: rest => a <> 0 /\ link_at m a = mkLink (hd e rest) p /\ seg m a rest e
  end.

Definition is_list (m : gmap Z DoubleLink) (l : Z) (xs : list Z) : Prop :=
  l = hd 0 xs /\ NoDup xs /\ seg m (default 0 (last xs)) xs 0.

(** what [list_erase] does to the link store *)
Definition erase_links (l node : Z) (m : gmap Z DoubleLink) : gmap Z DoubleLink :=
  let np := prev (link_at m node) in
  let nn := next (link_at m node) in
  let m1 := <[np := mkLink nn (prev (link_at m np))]> m in
  let nn1 := next (link_at m1 node) in
  let x := if nn1 =? 0 then l else nn1 in
  let np1 := prev (link_at m1 node) in
  <[x := mkLink (next (link_at m1 x)) np1]> m1.

(** *** Views used in the statements *)

Definition tier_of (n : Z) : tier := if n <=? 2048 then Small else Large.

Definition unit_bits (t : tier) : Z :=
  match t with Small => g_sb_bits | Large => g_lb_bits end.

Definition sub_allocs (t : tier) (s : State) : gmap Z Alloc :=
  match t with Small => sas s | Large => las s end.

Definition set_sub_allocs (t : tier) (f : gmap Z Alloc -> gmap Z Alloc) (s : State)
  : State :=
  match t with Small => set_sas f s | Large => set_las f s end.

(** a shard with two huge blocks: the head at 2^30, empty, and behind it
    the block at 2^30 + 2^27 with its first Large unit in use *)
Definition two_blocks : State :=
  mkState
    (<[2 ^ 30 := mkLink (2 ^ 30 + 2 ^ 27) (2 ^ 30 + 2 ^ 27)]>
       (<[2 ^ 30 + 2 ^ 27 := mkLink 0 (2 ^ 30)]> ∅))
    (<[2 ^ 30 := mkHB (2 ^ 30 + 2 ^ 21) 0]>
       (<[2 ^ 30 + 2 ^ 27 := mkHB (2 ^ 30 + 2 ^ 27 + 2 ^ 21) 1]> ∅))
    ∅ ∅ ∅ ∅ (2 ^ 30 :: replicate 31 0) ∅ 0 [] [] [].

(** thread 7 has allocated one 48-byte object; the system gave 1000 for
    its ThreadAlloc and reserved the huge block at 2^30 *)
Definition one_object : State :=
  match co_alloc 7 48 (init_state [1000; 2 ^ 30]) with
  | Some (_, s) => s
  | None => init_state []
  end.

(** ** More of the source

    [Bitset::test_and_unset] (lines 184-187).  Modelled from the spec:
    [god::fetch_and(&v, m)] (co/god.h, not in src/) stores [v & m] and
    yields the old [v]; the result of the member function is the
    conversion of [old & x] to [bool]. *)
Definition Bitset_test_and_unset (s : list Z) (i : Z) : bool * list Z :=
  let x := u64 (Z.shiftl C (Z.land i R)) in
  let old := cell s (cell_of i) in
  (negb (Z.land old x =? 0), <[cell_of i := Z.land old (not64 x)]> s).

(** where the payload of a sub-allocator starts and how large its unit is *)
Definition payload_offset (t : tier) : Z :=
  match t with
  | Small => SA_SIZE + Z.shiftr (BS_BITS Small) 2
  | Large => 4096
  end.

Definition unit_size (t : tier) : Z := Z.shiftl 1 (unit_bits t).

(** what a drain of [xbs] may change between [a] and [a']: header fields
    stay, the cursor does not rise, bits are only cleared, and only bits
    that a foreign thread had marked *)
Definition drained (a a' : Alloc) : Prop :=
  a_p a' = a_p a /\ a_ta a' = a_ta a /\ a_parent a' = a_parent a
  /\ a_cur_bit a' <= a_cur_bit a
  /\ (forall j, 0 <= j -> bit (a_bs a') j = true -> bit (a_bs a) j = true)
  /\ (forall j, 0 <= j -> bit (a_xbs a) j = false -> bit (a_bs a') j = bit (a_bs a) j)
  /\ (forall j, 0 <= j -> bit (a_xbs a') j = true -> bit (a_xbs a) j = true).

(** *** The list functions as changes of the link store

    The value of a list variable and the link store that each list
    function leaves, written without the monad, for stating what the
    functions do to a well-formed list. *)

Definition head_of (l : list_t) (s : State) : option Z :=
  match l with
  | ShardList k => shards s !! k
  | SaList ta => ta_sa <$> tas s !! ta
  | LbList ta => ta_lb <$> tas s !! ta
  | LaList ta => ta_la <$> tas s !! ta
  end.

Definition with_head (l : list_t) (v : Z) (s : State) : State :=
  match l with
  | ShardList k => set_shards (<[k := v]>) s
  | SaList ta =>
      match tas s !! ta with
      | Some t => set_tas (<[ta := mkTA (ta_lb t) (ta_la t) v (ta_id t)]>) s
      | None => s
      end
  | LbList ta =>
      match tas s !! ta with
      | Some t => set_tas (<[ta := mkTA v (ta_la t) (ta_sa t) (ta_id t)]>) s
      | None => s
      end
  | LaList ta =>
      match tas s !! ta with
      | Some t => set_tas (<[ta := mkTA (ta_lb t) v (ta_sa t) (ta_id t)]>) s
      | None => s
      end
  end.

Definition write_next (a v : Z) (m : gmap Z DoubleLink) : gmap Z DoubleLink :=
  <[a := mkLink v (prev (link_at m a))]> m.

Definition write_prev (a v : Z) (m : gmap Z DoubleLink) : gmap Z DoubleLink :=
  <[a := mkLink (next (link_at m a)) v]> m.

(** [list_push_front] on a list whose head is [h] *)
Definition push_links (h node : Z) (m : gmap Z DoubleLink) : gmap Z DoubleLink :=
  if h =? 0 then write_prev node node (write_next node 0 m)
  else
    let m1 := write_next node h m in
    let m2 := write_prev node (prev (link_at m1 h)) m1 in
    write_prev h node m2.

(** [list_move_head_back] on a list whose head is [h] *)
Definition head_back_links (h : Z) (m : gmap Z DoubleLink) : gmap Z DoubleLink :=
  write_next h 0 (write_next (prev (link_at m h)) h m).

(** [list_move_front] of a node other than the head [h] *)
Definition move_front_links (h node : Z) (m : gmap Z DoubleLink) : gmap Z DoubleLink :=
  let m1 := write_next (prev (link_at m node)) (next (link_at m node)) m in
  let m2 := write_prev (next (link_at m1 node)) (prev (link_at m1 node)) m1 in
  let m3 := write_prev node (prev (link_at m2 h)) m2 in
  let m4 := write_next node h m3 in
  write_prev h node m4.

(** a computation that, whenever it returns, leaves the view [f] of the
    state as it found it *)
Definition keeps {A X} (f : State -> X) (m : M A) : Prop :=
  forall s x s', m s = Some (x, s') -> f s' = f s.

(** the number of slots [ThreadAlloc::alloc] asks of the tier's
    sub-allocator for a size of at most 128 KiB (lines 683, 728) *)
Definition units (n : Z) : Z :=
  if n <=? 2048 then small_units n else large_units n.

(** the sub-allocator a ThreadAlloc tries first: [_sa] or [_la] *)
Definition current (t : tier) (ta : ThreadAlloc) : Z :=
  match t with Small => ta_sa ta | Large => ta_la ta end.

(** a thread (ThreadAlloc at 1000) whose current SmallAlloc, at 2^15, is
    fresh *)
Definition fresh_thread : State :=
  mkState ∅ ∅ ∅ ∅ (<[2 ^ 15 := Alloc_new Small (2 ^ 15) 0 1000]> ∅)
          (<[1000 := mkTA 0 0 (2 ^ 15) 0]> ∅) (replicate 32 0) ∅ 0 [] [] [].

(** *** [ThreadAlloc::realloc] (lines 796-827)

    [sa->realloc] and [la->realloc] on the objects in the state. *)
Definition SmallAlloc_realloc (sa p o n : Z) : M (option Z) :=
  a ← deref (fun s => sas s !! sa);
  modify (set_sas (<[sa := snd (Alloc_realloc Small a p o n)]>));;
  mret (fst (Alloc_realloc Small a p o n)).

Definition LargeAlloc_realloc (la p o n : Z) : M (option Z) :=
  a ← deref (fun s => las s !! la);
  modify (set_las (<[la := snd (Alloc_realloc Large a p o n)]>));;
  mret (fst (Alloc_realloc Large a p o n)).

(** The system's [::realloc] is left open: it is the argument
    [sys_realloc].  The content of blocks is not part of the state, so
    [memcpy] leaves no mark.  Modelled from the spec: [CHECK_LT]
    (co/log.h, not in src/) ends the program when the new size is not
    greater than the old one; the computation is stuck there. *)
Definition ThreadAlloc_realloc (sys_realloc : Z -> Z -> M (option Z))
    (tid this p o n : Z) : M (option Z) :=
  if p =? 0 then ThreadAlloc_alloc tid this n
  else if g_max_alloc_size <? o then sys_realloc p n
  else if negb (o <? n) then stuck
  else
    r ← (if o <=? 2048 then
           let k := if 16 <? o then u32 (align_up 16 (u32 o)) else 16 in
           if n <=? k then mret (Some p)
           else
             let sa := align_down (Z.shiftl 1 g_sb_bits) p in
             sa0 ← get_head (SaList this);
             if (sa =? sa0) && (n <=? 2048) then
               let l := u32 (align_up 16 (u32 n)) in
               SmallAlloc_realloc sa p (Z.shiftr k 4) (Z.shiftr l 4)
             else mret None
         else
           let k := u32 (align_up 4096 (u32 o)) in
           if n <=? k then mret (Some p)
           else
             let la := align_down (Z.shiftl 1 g_lb_bits) p in
             la0 ← get_head (LaList this);
             if (la =? la0) && (n <=? g_max_alloc_size) then
               let l := u32 (align_up 4096 (u32 n)) in
               LargeAlloc_realloc la p (Z.shiftr k 12) (Z.shiftr l 12)
             else mret None);
    match r with
    | Some x => mret (Some x)
    | None =>
        x ← ThreadAlloc_alloc tid this n;
        match x with
        | Some _ => ThreadAlloc_free tid this p o;; mret x
        | None => mret None
        end
    end.

(** the same thread after [alloc(64)] and [alloc(16)]: blocks at slots 0
    and 4 of its SmallAlloc, cursor 5 *)
Definition sa_two : Alloc :=
  snd (Alloc_alloc Small (snd (Alloc_alloc Small (Alloc_new Small (2 ^ 15) 0 1000) 4)) 1).

Definition two_objects : State := set_sas (<[2 ^ 15 := sa_two]>) fresh_thread.

(** a thread (ThreadAlloc at 1000) with the LargeBlock at 2^21 and two
    SmallAllocs on its first two units: the current one, empty, and
    behind it in the list one with a single 16-byte block *)
Definition two_small_allocs : State :=
  mkState
    (<[2 ^ 21 + 2 ^ 15 := mkLink (2 ^ 21 + 2 ^ 16) (2 ^ 21 + 2 ^ 16)]>
       (<[2 ^ 21 + 2 ^ 16 := mkLink 0 (2 ^ 21 + 2 ^ 15)]> ∅))
    ∅
    (<[2 ^ 21 := mkLB 0 (2 ^ 21 + 2 ^ 15) 3]> ∅)
    ∅
    (<[2 ^ 21 + 2 ^ 15 := Alloc_new Small (2 ^ 21 + 2 ^ 15) (2 ^ 21) 1000]>
       (<[2 ^ 21 + 2 ^ 16 :=
            snd (Alloc_alloc Small (Alloc_new Small (2 ^ 21 + 2 ^ 16) (2 ^ 21) 1000) 1)]> ∅))
    (<[1000 := mkTA (2 ^ 21) 0 (2 ^ 21 + 2 ^ 15) 0]> ∅)
    (replicate 32 0) ∅ 0 [] [] [].


(** *** StaticAllocator (lines 128-154)

    A bump allocator over slabs of [N] bytes from [::malloc]; every
    ThreadAlloc embeds one ([_ka]).  [_p] and [_e] are addresses.  The
    function-local counter [k] is added to and never read; it is left
    out.  Where [assert(_p)] fails the computation is stuck. *)
Record StaticAllocator := mkKA {
  ka_p : Z;              (* _p *)
  ka_e : Z               (* _e *)
}.

Definition StaticAllocator_N : Z := 64 * 1024.

Definition StaticAllocator_new : StaticAllocator := mkKA 0 0.

Definition StaticAllocator_alloc (ka : StaticAllocator) (n : Z)
  : M (Z * StaticAllocator) :=
  let n := u64 (align_up 8 n) in
  if ka_p ka + n <=? ka_e ka then
    mret (ka_p ka, mkKA (ka_p ka + n) (ka_e ka))
  else if n <=? 4096 then
    p ← sys_malloc StaticAllocator_N;
    if p =? 0 then stuck
    else mret (p, mkKA (p + n) (p + StaticAllocator_N))
  else
    p ← sys_malloc n;
    mret (p, ka).

(** thread 7 (ThreadAlloc at 1000) with two LargeBlocks in its list: the
    current one at 2^22 with all 63 units in use, behind it the one at
    2^21 whose first unit is free; its only SmallAlloc, on the first
    unit of the current block, has its cursor at [MAX_bIT] *)
Definition scan_state : State :=
  mkState
    (<[2 ^ 22 := mkLink (2 ^ 21) (2 ^ 21)]>
       (<[2 ^ 21 := mkLink 0 (2 ^ 22)]>
          (<[2 ^ 22 + 2 ^ 15 := mkLink 0 (2 ^ 22 + 2 ^ 15)]> ∅)))
    ∅
    (<[2 ^ 22 := mkLB 0 (2 ^ 22 + 2 ^ 15) (2 ^ 63 - 1)]>
       (<[2 ^ 21 := mkLB 0 (2 ^ 21 + 2 ^ 15) (2 ^ 63 - 2)]> ∅))
    ∅
    (<[2 ^ 22 + 2 ^ 15 :=
         snd (Alloc_alloc Small (Alloc_new Small (2 ^ 22 + 2 ^ 15) (2 ^ 22) 1000) 2012)]> ∅)
    (<[1000 := mkTA (2 ^ 22) 0 (2 ^ 22 + 2 ^ 15) 0]> ∅)
    (replicate 32 0) (<[7 := 1000]> ∅) 0 [] [] [].

(** a thread (ThreadAlloc at 1000) with two SmallAllocs in its list: the
    current one at 2^21 + 2^15 with its cursor at [MAX_bIT], and behind
    it the one at 2^21 + 2^16, whose only block another thread has
    freed *)
Definition reclaim_state : State :=
  mkState
    (<[2 ^ 21 + 2 ^ 15 := mkLink (2 ^ 21 + 2 ^ 16) (2 ^ 21 + 2 ^ 16)]>
       (<[2 ^ 21 + 2 ^ 16 := mkLink 0 (2 ^ 21 + 2 ^ 15)]> ∅))
    ∅
    (<[2 ^ 21 := mkLB 0 (2 ^ 21 + 2 ^ 15) 3]> ∅)
    ∅
    (<[2 ^ 21 + 2 ^ 15 :=
         snd (Alloc_alloc Small (Alloc_new Small (2 ^ 21 + 2 ^ 15) (2 ^ 21) 1000) 2012)]>
       (<[2 ^ 21 + 2 ^ 16 :=
            Alloc_xfree Small
              (snd (Alloc_alloc Small (Alloc_new Small (2 ^ 21 + 2 ^ 16) (2 ^ 21) 1000) 1))
              (2 ^ 21 + 2 ^ 16 + 576)]> ∅))
    (<[1000 := mkTA (2 ^ 21) 0 (2 ^ 21 + 2 ^ 15) 0]> ∅)
    (replicate 32 0) (<[7 := 1000]> ∅) 0 [] [] [].

(** * Properties *)

(** ** Machine integers *)

Lemma u32_small x : 0 <= x < 2 ^ 32 -> u32 x = x.
Proof. intros H. unfold u32. apply Z.mod_small. exact H. Qed.

Lemma u32_range x : 0 <= u32 x < 2 ^ 32.
Proof. unfold u32. apply Z.mod_pos_bound. lia. Qed.

Lemma s32_small x : - 2 ^ 31 <= x < 2 ^ 31 -> s32 x = x.
Proof. intros H. unfold s32. rewrite Z.mod_small; lia. Qed.

Lemma u64_small x : 0 <= x < 2 ^ 64 -> u64 x = x.
Proof. intros H. unfold u64. apply Z.mod_small. exact H. Qed.

Lemma testbit_not64 x j :
  0 <= j < 64 -> Z.testbit (not64 x) j = negb (Z.testbit x j).
Proof.
  intros Hj. unfold not64, u64.
  rewrite Z.mod_pow2_bits_low by lia. apply Z.lnot_spec. lia.
Qed.

Lemma testbit_one_shl k j :
  0 <= k -> 0 <= j -> Z.testbit (Z.shiftl 1 k) j = (j =? k).
Proof.
  intros Hk Hj. rewrite Z.shiftl_1_l.
  destruct (Z.eqb_spec j k) as [->|Hne].
  - apply Z.pow2_bits_true. lia.
  - apply Z.pow2_bits_false. lia.
Qed.

Lemma shl_one_range k : 0 <= k < 64 -> 0 <= Z.shiftl 1 k < 2 ^ 64.
Proof.
  intros Hk. rewrite Z.shiftl_1_l. split; [lia|].
  apply Z.pow_lt_mono_r; lia.
Qed.

Lemma land_R i : 0 <= i -> Z.land i R = i mod 64.
Proof.
  intros Hi. change R with (Z.ones 6). rewrite Z.land_ones by lia. reflexivity.
Qed.

Lemma shr_B i : Z.shiftr i B = i / 64.
Proof. unfold B. rewrite Z.shiftr_div_pow2 by lia. reflexivity. Qed.

Lemma shl_B n : Z.shiftl n B = n * 64.
Proof. unfold B. rewrite Z.shiftl_mul_pow2 by lia. reflexivity. Qed.

(** ** Bit-scan intrinsics *)

Lemma ctz_nonneg p : 0 <= ctz p.
Proof. induction p; simpl; lia. Qed.

Lemma ctz_bit p : Z.testbit (Zpos p) (ctz p) = true.
Proof.
  induction p as [q IH|q IH|]; simpl ctz; try reflexivity.
  replace (1 + ctz q) with (Z.succ (ctz q)) by lia.
  change (Zpos q~0) with (2 * Zpos q).
  rewrite Z.testbit_even_succ by apply ctz_nonneg. exact IH.
Qed.

Lemma ctz_below p j : 0 <= j < ctz p -> Z.testbit (Zpos p) j = false.
Proof.
  revert j. induction p as [q IH|q IH|]; simpl ctz; intros j Hj; try lia.
  destruct (Z.eq_dec j 0) as [->|Hne]; [reflexivity|].
  replace j with (Z.succ (j - 1)) by lia.
  change (Zpos q~0) with (2 * Zpos q).
  rewrite Z.testbit_even_succ by lia. apply IH. lia.
Qed.

Lemma ctz_le_log2 p : ctz p <= Z.log2 (Zpos p).
Proof.
  destruct (Z_lt_le_dec (Z.log2 (Zpos p)) (ctz p)) as [Hlt|]; [|lia].
  pose proof (ctz_bit p) as Hb.
  rewrite Z.bits_above_log2 in Hb by lia. discriminate.
Qed.

Lemma find_msb_spec x :
  0 < x -> Z.testbit x (_find_msb x) = true
           /\ forall j, _find_msb x < j -> Z.testbit x j = false.
Proof.
  intros Hx. unfold _find_msb. split.
  - apply Z.bit_log2. exact Hx.
  - intros j Hj. apply Z.bits_above_log2; lia.
Qed.

Lemma find_msb_range x : 0 < x < 2 ^ 64 -> 0 <= _find_msb x < 64.
Proof.
  intros Hx. unfold _find_msb. split; [apply Z.log2_nonneg|].
  apply Z.log2_lt_pow2; lia.
Qed.

Lemma find_lsb_spec x :
  0 < x < 2 ^ 64 ->
  0 <= _find_lsb x < 64 /\ Z.testbit x (_find_lsb x) = true
  /\ forall j, 0 <= j < _find_lsb x -> Z.testbit x j = false.
Proof.
  intros Hx. destruct x as [|p|p]; try lia.
  assert (Hr : 0 <= ctz p < 64).
  { split; [apply ctz_nonneg|].
    pose proof (ctz_le_log2 p). pose proof (find_msb_range (Zpos p) Hx).
    unfold _find_msb in *. lia. }
  unfold _find_lsb. simpl ffsll.
  replace (1 + ctz p - 1) with (ctz p) by lia.
  rewrite u32_small by lia.
  split; [exact Hr|]. split; [apply ctz_bit|apply ctz_below].
Qed.

Lemma find_lsb_zero : _find_lsb 0 = 2 ^ 32 - 1.
Proof. reflexivity. Qed.

(** ** Bitset *)

Lemma cell_insert_eq (s : list Z) n v : (n < length s)%nat -> cell (<[n:=v]> s) n = v.
Proof. intros H. unfold cell. rewrite list_lookup_insert_eq by exact H. reflexivity. Qed.

Lemma cell_insert_ne (s : list Z) n m v : n <> m -> cell (<[n:=v]> s) m = cell s m.
Proof. intros H. unfold cell. rewrite list_lookup_insert_ne by exact H. reflexivity. Qed.

Lemma cell_range s n : words s -> 0 <= cell s n < 2 ^ 64.
Proof.
  intros Hw. unfold cell. destruct (s !! n) as [c|] eqn:E; simpl; [|lia].
  unfold words in Hw. rewrite Forall_lookup in Hw. exact (Hw n c E).
Qed.

Lemma cell_beyond (s : list Z) n : (length s <= n)%nat -> cell s n = 0.
Proof. intros H. unfold cell. rewrite lookup_ge_None_2 by exact H. reflexivity. Qed.

Lemma words_insert s n v : words s -> 0 <= v < 2 ^ 64 -> words (<[n:=v]> s).
Proof.
  intros Hw Hv. unfold words in *. rewrite Forall_lookup in *.
  intros k c Hk. destruct (decide (n = k)) as [->|Hne].
  - destruct (decide (k < length s)%nat) as [Hlt|Hge].
    + rewrite list_lookup_insert_eq in Hk by exact Hlt. congruence.
    + rewrite list_insert_ge in Hk by lia. eauto.
  - rewrite list_lookup_insert_ne in Hk by exact Hne. eauto.
Qed.

Lemma land_word c m : 0 <= c < 2 ^ 64 -> 0 <= Z.land c m < 2 ^ 64.
Proof.
  intros Hc.
  assert (Hn : 0 <= Z.land c m) by (apply Z.land_nonneg; lia).
  apply Z.bounded_iff_bits_nonneg'; [lia | exact Hn |].
  intros l Hl. rewrite Z.land_spec.
  assert (Hb : Z.testbit c l = false).
  { apply (proj1 (Z.bounded_iff_bits_nonneg' 64 c ltac:(lia) ltac:(lia))); lia. }
  rewrite Hb. reflexivity.
Qed.

Lemma lor_word c m : 0 <= c < 2 ^ 64 -> 0 <= m < 2 ^ 64 -> 0 <= Z.lor c m < 2 ^ 64.
Proof.
  intros Hc Hm.
  assert (Hn : 0 <= Z.lor c m) by (apply Z.lor_nonneg; lia).
  apply Z.bounded_iff_bits_nonneg'; [lia | exact Hn |].
  intros l Hl. rewrite Z.lor_spec.
  rewrite (proj1 (Z.bounded_iff_bits_nonneg' 64 c ltac:(lia) ltac:(lia))) by lia.
  rewrite (proj1 (Z.bounded_iff_bits_nonneg' 64 m ltac:(lia) ltac:(lia))) by lia.
  reflexivity.
Qed.

Lemma mask_eq i : 0 <= i -> u64 (Z.shiftl C (Z.land i R)) = Z.shiftl 1 (i mod 64).
Proof.
  intros Hi. unfold C. rewrite land_R by exact Hi.
  apply u64_small, shl_one_range. apply Z.mod_pos_bound. lia.
Qed.

Lemma cell_of_eq i : cell_of i = Z.to_nat (i / 64).
Proof. unfold cell_of. rewrite shr_B. reflexivity. Qed.

Lemma index_split i j :
  0 <= i -> 0 <= j ->
  (j =? i) = (Nat.eqb (Z.to_nat (j / 64)) (Z.to_nat (i / 64)) && (j mod 64 =? i mod 64)).
Proof.
  intros Hi Hj.
  pose proof (Z.div_mod i 64 ltac:(lia)). pose proof (Z.div_mod j 64 ltac:(lia)).
  pose proof (Z.div_pos i 64 Hi ltac:(lia)). pose proof (Z.div_pos j 64 Hj ltac:(lia)).
  destruct (Z.eqb_spec j i) as [->|Hne].
  - rewrite Nat.eqb_refl, Z.eqb_refl. reflexivity.
  - symmetry. apply andb_false_iff.
    destruct (Nat.eqb_spec (Z.to_nat (j / 64)) (Z.to_nat (i / 64))) as [He|]; [|now left].
    right. apply Z.eqb_neq. intros Hm. apply Hne. apply Z2Nat.inj in He; lia.
Qed.

Lemma bit_set s i j :
  0 <= i -> 0 <= j -> (cell_of i < length s)%nat ->
  bit (Bitset_set s i) j = (j =? i) || bit s j.
Proof.
  intros Hi Hj Hlen. unfold bit, Bitset_set.
  rewrite mask_eq by exact Hi. rewrite cell_of_eq in *.
  rewrite (index_split i j Hi Hj).
  pose proof (Z.mod_pos_bound i 64 ltac:(lia)). pose proof (Z.mod_pos_bound j 64 ltac:(lia)).
  destruct (Nat.eqb_spec (Z.to_nat (j / 64)) (Z.to_nat (i / 64))) as [He|Hne].
  - rewrite He, cell_insert_eq by exact Hlen.
    rewrite Z.lor_spec, testbit_one_shl by lia. simpl. apply orb_comm.
  - rewrite cell_insert_ne by congruence. reflexivity.
Qed.

Lemma bit_unset s i j :
  0 <= i -> 0 <= j -> (cell_of i < length s)%nat ->
  bit (Bitset_unset s i) j = negb (j =? i) && bit s j.
Proof.
  intros Hi Hj Hlen. unfold bit, Bitset_unset.
  rewrite mask_eq by exact Hi. rewrite cell_of_eq in *.
  rewrite (index_split i j Hi Hj).
  pose proof (Z.mod_pos_bound i 64 ltac:(lia)). pose proof (Z.mod_pos_bound j 64 ltac:(lia)).
  destruct (Nat.eqb_spec (Z.to_nat (j / 64)) (Z.to_nat (i / 64))) as [He|Hne].
  - rewrite He, cell_insert_eq by exact Hlen.
    rewrite Z.land_spec, testbit_not64, testbit_one_shl by lia. simpl. apply andb_comm.
  - rewrite cell_insert_ne by congruence. reflexivity.
Qed.

Lemma words_set s i : 0 <= i -> words s -> words (Bitset_set s i).
Proof.
  intros Hi Hw. unfold Bitset_set. apply words_insert; [exact Hw|].
  rewrite mask_eq by exact Hi. apply lor_word; [apply cell_range, Hw|].
  apply shl_one_range, Z.mod_pos_bound. lia.
Qed.

Lemma words_unset s i : words s -> words (Bitset_unset s i).
Proof.
  intros Hw. unfold Bitset_unset. apply words_insert; [exact Hw|].
  apply land_word, cell_range, Hw.
Qed.

Lemma length_set s i : length (Bitset_set s i) = length s.
Proof. apply length_insert. Qed.

Lemma length_unset s i : length (Bitset_unset s i) = length s.
Proof. apply length_insert. Qed.

Lemma div64 q r : 0 <= r < 64 -> (64 * q + r) / 64 = q.
Proof. intros Hr. symmetry. apply Z.div_unique with r; lia. Qed.

Lemma mod64 q r : 0 <= r < 64 -> (64 * q + r) mod 64 = r.
Proof. intros Hr. symmetry. apply Z.mod_unique with q; lia. Qed.

(** a cell is zero exactly when none of its 64 bits is set *)
Lemma cell_zero_bits s n :
  words s ->
  cell s n = 0 <-> forall j, 64 * Z.of_nat n <= j < 64 * Z.of_nat n + 64 -> bit s j = false.
Proof.
  intros Hw. pose proof (cell_range s n Hw) as Hc. split.
  - intros Hz j Hj. unfold bit.
    replace j with (64 * Z.of_nat n + (j - 64 * Z.of_nat n)) by lia.
    rewrite div64 by lia. rewrite Nat2Z.id, Hz. apply Z.bits_0.
  - intros Hb. apply Z.bits_inj'. intros k Hk. rewrite Z.bits_0.
    destruct (Z_lt_le_dec k 64) as [Hlt|Hge].
    + specialize (Hb (64 * Z.of_nat n + k) ltac:(lia)). unfold bit in Hb.
      rewrite div64, mod64, Nat2Z.id in Hb by lia. exact Hb.
    + apply (proj1 (Z.bounded_iff_bits_nonneg' 64 (cell s n) ltac:(lia) ltac:(lia))); lia.
Qed.

Lemma rfind_from_eq s n :
  rfind_from s n =
  if cell s n =? 0 then match n with O => -1 | S m => rfind_from s m end
  else s32 (_find_msb (cell s n) + s32 (Z.shiftl (Z.of_nat n) B)).
Proof. destruct n; reflexivity. Qed.

(** the hit case of [rfind]: the highest bit of a non-zero cell *)
Lemma rfind_hit s n :
  words s -> Z.of_nat n < 2 ^ 25 -> cell s n <> 0 ->
  let r := s32 (_find_msb (cell s n) + s32 (Z.shiftl (Z.of_nat n) B)) in
  64 * Z.of_nat n <= r <= 64 * Z.of_nat n + 63 /\ bit s r = true
  /\ forall j, r < j <= 64 * Z.of_nat n + 63 -> bit s j = false.
Proof.
  intros Hw Hn Hnz. pose proof (cell_range s n Hw) as Hc.
  destruct (find_msb_spec (cell s n)) as [Hb Ha]; [lia|].
  pose proof (find_msb_range (cell s n) ltac:(lia)) as Hr.
  rewrite shl_B. rewrite (s32_small (Z.of_nat n * 64)) by lia.
  rewrite s32_small by lia.
  set (k := _find_msb (cell s n)) in *. cbv zeta.
  replace (k + Z.of_nat n * 64) with (64 * Z.of_nat n + k) by lia.
  split; [lia|]. unfold bit. rewrite div64, mod64, Nat2Z.id by lia.
  split; [exact Hb|]. intros j Hj.
  replace j with (64 * Z.of_nat n + (j - 64 * Z.of_nat n)) by lia.
  rewrite div64, mod64, Nat2Z.id by lia. apply Ha. lia.
Qed.

Lemma rfind_from_top s n :
  words s -> Z.of_nat n < 2 ^ 25 ->
  is_top s (64 * Z.of_nat n + 63) (rfind_from s n).
Proof.
  intros Hw. induction n as [|m IH]; intros Hn; rewrite rfind_from_eq;
    match goal with |- context [cell s ?k =? 0] =>
      destruct (Z.eqb_spec (cell s k) 0) as [Hz|Hnz] end.
  - left. split; [reflexivity|]. intros j Hj.
    apply (proj1 (cell_zero_bits s 0 Hw) Hz). lia.
  - right. destruct (rfind_hit s 0 Hw Hn Hnz) as (Hr & Hb & Ha).
    split; [lia|]. split; [exact Hb|exact Ha].
  - specialize (IH ltac:(lia)).
    pose proof (proj1 (cell_zero_bits s (S m) Hw) Hz) as Hzero.
    destruct IH as [[-> Hall]|(Hr & Hb & Hall)].
    + left. split; [reflexivity|]. intros j Hj.
      destruct (Z_le_gt_dec j (64 * Z.of_nat m + 63)); [apply Hall; lia|apply Hzero; lia].
    + right. split; [lia|]. split; [exact Hb|]. intros j Hj.
      destruct (Z_le_gt_dec j (64 * Z.of_nat m + 63)); [apply Hall; lia|apply Hzero; lia].
  - right. destruct (rfind_hit s (S m) Hw Hn Hnz) as (Hr & Hb & Ha).
    split; [lia|]. split; [exact Hb|exact Ha].
Qed.

Lemma rfind_top s i :
  words s -> 0 <= i < 2 ^ 31 ->
  is_top s ((i / 64 + 1) * 64 - 1) (Bitset_rfind s i).
Proof.
  intros Hw Hi. unfold Bitset_rfind. rewrite shr_B.
  pose proof (Z.div_pos i 64 ltac:(lia) ltac:(lia)).
  assert (i / 64 < 2 ^ 25) by (apply Z.div_lt_upper_bound; lia).
  rewrite s32_small by lia.
  replace ((i / 64 + 1) * 64 - 1) with (64 * Z.of_nat (Z.to_nat (i / 64)) + 63) by lia.
  apply rfind_from_top; [exact Hw|lia].
Qed.

(** C4: for a bitmap of 64-bit cells and an in-range index [i],
    [rfind(i)] is the largest index of a set bit that is at most
    [(i/W + 1)*W - 1], and it is -1 when no bit up to that bound is set. *)
Theorem rfind_highest_set_bit (s : list Z) (i : Z) :
  words s -> 0 <= i < 64 * Z.of_nat (length s) -> i < 2 ^ 31 ->
  let bound := (i / 64 + 1) * 64 - 1 in
  let r := Bitset_rfind s i in
  (r = -1 /\ forall j, 0 <= j <= bound -> bit s j = false)
  \/ (0 <= r <= bound /\ bit s r = true
      /\ forall j, r < j <= bound -> bit s j = false).
Proof.
  intros Hw Hi Hi31. apply (rfind_top s i Hw). lia.
Qed.

Lemma rfind_highest_set_bit_witness :
  let s := [5; 0] in
  (Bitset_rfind s 70 = -1 /\ forall j, 0 <= j <= 127 -> bit s j = false)
  \/ (0 <= Bitset_rfind s 70 <= 127 /\ bit s (Bitset_rfind s 70) = true
      /\ forall j, Bitset_rfind s 70 < j <= 127 -> bit s j = false).
Proof.
  apply (rfind_highest_set_bit [5; 0] 70).
  - repeat constructor; lia.
  - simpl; lia.
  - lia.
Defined.

(** ** The sub-allocators *)

Lemma MAX_bIT_lt t : 0 < MAX_bIT t < BS_BITS t.
Proof. destruct t; vm_compute; split; reflexivity. Qed.

Lemma BS_BITS_le t : BS_BITS t <= 2048.
Proof. destruct t; vm_compute; discriminate. Qed.

Lemma slot_bits_range t : 4 <= slot_bits t <= 12.
Proof. destruct t; simpl; lia. Qed.

Lemma slot_size_pos t : 16 <= slot_size t.
Proof. destruct t; vm_compute; discriminate. Qed.

Lemma shr_slot t a p : Z.shiftr (p - a_p a) (slot_bits t) = slot_of t a p.
Proof.
  unfold slot_of, slot_size. apply Z.shiftr_div_pow2.
  pose proof (slot_bits_range t). lia.
Qed.

Lemma set_cur_bit_same a : set_cur_bit a (a_cur_bit a) = a.
Proof. destruct a. reflexivity. Qed.

Lemma cell_of_lt t s i : bitmap t s -> 0 <= i < BS_BITS t -> (cell_of i < length s)%nat.
Proof.
  intros [_ Hlen] Hi. rewrite cell_of_eq.
  assert (i / 64 < Z.of_nat (length s)) by (apply Z.div_lt_upper_bound; lia).
  pose proof (Z.div_pos i 64 ltac:(lia) ltac:(lia)). lia.
Qed.

(** what [free] does, for a slot below the cursor *)
Lemma Alloc_free_run (t : tier) (a : Alloc) (p : Z) :
  bitmap t (a_bs a) -> a_cur_bit a <= MAX_bIT t ->
  0 <= slot_of t a p < a_cur_bit a ->
  let i := slot_of t a p in
  let bs' := Bitset_unset (a_bs a) i in
  let r := Bitset_rfind bs' (a_cur_bit a) in
  let cur' := if r <? i then (if 0 <=? r then i else 0) else a_cur_bit a in
  (forall j, 0 <= j -> bit bs' j = if j =? i then false else bit (a_bs a) j)
  /\ (r = -1 \/ 0 <= r)
  /\ a_bs (snd (Alloc_free t a p)) = bs'
  /\ a_cur_bit (snd (Alloc_free t a p)) = cur'
  /\ (fst (Alloc_free t a p) = true <-> cur' = 0)
  /\ Alloc_free t a p = (cur' =? 0, set_cur_bit (set_bs a bs') cur').
Proof.
  intros Hbm Hcur Hi i bs' r cur'.
  pose proof (MAX_bIT_lt t) as HM. pose proof (BS_BITS_le t) as HB.
  assert (Hlen : (cell_of i < length (a_bs a))%nat)
    by (apply (cell_of_lt t); [exact Hbm|subst i; lia]).
  assert (Hfree : Alloc_free t a p = (cur' =? 0, set_cur_bit (set_bs a bs') cur')).
  { unfold Alloc_free. rewrite shr_slot. fold i.
    rewrite (s32_small i) by (subst i; lia). rewrite (u32_small i) by (subst i; lia).
    fold bs'. simpl a_bs. simpl a_cur_bit. fold r. subst cur'.
    destruct (r <? i) eqn:Hri.
    - destruct (0 <=? r); reflexivity.
    - replace (a_cur_bit a =? 0) with false by (symmetry; apply Z.eqb_neq; subst i; lia).
      destruct a; reflexivity. }
  split.
  { intros j Hj. subst bs'. rewrite bit_unset by (subst i; lia || exact Hlen).
    destruct (j =? i); reflexivity. }
  split.
  { assert (Hw : words bs') by (apply words_unset, Hbm).
    destruct (rfind_top bs' (a_cur_bit a) Hw ltac:(subst i; lia)) as [[Hr _]|[Hr _]];
      [left; exact Hr | right; apply Hr]. }
  rewrite Hfree. simpl. split; [reflexivity|]. split; [reflexivity|].
  split; [|reflexivity]. apply Z.eqb_eq.
Qed.

(** C1: [free(p)] on a sub-allocator of either tier, for a pointer whose
    slot [i = (p - base)/slot_size] lies below the cursor: bit [i] of [bs]
    is cleared, [r = bs.rfind(cur_bit)] is taken on the cleared bitmap,
    the cursor becomes [i] (when [0 <= r < i]) or 0 (when [r = -1]) and is
    unchanged when [r >= i], and the result is true exactly when the
    cursor ends up 0. *)
Theorem free_rewinds_cursor (t : tier) (a : Alloc) (p : Z) :
  bitmap t (a_bs a) -> a_cur_bit a <= MAX_bIT t ->
  0 <= slot_of t a p < a_cur_bit a ->
  let i := slot_of t a p in
  let bs' := Bitset_unset (a_bs a) i in
  let r := Bitset_rfind bs' (a_cur_bit a) in
  let cur' := if r <? i then (if 0 <=? r then i else 0) else a_cur_bit a in
  (forall j, 0 <= j -> bit bs' j = if j =? i then false else bit (a_bs a) j)
  /\ (r = -1 \/ 0 <= r)
  /\ a_bs (snd (Alloc_free t a p)) = bs'
  /\ a_cur_bit (snd (Alloc_free t a p)) = cur'
  /\ (fst (Alloc_free t a p) = true <-> cur' = 0)
  /\ Alloc_free t a p = (cur' =? 0, set_cur_bit (set_bs a bs') cur').
Proof. exact (Alloc_free_run t a p). Qed.

(** a boolean check of [bitmap], for concrete allocators *)
Lemma bitmap_check t s :
  forallb (fun c => (0 <=? c) && (c <? 2 ^ 64)) s = true ->
  (64 * Z.of_nat (length s) =? BS_BITS t) = true -> bitmap t s.
Proof.
  intros Hw Hl. split; [|apply Z.eqb_eq, Hl].
  unfold words. rewrite Forall_forall. rewrite forallb_forall in Hw.
  intros c Hc. apply list_elem_of_In in Hc. specialize (Hw c Hc).
  apply andb_true_iff in Hw. destruct Hw as [H0 H1].
  apply Z.leb_le in H0. apply Z.ltb_lt in H1. lia.
Qed.

Lemma free_rewinds_cursor_witness :
  bitmap Small (a_bs sa_abc) /\ a_cur_bit sa_abc <= MAX_bIT Small
  /\ 0 <= slot_of Small sa_abc (576 + 32) < a_cur_bit sa_abc
  /\ a_cur_bit (snd (Alloc_free Small sa_abc (576 + 32))) = 2.
Proof.
  assert (H1 : bitmap Small (a_bs sa_abc))
    by (apply bitmap_check; vm_compute; reflexivity).
  assert (H2 : a_cur_bit sa_abc <= MAX_bIT Small) by (vm_compute; discriminate).
  assert (H3 : 0 <= slot_of Small sa_abc (576 + 32) < a_cur_bit sa_abc)
    by (vm_compute; split; [discriminate|reflexivity]).
  split; [exact H1|]. split; [exact H2|]. split; [exact H3|].
  destruct (free_rewinds_cursor Small sa_abc (576 + 32) H1 H2 H3)
    as (_ & _ & _ & Hc & _).
  rewrite Hc. vm_compute. reflexivity.
Defined.

(** the two outcomes of [realloc] *)
Lemma Alloc_realloc_run (t : tier) (a : Alloc) (p o n : Z) :
  0 <= slot_of t a p -> 0 <= o -> 0 <= n ->
  slot_of t a p + o < 2 ^ 32 -> slot_of t a p + n < 2 ^ 32 ->
  let i := slot_of t a p in
  (a_cur_bit a = i + o /\ i + n <= MAX_bIT t ->
     Alloc_realloc t a p o n = (Some p, set_cur_bit a (i + n))
     /\ a_bs (snd (Alloc_realloc t a p o n)) = a_bs a
     /\ a_xbs (snd (Alloc_realloc t a p o n)) = a_xbs a)
  /\ (~ (a_cur_bit a = i + o /\ i + n <= MAX_bIT t) ->
     Alloc_realloc t a p o n = (None, a)).
Proof.
  intros Hi Ho Hn Hio Hin i. unfold Alloc_realloc. rewrite shr_slot. fold i.
  rewrite (u32_small i) by (subst i; lia).
  rewrite (u32_small (i + o)) by (subst i; lia).
  rewrite (u32_small (i + n)) by (subst i; lia).
  split.
  - intros [Hc Hm].
    rewrite (proj2 (Z.eqb_eq _ _) Hc), (proj2 (Z.leb_le _ _) Hm). simpl.
    repeat split.
  - intros Hnot.
    destruct (Z.eqb_spec (a_cur_bit a) (i + o)) as [Hc|Hc]; simpl; [|reflexivity].
    destruct (Z.leb_spec (i + n) (MAX_bIT t)) as [Hm|Hm]; [|reflexivity].
    exfalso. apply Hnot. split; assumption.
Qed.

(** C5: [realloc(p, o, n)] with [i = (p - base)/slot_size] returns [p] and
    sets the cursor to [i + n] exactly when the cursor is [i + o] and
    [i + n <= MAX_bIT]; in every other case it returns nil and changes
    nothing (cursor and both bitmaps). *)
Theorem realloc_topmost_only (t : tier) (a : Alloc) (p o n : Z) :
  0 <= slot_of t a p -> 0 <= o -> 0 <= n ->
  slot_of t a p + o < 2 ^ 32 -> slot_of t a p + n < 2 ^ 32 ->
  let i := slot_of t a p in
  (a_cur_bit a = i + o /\ i + n <= MAX_bIT t ->
     Alloc_realloc t a p o n = (Some p, set_cur_bit a (i + n))
     /\ a_bs (snd (Alloc_realloc t a p o n)) = a_bs a
     /\ a_xbs (snd (Alloc_realloc t a p o n)) = a_xbs a)
  /\ (~ (a_cur_bit a = i + o /\ i + n <= MAX_bIT t) ->
     Alloc_realloc t a p o n = (None, a)).
Proof. exact (Alloc_realloc_run t a p o n). Qed.

Lemma realloc_topmost_only_witness :
  Alloc_realloc Small sa_abc (576 + 32) 1 4
  = (Some (576 + 32), set_cur_bit sa_abc 6)
  /\ Alloc_realloc Small sa_abc (576 + 16) 1 4 = (None, sa_abc).
Proof.
  split.
  - apply (realloc_topmost_only Small sa_abc (576 + 32) 1 4);
      try (vm_compute; congruence).
    split; vm_compute; congruence.
  - apply (realloc_topmost_only Small sa_abc (576 + 16) 1 4);
      try (vm_compute; congruence).
    intros [H _]. vm_compute in H. discriminate.
Defined.

Lemma alloc_success t a n p a' :
  0 <= a_cur_bit a <= MAX_bIT t -> 0 <= n < 2 ^ 31 ->
  Alloc_alloc t a n = (Some p, a') ->
  a_cur_bit a + n <= MAX_bIT t
  /\ p = a_p a + a_cur_bit a * slot_size t
  /\ a' = set_cur_bit (set_bs a (Bitset_set (a_bs a) (a_cur_bit a))) (a_cur_bit a + n).
Proof.
  intros Hc Hn. unfold Alloc_alloc. cbv zeta. simpl a_cur_bit. simpl a_p.
  pose proof (MAX_bIT_lt t) as HM. pose proof (BS_BITS_le t) as HB.
  rewrite !(u32_small (a_cur_bit a + n)) by lia.
  destruct (Z.leb_spec (a_cur_bit a + n) (MAX_bIT t)) as [Hle|Hgt]; [|discriminate].
  intros [= <- <-].
  split; [exact Hle|]. split; [|reflexivity]. f_equal.
  rewrite Z.shiftl_mul_pow2 by (pose proof (slot_bits_range t); lia).
  fold (slot_size t). apply u32_small.
  assert (slot_size t <= 4096) by (destruct t; vm_compute; discriminate).
  pose proof (slot_size_pos t). nia.
Qed.

Lemma alloc_all_consecutive t us : forall a ps,
  0 <= a_cur_bit a <= MAX_bIT t ->
  Forall (fun u => 1 <= u < 2 ^ 31) us ->
  alloc_all t a us = Some ps ->
  length ps = length us
  /\ forall (k : nat) u p q,
      us !! k = Some u -> ps !! k = Some p -> ps !! S k = Some q ->
      q = p + u * slot_size t.
Proof.
  induction us as [|u us IH]; intros a ps Hc Hus Hall.
  - simpl in Hall. injection Hall as <-. split; [reflexivity|].
    intros k u p q Hk. discriminate.
  - simpl in Hall. inversion Hus as [|? ? Hu Hus']; subst.
    destruct (Alloc_alloc t a u) as [[p0|] a'] eqn:Ea; [|discriminate].
    destruct (alloc_success t a u p0 a' Hc ltac:(lia) Ea) as (Hle & Hp & Ha').
    assert (Hc' : 0 <= a_cur_bit a' <= MAX_bIT t) by (subst a'; simpl; lia).
    destruct (alloc_all t a' us) as [ps'|] eqn:Er; [|discriminate].
    simpl in Hall. injection Hall as <-.
    destruct (IH a' ps' Hc' Hus' Er) as [Hlen Hstep].
    split; [simpl; congruence|].
    intros [|k] v p q Hv Hp' Hq.
    + simpl in Hv, Hp', Hq. injection Hv as <-. injection Hp' as <-.
      destruct us as [|u1 us1]; [simpl in Er; injection Er as <-; discriminate|].
      simpl in Er.
      destruct (Alloc_alloc t a' u1) as [[p1|] a''] eqn:Ea'; [|discriminate].
      assert (Hu1 : 1 <= u1 < 2 ^ 31) by (inversion Hus'; assumption).
      destruct (alloc_success t a' u1 p1 a'' Hc' ltac:(lia) Ea') as (_ & Hp1 & _).
      destruct (alloc_all t a'' us1); [|discriminate].
      simpl in Er. injection Er as <-. simpl in Hq. injection Hq as <-.
      rewrite Hp1, Hp, Ha'. simpl. lia.
    + simpl in Hv, Hp', Hq. eapply Hstep; eassumption.
Qed.

(** C9: in one sub-allocator, a run of successful [alloc] calls with unit
    counts [u_1, u_2, ...] and nothing in between returns pointers with
    [p_(k+1) = p_k + u_k * slot_size], hence strictly increasing. *)
Theorem alloc_pointers_consecutive (t : tier) (a : Alloc) (us ps : list Z) :
  0 <= a_cur_bit a <= MAX_bIT t ->
  Forall (fun u => 1 <= u < 2 ^ 31) us ->
  alloc_all t a us = Some ps ->
  forall (k : nat) u p q,
    us !! k = Some u -> ps !! k = Some p -> ps !! S k = Some q ->
    q = p + u * slot_size t /\ p < q.
Proof.
  intros Hc Hus Hall k u p q Hu Hp Hq.
  destruct (alloc_all_consecutive t us a ps Hc Hus Hall) as [_ Hstep].
  pose proof (Hstep k u p q Hu Hp Hq) as Heq. split; [exact Heq|].
  rewrite Forall_lookup in Hus. specialize (Hus k u Hu).
  pose proof (slot_size_pos t). nia.
Qed.

Lemma alloc_pointers_consecutive_witness :
  alloc_all Small sa_fresh [3; 1; 2] = Some [576; 624; 640]
  /\ 624 = 576 + 3 * slot_size Small /\ 576 < 624.
Proof.
  assert (Hall : alloc_all Small sa_fresh [3; 1; 2] = Some [576; 624; 640])
    by (vm_compute; reflexivity).
  split; [exact Hall|].
  apply (alloc_pointers_consecutive Small sa_fresh [3; 1; 2] [576; 624; 640]) with (k := 0%nat);
    try reflexivity; try exact Hall.
  - vm_compute. split; discriminate.
  - repeat constructor; lia.
Defined.

(** ** The cursor invariant *)

Lemma bit_fresh t j : bit (fresh_cells t) j = false.
Proof.
  unfold bit, cell, fresh_cells.
  destruct (replicate _ 0 !! _) as [c|] eqn:E; simpl.
  - apply lookup_replicate in E. destruct E as [-> _]. apply Z.bits_0.
  - apply Z.bits_0.
Qed.

Lemma bitmap_fresh t : bitmap t (fresh_cells t).
Proof.
  split.
  - unfold words, fresh_cells. apply Forall_replicate. lia.
  - unfold fresh_cells. rewrite length_replicate. destruct t; reflexivity.
Qed.

Lemma bit_clear (s : list Z) i x j :
  (i < length s)%nat -> 0 <= j ->
  bit (<[i := Z.land (cell s i) (not64 x)]> s) j
  = bit s j && negb (Nat.eqb (Z.to_nat (j / 64)) i && Z.testbit x (j mod 64)).
Proof.
  intros Hi Hj. unfold bit.
  pose proof (Z.mod_pos_bound j 64 ltac:(lia)).
  destruct (Nat.eqb_spec (Z.to_nat (j / 64)) i) as [->|Hne].
  - rewrite cell_insert_eq by exact Hi.
    rewrite Z.land_spec, testbit_not64 by lia. reflexivity.
  - rewrite cell_insert_ne by congruence. simpl. rewrite andb_true_r. reflexivity.
Qed.

Lemma cell_lt_length (s : list Z) i : cell s i <> 0 -> (i < length s)%nat.
Proof.
  intros Hnz. destruct (decide (i < length s)%nat) as [|Hge]; [assumption|].
  exfalso. apply Hnz, cell_beyond. lia.
Qed.

(** with every set bit below the cursor, what [rfind(cur_bit)] sees is
    the whole bitmap *)
Lemma top_whole s c r :
  0 <= c -> (forall j, 0 <= j -> bit s j = true -> j < c) ->
  is_top s ((c / 64 + 1) * 64 - 1) r ->
  (r = -1 /\ forall j, 0 <= j -> bit s j = false)
  \/ (0 <= r < c /\ bit s r = true /\ forall j, r < j -> bit s j = false).
Proof.
  intros Hc Hbelow Htop.
  assert (Hb : c <= (c / 64 + 1) * 64 - 1).
  { pose proof (Z.div_mod c 64 ltac:(lia)). pose proof (Z.mod_pos_bound c 64 ltac:(lia)). lia. }
  assert (Habove : forall j, (c / 64 + 1) * 64 - 1 < j -> bit s j = false).
  { intros j Hj. destruct (bit s j) eqn:E; [|reflexivity].
    specialize (Hbelow j ltac:(lia) E). lia. }
  destruct Htop as [[-> Hall]|(Hr & Hset & Hall)].
  - left. split; [reflexivity|]. intros j Hj.
    destruct (Z_le_gt_dec j ((c / 64 + 1) * 64 - 1)); [apply Hall; lia|apply Habove; lia].
  - right. split; [split; [lia|apply Hbelow; [lia|exact Hset]]|].
    split; [exact Hset|]. intros j Hj.
    destruct (Z_le_gt_dec j ((c / 64 + 1) * 64 - 1)); [apply Hall; lia|apply Habove; lia].
Qed.

Lemma inv_new t this parent ta : cursor_inv t (Alloc_new t this parent ta).
Proof.
  pose proof (MAX_bIT_lt t).
  destruct t; (constructor;
    cbn [Alloc_new SmallAlloc_new LargeAlloc_new a_bs a_xbs a_cur_bit];
    [apply bitmap_fresh | apply bitmap_fresh | lia
    | intros j _ Hj; rewrite bit_fresh in Hj; discriminate
    | reflexivity
    | intros j _ Hj; rewrite bit_fresh in Hj; discriminate]).
Qed.

Lemma inv_alloc t a n :
  cursor_inv t a -> 1 <= n < 2 ^ 31 -> cursor_inv t (snd (Alloc_alloc t a n)).
Proof.
  intros [Hbs Hxbs Hcur Hbelow Hempty Hsub] Hn.
  destruct (Alloc_alloc t a n) as [[p|] a'] eqn:E.
  - destruct (alloc_success t a n p a' Hcur ltac:(lia) E) as (Hle & _ & ->).
    pose proof (MAX_bIT_lt t) as HM.
    assert (Hlen : (cell_of (a_cur_bit a) < length (a_bs a))%nat)
      by (apply (cell_of_lt t); [exact Hbs|lia]).
    simpl. constructor; simpl.
    + destruct Hbs as [Hw Hl]. split; [apply words_set; [lia|exact Hw]|].
      rewrite length_set. exact Hl.
    + exact Hxbs.
    + lia.
    + intros j Hj. rewrite bit_set by (lia || exact Hlen).
      destruct (Z.eqb_spec j (a_cur_bit a)) as [->|_]; simpl; [lia|].
      intros Hb. specialize (Hbelow j Hj Hb). lia.
    + intros Hall. specialize (Hall (a_cur_bit a) ltac:(lia)).
      rewrite bit_set, Z.eqb_refl in Hall by (lia || exact Hlen). discriminate.
    + intros j Hj Hx. rewrite bit_set by (lia || exact Hlen).
      rewrite (Hsub j Hj Hx). apply orb_true_r.
  - unfold Alloc_alloc in E. destruct (_ <=? _); [discriminate|].
    injection E as <-. simpl. constructor; assumption.
Qed.

Lemma inv_free t a p :
  cursor_inv t a -> live t a p -> bit (a_xbs a) (slot_of t a p) = false ->
  cursor_inv t (snd (Alloc_free t a p)).
Proof.
  intros [Hbs Hxbs Hcur Hbelow Hempty Hsub] [Hi Hlive] Hx.
  pose proof (MAX_bIT_lt t) as HM. pose proof (BS_BITS_le t) as HB.
  assert (Hic : slot_of t a p < a_cur_bit a) by (apply Hbelow; [lia|exact Hlive]).
  destruct (Alloc_free_run t a p Hbs ltac:(lia) ltac:(lia))
    as (Hbit & _ & _ & _ & _ & ->).
  set (i := slot_of t a p) in *.
  set (bs' := Bitset_unset (a_bs a) i) in *.
  set (r := Bitset_rfind bs' (a_cur_bit a)).
  assert (Hw' : bitmap t bs').
  { destruct Hbs as [Hw Hl]. split; [apply words_unset, Hw|].
    subst bs'. rewrite length_unset. exact Hl. }
  assert (Hbelow' : forall j, 0 <= j -> bit bs' j = true -> j < a_cur_bit a).
  { intros j Hj. rewrite Hbit by exact Hj. destruct (j =? i); [discriminate|apply Hbelow, Hj]. }
  assert (Htop := top_whole bs' (a_cur_bit a) r ltac:(lia) Hbelow'
                    (rfind_top bs' (a_cur_bit a) (proj1 Hw') ltac:(lia))).
  simpl. constructor; simpl; try assumption.
  - destruct (r <? i); [destruct (0 <=? r)|]; lia.
  - intros j Hj Hb. destruct Htop as [[Hr Hall]|(Hr & Hset & Hall)].
    + rewrite Hall in Hb by exact Hj. discriminate.
    + destruct (Z.ltb_spec r i) as [Hlt|Hge]; [|apply Hbelow', Hb; exact Hj].
      rewrite (proj2 (Z.leb_le 0 r)) by lia.
      destruct (Z_le_gt_dec j r); [lia|]. rewrite Hall in Hb by lia. discriminate.
  - intros Hall. destruct Htop as [[Hr _]|(Hr & Hset & _)].
    + rewrite Hr. replace (-1 <? i) with true by (symmetry; apply Z.ltb_lt; lia).
      reflexivity.
    + rewrite Hall in Hset by lia. discriminate.
  - intros j Hj Hxj. rewrite Hbit by exact Hj.
    destruct (Z.eqb_spec j i) as [->|_]; [congruence|apply Hsub; assumption].
Qed.

Lemma inv_xfree t a p :
  cursor_inv t a -> live t a p -> cursor_inv t (Alloc_xfree t a p).
Proof.
  intros [Hbs Hxbs Hcur Hbelow Hempty Hsub] [Hi Hlive].
  pose proof (BS_BITS_le t) as HB.
  unfold Alloc_xfree. rewrite shr_slot.
  set (i := slot_of t a p) in *. rewrite (u32_small i) by lia.
  assert (Hlen : (cell_of i < length (a_xbs a))%nat)
    by (apply (cell_of_lt t); [exact Hxbs|lia]).
  constructor; simpl; try assumption.
  - destruct Hxbs as [Hw Hl]. split; [apply (words_set _ i); [lia|exact Hw]|].
    unfold Bitset_atomic_set. rewrite length_insert. exact Hl.
  - intros j Hj. change (Bitset_atomic_set (a_xbs a) i) with (Bitset_set (a_xbs a) i).
    rewrite bit_set by (lia || exact Hlen).
    destruct (Z.eqb_spec j i) as [->|_]; simpl; [intros _; exact Hlive|apply Hsub, Hj].
Qed.

Lemma classic_realloc_case t a p o n :
  (a_cur_bit a = slot_of t a p + o /\ slot_of t a p + n <= MAX_bIT t)
  \/ ~ (a_cur_bit a = slot_of t a p + o /\ slot_of t a p + n <= MAX_bIT t).
Proof.
  destruct (Z.eq_dec (a_cur_bit a) (slot_of t a p + o));
    destruct (Z_le_gt_dec (slot_of t a p + n) (MAX_bIT t)); [left; split; assumption|right..]; lia.
Qed.

Lemma inv_realloc t a p o n :
  cursor_inv t a -> live t a p -> 1 <= o <= n -> n < 2 ^ 31 ->
  cursor_inv t (snd (Alloc_realloc t a p o n)).
Proof.
  intros Hinv [Hi Hlive] Hon Hn.
  pose proof (BS_BITS_le t) as HB.
  destruct (Alloc_realloc_run t a p o n) as [Hyes Hno]; try lia.
  destruct (classic_realloc_case t a p o n) as [Hc|Hc].
  - destruct (Hyes Hc) as (-> & _ & _). destruct Hinv as [Hbs Hxbs Hcur Hbelow Hempty Hsub].
    simpl. constructor; simpl; try assumption.
    + lia.
    + intros j Hj Hb. specialize (Hbelow j Hj Hb). lia.
    + intros Hall. rewrite Hall in Hlive by lia. discriminate.
  - rewrite (Hno Hc). exact Hinv.
Qed.

(** *** Draining [xbs] *)

Lemma drain_eq a i :
  drain a i =
  let x := cell (a_xbs a) i in
  if x =? 0 then match i with O => a | S j => drain a j end
  else
    let a1 := set_xbs a (<[i := Z.land (cell (a_xbs a) i) (not64 x)]> (a_xbs a)) in
    let a2 := set_bs a1 (<[i := Z.land (cell (a_bs a1) i) (not64 x)]> (a_bs a1)) in
    let lsb := s32 (u32 (_find_lsb x + u32 (Z.shiftl (Z.of_nat i) B))) in
    let r := Bitset_rfind (a_bs a2) (a_cur_bit a2) in
    if lsb <=? r then a2
    else
      let a3 := set_cur_bit a2 (if 0 <=? r then u32 lsb else 0) in
      if a_cur_bit a3 =? 0 then a3
      else match i with O => a3 | S j => drain a3 j end.
Proof. destruct i; reflexivity. Qed.

Lemma land_not64 c x : 0 <= c < 2 ^ 64 -> Z.land c (not64 x) = Z.land c (Z.lnot x).
Proof.
  intros Hc. apply Z.bits_inj'. intros k Hk. rewrite !Z.land_spec.
  destruct (Z_lt_le_dec k 64).
  - rewrite testbit_not64, Z.lnot_spec by lia. reflexivity.
  - rewrite (proj1 (Z.bounded_iff_bits_nonneg' 64 c ltac:(lia) ltac:(lia))) by lia.
    reflexivity.
Qed.

Lemma first_set_least x l fuel : forall j,
  j <= l -> l - j <= Z.of_nat fuel ->
  (forall k, j <= k < l -> Z.testbit x k = false) -> Z.testbit x l = true ->
  first_set x j fuel = l.
Proof.
  induction fuel as [|f IH]; intros j Hjl Hf Hlow Hset; simpl.
  - lia.
  - destruct (Z.eq_dec j l) as [->|Hne]; [rewrite Hset; reflexivity|].
    rewrite Hlow by lia. apply IH; try lia; [|exact Hset].
    intros k Hk. apply Hlow. lia.
Qed.

Lemma lowest_set_find_lsb x : 0 < x < 2 ^ 64 -> lowest_set x = _find_lsb x.
Proof.
  intros Hx. destruct (find_lsb_spec x Hx) as (Hr & Hset & Hlow).
  unfold lowest_set. apply first_set_least; try lia; [|exact Hset].
  intros k Hk. apply Hlow. lia.
Qed.

(** one cell of the drain: the value of [lsb], and the invariant on each
    of the three ways out *)
Lemma drain_cell t a i :
  cursor_inv t a -> cell (a_xbs a) i <> 0 ->
  let x := cell (a_xbs a) i in
  let a2 := set_bs (set_xbs a (<[i := Z.land x (not64 x)]> (a_xbs a)))
                   (<[i := Z.land (cell (a_bs a) i) (not64 x)]> (a_bs a)) in
  let lsb := 64 * Z.of_nat i + _find_lsb x in
  let r := Bitset_rfind (a_bs a2) (a_cur_bit a) in
  s32 (u32 (_find_lsb x + u32 (Z.shiftl (Z.of_nat i) B))) = lsb
  /\ 0 <= lsb < a_cur_bit a
  /\ 0 < x < 2 ^ 64
  /\ (i < length (a_bs a))%nat
  /\ (lsb <= r -> cursor_inv t a2)
  /\ (r < lsb -> 0 <= r -> cursor_inv t (set_cur_bit a2 lsb) /\ lsb <> 0)
  /\ (r < lsb -> r < 0 -> cursor_inv t (set_cur_bit a2 0)).
Proof.
  intros [Hbs Hxbs Hcur Hbelow Hempty Hsub] Hnz x a2 lsb r.
  pose proof (MAX_bIT_lt t) as HM. pose proof (BS_BITS_le t) as HB.
  pose proof (cell_lt_length _ _ Hnz) as Hix.
  assert (Hib : (i < length (a_bs a))%nat).
  { destruct Hbs as [_ Hl1]. destruct Hxbs as [_ Hl2]. lia. }
  assert (Hi32 : Z.of_nat i < 32) by (destruct Hxbs as [_ Hl2]; lia).
  assert (Hx : 0 < x < 2 ^ 64).
  { pose proof (cell_range (a_xbs a) i (proj1 Hxbs)). subst x. lia. }
  destruct (find_lsb_spec x Hx) as (Hl & Hlset & _).
  assert (Hxl : bit (a_xbs a) lsb = true).
  { unfold bit. subst lsb. rewrite div64, mod64, Nat2Z.id by lia. exact Hlset. }
  assert (Hlc : lsb < a_cur_bit a).
  { apply Hbelow; [subst lsb; lia|]. apply Hsub; [subst lsb; lia|exact Hxl]. }
  assert (Hbit2 : forall j, 0 <= j -> bit (a_bs a2) j = true -> bit (a_bs a) j = true).
  { intros j Hj. subst a2. simpl. rewrite bit_clear by assumption.
    intros Hb. apply andb_true_iff in Hb. apply Hb. }
  assert (Hbs2 : bitmap t (a_bs a2)).
  { subst a2. simpl. destruct Hbs as [Hw Hl']. split.
    - apply words_insert; [exact Hw|]. apply land_word, cell_range, Hw.
    - rewrite length_insert. exact Hl'. }
  assert (Hxbs2 : bitmap t (a_xbs a2)).
  { subst a2. simpl. destruct Hxbs as [Hw Hl']. split.
    - apply words_insert; [exact Hw|]. apply land_word. lia.
    - rewrite length_insert. exact Hl'. }
  assert (Hbelow2 : forall j, 0 <= j -> bit (a_bs a2) j = true -> j < a_cur_bit a).
  { intros j Hj Hb. apply Hbelow; [exact Hj|]. apply (Hbit2 j Hj Hb). }
  assert (Hsub2 : forall j, 0 <= j -> bit (a_xbs a2) j = true -> bit (a_bs a2) j = true).
  { intros j Hj. subst a2. simpl.
    change (Z.land x (not64 x)) with (Z.land (cell (a_xbs a) i) (not64 x)).
    rewrite !bit_clear by assumption.
    intros Hb. apply andb_true_iff in Hb. destruct Hb as [Hb1 Hb2].
    rewrite (Hsub j Hj Hb1). simpl.
    destruct (Nat.eqb_spec (Z.to_nat (j / 64)) i) as [He|Hne]; [|reflexivity].
    simpl in Hb2 |- *. unfold bit in Hb1. rewrite He in Hb1. fold x in Hb1.
    rewrite Hb1 in Hb2. discriminate. }
  assert (Htop := top_whole (a_bs a2) (a_cur_bit a) r ltac:(lia) Hbelow2
                    (rfind_top (a_bs a2) (a_cur_bit a) (proj1 Hbs2) ltac:(lia))).
  split.
  { rewrite shl_B. rewrite (u32_small (Z.of_nat i * 64)) by lia.
    rewrite u32_small by lia. rewrite s32_small by lia. subst lsb. lia. }
  split; [subst lsb; lia|]. split; [exact Hx|]. split; [exact Hib|].
  split; [|split].
  - intros Hle. constructor; try assumption.
    intros Hall. destruct Htop as [[Hr _]|(Hr & Hset & _)]; [subst lsb; lia|].
    rewrite Hall in Hset by lia. discriminate.
  - intros Hlt Hr0. split; [|lia]. constructor; simpl; try assumption.
    + lia.
    + intros j Hj Hb. destruct Htop as [[Hr _]|(Hr & Hset & Hall)]; [lia|].
      destruct (Z_le_gt_dec j r); [lia|].
      change (a_bs a2) with (<[i:=Z.land (cell (a_bs a) i) (not64 x)]> (a_bs a)) in Hall.
      rewrite Hall in Hb by lia. discriminate.
    + intros Hall. destruct Htop as [[Hr _]|(Hr & Hset & _)]; [lia|].
      change (a_bs a2) with (<[i:=Z.land (cell (a_bs a) i) (not64 x)]> (a_bs a)) in Hset.
      rewrite Hall in Hset by lia. discriminate.
  - intros Hlt Hr0. constructor; simpl; try assumption.
    + lia.
    + intros j Hj Hb. destruct Htop as [[Hr Hall]|(Hr & _)]; [|lia].
      change (a_bs a2) with (<[i:=Z.land (cell (a_bs a) i) (not64 x)]> (a_bs a)) in Hall.
      rewrite Hall in Hb by lia. discriminate.
    + reflexivity.
Qed.

Lemma inv_drain_body t a i :
  (forall a', cursor_inv t a' ->
     cursor_inv t (match i with O => a' | S j => drain a' j end)) ->
  cursor_inv t a -> cursor_inv t (drain a i).
Proof.
  intros Hnext Hinv. rewrite drain_eq. cbv zeta.
  pose proof (MAX_bIT_lt t) as HM. pose proof (BS_BITS_le t) as HB.
  pose proof (inv_cur t a Hinv) as Hcur.
  destruct (Z.eqb_spec (cell (a_xbs a) i) 0) as [Hz|Hnz]; [apply Hnext, Hinv|].
  destruct (drain_cell t a i Hinv Hnz) as (Hlsb & Hrange & Hx & Hib & Hstop & Hrew & Hzero).
  cbv zeta in *. simpl a_bs in *. simpl a_cur_bit in *. simpl a_xbs in *. rewrite Hlsb.
  match goal with |- context [?l <=? ?r] =>
    destruct (Z.leb_spec l r) as [Hle|Hgt]; [exact (Hstop Hle)|] end.
  match goal with |- context [0 <=? ?r] =>
    destruct (Z.leb_spec 0 r) as [Hr0|Hr0] end.
  - rewrite u32_small by lia. destruct (Hrew Hgt Hr0) as [Hinv3 Hne].
    match goal with |- context [?l =? 0] =>
      destruct (Z.eqb_spec l 0) as [He|_]; [exfalso; apply Hne, He|] end.
    apply Hnext, Hinv3.
  - rewrite Z.eqb_refl. apply Hzero; lia.
Qed.

Lemma inv_drain t i : forall a, cursor_inv t a -> cursor_inv t (drain a i).
Proof.
  induction i as [|k IH]; intros a Hinv; apply inv_drain_body; auto.
Qed.

(** the tail of [try_hard_alloc] is the body of [alloc] *)
Lemma try_hard_alloc_tail t a n :
  Alloc_try_hard_alloc t a n =
  Alloc_alloc t (if 0 <=? s32 (Z.shiftr (a_cur_bit a) B)
                 then drain a (Z.to_nat (s32 (Z.shiftr (a_cur_bit a) B)))
                 else a) n.
Proof. reflexivity. Qed.

Lemma inv_try_hard_alloc t a n :
  cursor_inv t a -> 1 <= n < 2 ^ 31 -> cursor_inv t (snd (Alloc_try_hard_alloc t a n)).
Proof.
  intros Hinv Hn. rewrite try_hard_alloc_tail. apply inv_alloc; [|exact Hn].
  destruct (0 <=? _); [apply inv_drain|]; exact Hinv.
Qed.

Lemma reachable_inv t a : reachable t a -> cursor_inv t a.
Proof.
  induction 1 as [this parent ta|a o Hreach IH Hok].
  - apply inv_new.
  - destruct o as [n|n|p|p|p o n]; simpl in Hok |- *.
    + apply inv_alloc; assumption.
    + apply inv_try_hard_alloc; assumption.
    + destruct Hok. apply inv_free; assumption.
    + apply inv_xfree; assumption.
    + destruct Hok as (Hl & Ho & Hn). apply inv_realloc; assumption.
Qed.

Lemma reachable_sa_abc : reachable Small sa_abc.
Proof.
  unfold sa_abc, sa_fresh.
  repeat (apply reach_step; [|simpl; lia]). apply reach_new.
Qed.

Lemma reachable_sa_a_only : reachable Small sa_a_only.
Proof.
  unfold sa_a_only.
  apply reach_step; [apply reach_step; [exact reachable_sa_abc|]|];
    (split; [split; [vm_compute; split; congruence|]|]; vm_compute; reflexivity).
Qed.

(** C2, as stated, fails: after A, B, C are allocated and B then C freed,
    the highest set bit of [bs] is bit 0 (object A) while the cursor
    stands at 2, the slot of C, not at 1. *)
Lemma cursor_one_past_top_fails :
  ~ (forall t a, reachable t a ->
       forall h, 0 <= h -> bit (a_bs a) h = true ->
                 (forall j, h < j -> bit (a_bs a) j = false) ->
                 a_cur_bit a = h + 1).
Proof.
  intros Hclaim.
  pose proof (reachable_inv _ _ reachable_sa_a_only) as [Hbs _ Hcur Hbelow _ _].
  assert (Hr : Bitset_rfind (a_bs sa_a_only) (a_cur_bit sa_a_only) = 0)
    by (vm_compute; reflexivity).
  pose proof (top_whole _ _ _ (proj1 Hcur) Hbelow
                (rfind_top _ (a_cur_bit sa_a_only) (proj1 Hbs)
                   ltac:(vm_compute; split; congruence))) as Htop.
  rewrite Hr in Htop. destruct Htop as [[Hm _]|(_ & Hset & Hall)]; [discriminate Hm|].
  specialize (Hclaim Small sa_a_only reachable_sa_a_only 0 ltac:(lia) Hset Hall).
  clear - Hclaim. vm_compute in Hclaim. discriminate Hclaim.
Qed.

(** C2 (amended): after every completed alloc, try_hard_alloc, free, xfree
    and realoc made under the callers' contract, every set bit of [bs]
    lies strictly below [cur_bit], and [cur_bit] is 0 when [bs] has no
    set bit. *)
Theorem cursor_above_set_bits (t : tier) (a : Alloc) :
  reachable t a ->
  (forall j, 0 <= j -> bit (a_bs a) j = true -> j < a_cur_bit a)
  /\ ((forall j, 0 <= j -> bit (a_bs a) j = false) -> a_cur_bit a = 0).
Proof.
  intros Hreach. destruct (reachable_inv t a Hreach) as [_ _ _ Hbelow Hempty _].
  split; assumption.
Qed.

Lemma cursor_above_set_bits_witness :
  reachable Small sa_a_only
  /\ (forall j, 0 <= j -> bit (a_bs sa_a_only) j = true -> j < a_cur_bit sa_a_only).
Proof.
  split; [exact reachable_sa_a_only|].
  apply (cursor_above_set_bits Small sa_a_only). exact reachable_sa_a_only.
Defined.

(** *** [try_hard_alloc] against its specification *)

Lemma spec_drain_eq a i :
  spec_drain a i =
  let x := cell (a_xbs a) i in
  if decide (x = 0) then match i with O => a | S j => spec_drain a j end
  else
    let a' := set_bs (set_xbs a (clear_bits (a_xbs a) i x))
                     (clear_bits (a_bs a) i x) in
    let lsb := 64 * Z.of_nat i + lowest_set x in
    let r := Bitset_rfind (a_bs a') (a_cur_bit a') in
    if decide (lsb <= r) then a'
    else if decide (0 <= r) then
      match i with
      | O => set_cur_bit a' lsb
      | S j => spec_drain (set_cur_bit a' lsb) j
      end
    else set_cur_bit a' 0.
Proof. destruct i; reflexivity. Qed.

Lemma clear_bits_not64 s i x :
  words s -> clear_bits s i x = <[i := Z.land (cell s i) (not64 x)]> s.
Proof.
  intros Hw. unfold clear_bits. rewrite land_not64 by (apply cell_range, Hw).
  reflexivity.
Qed.

Lemma drain_spec_body t a i :
  (forall a', cursor_inv t a' ->
     match i with O => a' | S j => drain a' j end
     = match i with O => a' | S j => spec_drain a' j end) ->
  cursor_inv t a -> drain a i = spec_drain a i.
Proof.
  intros Hnext Hinv. rewrite drain_eq, spec_drain_eq. cbv zeta.
  pose proof (MAX_bIT_lt t) as HM. pose proof (BS_BITS_le t) as HB.
  pose proof (inv_cur t a Hinv) as Hcur.
  destruct (Z.eqb_spec (cell (a_xbs a) i) 0) as [Hz|Hnz];
    destruct (decide (cell (a_xbs a) i = 0)) as [Hz'|Hnz']; try contradiction;
    [apply Hnext, Hinv|].
  destruct (drain_cell t a i Hinv Hnz) as (Hlsb & Hrange & Hx & Hib & Hstop & Hrew & Hzero).
  cbv zeta in *. simpl a_bs in *. simpl a_cur_bit in *. simpl a_xbs in *.
  rewrite Hlsb.
  rewrite (clear_bits_not64 (a_xbs a)) by apply (inv_xbs t a Hinv).
  rewrite (clear_bits_not64 (a_bs a)) by apply (inv_bs t a Hinv).
  rewrite (lowest_set_find_lsb _ Hx).
  match goal with |- context [?l <=? ?r] =>
    destruct (Z.leb_spec l r) as [Hle|Hgt]; destruct (decide (l <= r)); try lia;
    [reflexivity|] end.
  match goal with |- context [0 <=? ?r] =>
    destruct (Z.leb_spec 0 r) as [Hr0|Hr0]; destruct (decide (0 <= r)); try lia end.
  - rewrite u32_small by lia. destruct (Hrew Hgt Hr0) as [Hinv3 Hne].
    match goal with |- context [?l =? 0] =>
      destruct (Z.eqb_spec l 0) as [He|_]; [exfalso; apply Hne, He|] end.
    apply (Hnext _ Hinv3).
  - rewrite Z.eqb_refl. reflexivity.
Qed.

Lemma drain_spec t i : forall a, cursor_inv t a -> drain a i = spec_drain a i.
Proof.
  induction i as [|k IH]; intros a Hinv; apply (drain_spec_body t); auto.
Qed.

Lemma alloc_spec t a n :
  0 <= a_cur_bit a <= MAX_bIT t -> 0 <= n < 2 ^ 31 ->
  Alloc_alloc t a n = spec_alloc t a n.
Proof.
  intros Hc Hn. unfold spec_alloc.
  destruct (Alloc_alloc t a n) as [[p|] a'] eqn:E.
  - destruct (alloc_success t a n p a' Hc Hn E) as (Hle & -> & ->).
    destruct (decide _); [reflexivity|lia].
  - unfold Alloc_alloc in E. pose proof (MAX_bIT_lt t). pose proof (BS_BITS_le t).
    rewrite (u32_small (a_cur_bit a + n)) in E by lia.
    destruct (Z.leb_spec (a_cur_bit a + n) (MAX_bIT t)); [discriminate|].
    injection E as <-. destruct (decide _); [lia|reflexivity].
Qed.

(** C3: [try_hard_alloc(n)] scans the cells of [xbs] from [cur_bit/W]
    down to 0, moves each non-zero snapshot out of [xbs] and [bs], stops
    when [r >= lsb], rewinds the cursor to [lsb] (or to 0 when [r < 0],
    and stops), and then performs a normal [alloc(n)]: on every state
    that satisfies the cursor invariant the code computes what the
    specification's wording computes. *)
Theorem try_hard_alloc_refines_spec (t : tier) (a : Alloc) (n : Z) :
  cursor_inv t a -> 0 <= n < 2 ^ 31 ->
  Alloc_try_hard_alloc t a n = spec_try_hard_alloc t a n
  /\ Alloc_try_hard_alloc t a n
     = Alloc_alloc t (spec_drain a (Z.to_nat (a_cur_bit a / 64))) n.
Proof.
  intros Hinv Hn. rewrite try_hard_alloc_tail. unfold spec_try_hard_alloc.
  pose proof (MAX_bIT_lt t) as HM. pose proof (BS_BITS_le t) as HB.
  pose proof (inv_cur t a Hinv) as Hcur.
  rewrite shr_B.
  pose proof (Z.div_pos (a_cur_bit a) 64 ltac:(lia) ltac:(lia)).
  assert (a_cur_bit a / 64 < 32) by (apply Z.div_lt_upper_bound; lia).
  rewrite s32_small by lia.
  rewrite (proj2 (Z.leb_le 0 (a_cur_bit a / 64))) by lia.
  rewrite (drain_spec t _ a Hinv).
  split; [|reflexivity].
  apply alloc_spec; [|exact Hn].
  rewrite <- (drain_spec t _ a Hinv). apply (inv_cur t). apply inv_drain, Hinv.
Qed.

Lemma inv_sa_abc : cursor_inv Small sa_abc.
Proof. apply reachable_inv, reachable_sa_abc. Qed.

Lemma reachable_sa_xfreed : reachable Small sa_xfreed.
Proof.
  unfold sa_xfreed.
  apply reach_step; [apply reach_step; [exact reachable_sa_abc|]|];
    (split; [vm_compute; split; congruence|vm_compute; reflexivity]).
Qed.

Lemma try_hard_alloc_refines_spec_witness :
  cursor_inv Small sa_xfreed
  /\ Alloc_try_hard_alloc Small sa_xfreed 1 = spec_try_hard_alloc Small sa_xfreed 1
  /\ fst (spec_try_hard_alloc Small sa_xfreed 1) = Some (576 + 16).
Proof.
  assert (Hinv : cursor_inv Small sa_xfreed) by apply reachable_inv, reachable_sa_xfreed.
  split; [exact Hinv|]. split.
  - apply (try_hard_alloc_refines_spec Small sa_xfreed 1 Hinv). lia.
  - vm_compute. reflexivity.
Defined.

(** ** HugeBlock and LargeBlock *)

Lemma find_lsb_unique x i :
  0 < x < 2 ^ 64 -> 0 <= i -> Z.testbit x i = true ->
  (forall j, 0 <= j < i -> Z.testbit x j = false) -> _find_lsb x = i.
Proof.
  intros Hx Hi Hset Hlow. destruct (find_lsb_spec x Hx) as (Hr & Hs & Hl).
  destruct (Z.lt_trichotomy (_find_lsb x) i) as [Hlt|[Heq|Hgt]]; [|exact Heq|].
  - rewrite Hlow in Hs by lia. discriminate.
  - rewrite Hl in Hset by lia. discriminate.
Qed.

Lemma not64_range x : 0 <= not64 x < 2 ^ 64.
Proof. unfold not64, u64. apply Z.mod_pos_bound. lia. Qed.

Lemma not64_pos x i : 0 <= i < 64 -> Z.testbit x i = false -> 0 < not64 x.
Proof.
  intros Hi Hb. pose proof (not64_range x) as Hr.
  destruct (Z.eq_dec (not64 x) 0) as [Hz|]; [|lia].
  pose proof (testbit_not64 x i Hi) as Ht. rewrite Hz, Z.bits_0, Hb in Ht. discriminate.
Qed.

(** the slot [alloc] picks in a 64-bit occupancy word *)
Lemma lowest_clear_found bits i :
  0 <= i < 63 -> Z.testbit bits i = false ->
  (forall j, 0 <= j < i -> Z.testbit bits j = true) ->
  _find_lsb (not64 bits) = i.
Proof.
  intros Hi Hclear Hlow. apply find_lsb_unique.
  - pose proof (not64_range bits). pose proof (not64_pos bits i ltac:(lia) Hclear). lia.
  - lia.
  - rewrite testbit_not64, Hclear by lia. reflexivity.
  - intros j Hj. rewrite testbit_not64, Hlow by lia. reflexivity.
Qed.

Lemma lowest_clear_none bits :
  (forall i, 0 <= i < 63 -> Z.testbit bits i = true) ->
  R <= _find_lsb (not64 bits).
Proof.
  intros Hfull. change R with 63. pose proof (not64_range bits) as Hr.
  destruct (Z.eq_dec (not64 bits) 0) as [Hz|Hnz].
  - rewrite Hz. vm_compute. discriminate.
  - destruct (find_lsb_spec (not64 bits) ltac:(lia)) as (Hl & Hs & _).
    destruct (Z_lt_le_dec (_find_lsb (not64 bits)) 63) as [Hlt|]; [|lia].
    rewrite testbit_not64, Hfull in Hs by lia. discriminate.
Qed.

Lemma shl_unit i k : 0 <= i < 63 -> 0 <= k <= 21 -> u64 (Z.shiftl i k) = i * 2 ^ k.
Proof.
  intros Hi Hk. rewrite Z.shiftl_mul_pow2 by lia. apply u64_small.
  assert (2 ^ k <= 2 ^ 21) by (apply Z.pow_le_mono_r; lia).
  assert (0 < 2 ^ k) by (apply Z.pow_pos_nonneg; lia). nia.
Qed.

Lemma shl_C i : 0 <= i < 63 -> u64 (Z.shiftl C i) = Z.shiftl 1 i.
Proof. intros Hi. apply u64_small, shl_one_range. lia. Qed.

(** C7: [HugeBlock::alloc] (child unit 2^21 bytes) and [LargeBlock::alloc]
    (child unit 2^15 bytes) take the lowest clear bit [i] of the
    occupancy word; if [i < R = 63] the bit is set and the child base
    [p + i * unit] returned, otherwise the result is nil and the bitmap
    is unchanged. *)
Theorem block_alloc_lowest_clear (h : HugeBlock) (b : LargeBlock) :
  R = 63
  /\ (forall i, 0 <= i < 63 -> Z.testbit (hb_bits h) i = false ->
        (forall j, 0 <= j < i -> Z.testbit (hb_bits h) j = true) ->
        HugeBlock_alloc h
        = (Some (hb_p h + i * 2 ^ 21), mkHB (hb_p h) (Z.lor (hb_bits h) (Z.shiftl 1 i)))
        /\ forall k, 0 <= k ->
             Z.testbit (hb_bits (snd (HugeBlock_alloc h))) k
             = (k =? i) || Z.testbit (hb_bits h) k)
  /\ ((forall i, 0 <= i < 63 -> Z.testbit (hb_bits h) i = true) ->
        HugeBlock_alloc h = (None, h))
  /\ (forall i, 0 <= i < 63 -> Z.testbit (lb_bits b) i = false ->
        (forall j, 0 <= j < i -> Z.testbit (lb_bits b) j = true) ->
        LargeBlock_alloc b
        = (Some (lb_p b + i * 2 ^ 15),
           mkLB (lb_parent b) (lb_p b) (Z.lor (lb_bits b) (Z.shiftl 1 i)))
        /\ forall k, 0 <= k ->
             Z.testbit (lb_bits (snd (LargeBlock_alloc b))) k
             = (k =? i) || Z.testbit (lb_bits b) k)
  /\ ((forall i, 0 <= i < 63 -> Z.testbit (lb_bits b) i = true) ->
        LargeBlock_alloc b = (None, b)).
Proof.
  split; [reflexivity|]. split; [|split; [|split]].
  - intros i Hi Hclear Hlow. unfold HugeBlock_alloc.
    rewrite (lowest_clear_found _ i Hi Hclear Hlow).
    replace (i <? R) with true by (symmetry; apply Z.ltb_lt; change R with 63; lia).
    rewrite shl_C by exact Hi. change g_lb_bits with 21.
    rewrite shl_unit by lia. split; [reflexivity|].
    intros k Hk. simpl. rewrite Z.lor_spec, testbit_one_shl by lia. apply orb_comm.
  - intros Hfull. unfold HugeBlock_alloc.
    pose proof (lowest_clear_none _ Hfull) as Hge.
    replace (_ <? R) with false by (symmetry; apply Z.ltb_ge; exact Hge).
    reflexivity.
  - intros i Hi Hclear Hlow. unfold LargeBlock_alloc.
    rewrite (lowest_clear_found _ i Hi Hclear Hlow).
    replace (i <? R) with true by (symmetry; apply Z.ltb_lt; change R with 63; lia).
    rewrite shl_C by exact Hi. change g_sb_bits with 15.
    rewrite shl_unit by lia. split; [reflexivity|].
    intros k Hk. simpl. rewrite Z.lor_spec, testbit_one_shl by lia. apply orb_comm.
  - intros Hfull. unfold LargeBlock_alloc.
    pose proof (lowest_clear_none _ Hfull) as Hge.
    replace (_ <? R) with false by (symmetry; apply Z.ltb_ge; exact Hge).
    reflexivity.
Qed.

Lemma block_alloc_lowest_clear_witness :
  HugeBlock_alloc (mkHB 4096 5) = (Some (4096 + 1 * 2 ^ 21), mkHB 4096 (Z.lor 5 (Z.shiftl 1 1)))
  /\ LargeBlock_alloc (mkLB 1 4096 (2 ^ 63 - 1)) = (None, mkLB 1 4096 (2 ^ 63 - 1)).
Proof.
  destruct (block_alloc_lowest_clear (mkHB 4096 5) (mkLB 1 4096 (2 ^ 63 - 1)))
    as (_ & Hh & _ & _ & Hb).
  split.
  - apply (Hh 1); [lia|reflexivity|].
    intros j Hj. replace j with 0 by lia. reflexivity.
  - apply Hb. intros i Hi. simpl lb_bits.
    change (2 ^ 63 - 1) with (Z.ones 63). apply Z.ones_spec_low. lia.
Defined.

(** ** The monad *)

Lemma bind_some {A B} (m : M A) (f : A -> M B) s x s' :
  m s = Some (x, s') -> (m ≫= f) s = f x s'.
Proof. intros H. unfold mbind, M_bind. rewrite H. reflexivity. Qed.

Lemma bind_none {A B} (m : M A) (f : A -> M B) s :
  m s = None -> (m ≫= f) s = None.
Proof. intros H. unfold mbind, M_bind. rewrite H. reflexivity. Qed.

(** ** Intrusive lists *)

Lemma link_at_insert m a b d :
  link_at (<[a := d]> m) b = if decide (a = b) then d else link_at m b.
Proof.
  unfold link_at. rewrite lookup_insert. destruct (decide (a = b)); reflexivity.
Qed.

Lemma seg_frame m m' p xs e :
  (forall a, a ∈ xs -> link_at m' a = link_at m a) ->
  seg m p xs e -> seg m' p xs e.
Proof.
  revert p. induction xs as [|a rest IH]; intros p Hsame Hseg; [exact I|].
  destruct Hseg as (Ha & Hl & Hrest). simpl. split; [exact Ha|]. split.
  - rewrite Hsame by (left). exact Hl.
  - apply IH; [|exact Hrest]. intros b Hb. apply Hsame. right. exact Hb.
Qed.

Lemma last_cons_default {A} (p a : A) rest :
  default p (last (a :: rest)) = default a (last rest).
Proof.
  rewrite last_cons. destruct (last rest); reflexivity.
Qed.

Lemma hd_app_cons {A} (e a : A) xs ys : hd e ((a :: xs) ++ ys) = a.
Proof. reflexivity. Qed.

Lemma seg_app m p xs ys e :
  seg m p (xs ++ ys) e <-> seg m p xs (hd e ys) /\ seg m (default p (last xs)) ys e.
Proof.
  revert p. induction xs as [|a rest IH]; intros p.
  - simpl. tauto.
  - rewrite last_cons_default. change ((a :: rest) ++ ys) with (a :: (rest ++ ys)).
    cbn [seg]. rewrite IH.
    assert (Hhd : hd e (rest ++ ys) = hd (hd e ys) rest) by (destruct rest; reflexivity).
    rewrite Hhd. tauto.
Qed.

Lemma seg_nonzero m p xs e a : seg m p xs e -> a ∈ xs -> a <> 0.
Proof.
  revert p. induction xs as [|b rest IH]; intros p Hseg Hin.
  - inversion Hin.
  - destruct Hseg as (Hb & _ & Hrest). apply elem_of_cons in Hin.
    destruct Hin as [->|Hin]; [exact Hb|exact (IH _ Hrest Hin)].
Qed.

(** changing the [next] of the last node of a segment *)
Lemma seg_set_end m p xs e e' a :
  xs <> [] -> NoDup xs -> last xs = Some a -> seg m p xs e ->
  seg (<[a := mkLink e' (prev (link_at m a))]> m) p xs e'.
Proof.
  revert p. induction xs as [|b rest IH]; intros p Hne Hnd Hlast Hseg; [done|].
  destruct Hseg as (Hb & Hl & Hrest). apply NoDup_cons in Hnd. destruct Hnd as [Hnin Hnd].
  destruct rest as [|c rest'].
  - simpl in Hlast. injection Hlast as <-. simpl. split; [exact Hb|]. split; [|exact I].
    rewrite link_at_insert. rewrite decide_True by reflexivity. rewrite Hl. reflexivity.
  - rewrite last_cons_cons in Hlast.
    assert (Hab : a <> b).
    { intros ->. apply Hnin. apply last_Some_elem_of. exact Hlast. }
    split; [exact Hb|]. split.
    + rewrite link_at_insert, decide_False by exact Hab. exact Hl.
    + apply IH; [discriminate|exact Hnd|exact Hlast|exact Hrest].
Qed.

(** changing the [prev] of the first node of a segment *)
Lemma seg_set_start m p p' b rest e :
  NoDup (b :: rest) -> seg m p (b :: rest) e ->
  seg (<[b := mkLink (next (link_at m b)) p']> m) p' (b :: rest) e.
Proof.
  intros Hnd (Hb & Hl & Hrest). apply NoDup_cons in Hnd. destruct Hnd as [Hnin Hnd].
  split; [exact Hb|]. split.
  - rewrite link_at_insert, decide_True by reflexivity. rewrite Hl. reflexivity.
  - apply (seg_frame m); [|exact Hrest]. intros a Ha.
    rewrite link_at_insert, decide_False; [reflexivity|]. intros ->. contradiction.
Qed.

Lemma last_app_cons_default {A} (d a : A) xs ys :
  default d (last (xs ++ a :: ys)) = default a (last ys).
Proof.
  rewrite last_app. rewrite last_cons. destruct (last ys); reflexivity.
Qed.

(** what the list invariant says around an interior node *)
Lemma is_list_split m l pre node post :
  pre <> [] -> is_list m l (pre ++ node :: post) ->
  exists h pre0 A,
    pre = h :: pre0 /\ l = h /\ last pre = Some A
    /\ NoDup pre /\ NoDup (node :: post)
    /\ (forall a, a ∈ pre -> a ∉ node :: post)
    /\ seg m (default node (last post)) pre node
    /\ node <> 0 /\ link_at m node = mkLink (hd 0 post) A
    /\ seg m node post 0.
Proof.
  intros Hne (Hl & Hnd & Hseg).
  destruct pre as [|h pre0]; [done|]. exists h, pre0.
  destruct (last (h :: pre0)) as [A|] eqn:HA; [|apply last_None in HA; done].
  exists A. apply NoDup_app in Hnd. destruct Hnd as (Hnd1 & Hdisj & Hnd2).
  rewrite last_app_cons_default in Hseg.
  apply seg_app in Hseg. destruct Hseg as [Hpre Hrest].
  rewrite HA in Hrest. simpl default in Hrest. destruct Hrest as (Hn0 & Hlink & Hpost).
  simpl hd in Hpre. simpl in Hl.
  split; [reflexivity|]. split; [exact Hl|]. split; [reflexivity|].
  split; [exact Hnd1|]. split; [exact Hnd2|]. split; [exact Hdisj|].
  split; [exact Hpre|]. split; [exact Hn0|]. split; [exact Hlink|exact Hpost].
Qed.

Lemma erase_links_list m l pre node post :
  pre <> [] -> is_list m l (pre ++ node :: post) ->
  is_list (erase_links l node m) l (pre ++ post).
Proof.
  intros Hne Hlist.
  destruct (is_list_split m l pre node post Hne Hlist)
    as (h & pre0 & A & -> & -> & HA & Hnd1 & Hnd2 & Hdisj & Hpre & Hn0 & Hlink & Hpost).
  assert (HAin : A ∈ h :: pre0) by (apply last_Some_elem_of; exact HA).
  assert (HAn : A <> node).
  { intros ->. apply (Hdisj node HAin). left. }
  assert (HnodeNotPre : node ∉ h :: pre0).
  { intros Hin. apply (Hdisj node Hin). left. }
  unfold erase_links. rewrite Hlink. cbn [next prev].
  set (m1 := <[A := mkLink (hd 0 post) (prev (link_at m A))]> m).
  assert (Hm1node : link_at m1 node = mkLink (hd 0 post) A).
  { subst m1. rewrite link_at_insert, decide_False by exact HAn. exact Hlink. }
  rewrite Hm1node. cbn [next prev].
  assert (Hpre1 : seg m1 (default node (last post)) (h :: pre0) (hd 0 post)).
  { subst m1. apply (seg_set_end m _ _ node); [discriminate|exact Hnd1|exact HA|exact Hpre]. }
  apply NoDup_cons in Hnd2. destruct Hnd2 as [Hnodepost Hndpost].
  split; [reflexivity|]. split.
  { apply NoDup_app. split; [exact Hnd1|]. split; [|exact Hndpost].
    intros a Ha Hin. apply (Hdisj a Ha). right. exact Hin. }
  destruct post as [|b post'].
  - (* the erased node was the tail: the head's prev becomes the new tail *)
    simpl hd in *. rewrite app_nil_r. rewrite HA. cbn [default].
    change (h :: pre0) with ([] ++ h :: pre0) in Hpre1 at 1.
    simpl in Hpre1 |- *.
    destruct Hpre1 as (Hh & Hlh & Hrest1).
    split; [exact Hh|]. split.
    + rewrite link_at_insert, decide_True by reflexivity. rewrite Hlh. reflexivity.
    + apply (seg_frame m1); [|exact Hrest1]. intros a Ha.
      rewrite link_at_insert, decide_False; [reflexivity|].
      intros ->. apply NoDup_cons in Hnd1. destruct Hnd1 as [Hnin _]. contradiction.
  - (* the successor's prev becomes the predecessor *)
    simpl hd in *. destruct Hpost as (Hb0 & Hlb & Hpost').
    replace (b =? 0) with false by (symmetry; apply Z.eqb_neq; exact Hb0).
    rewrite last_app_cons_default. rewrite (last_cons_default node b post') in Hpre1.
    assert (Hbpre : b ∉ h :: pre0).
    { intros Hin. apply (Hdisj b Hin). right. left. }
    apply seg_app. split.
    + simpl hd. apply (seg_frame m1); [|exact Hpre1]. intros a Ha.
      rewrite link_at_insert, decide_False; [reflexivity|]. intros ->. contradiction.
    + rewrite HA. cbn [default].
      apply (seg_set_start _ node A); [exact Hndpost|].
      apply (seg_frame m); [|split; [exact Hb0|split; [exact Hlb|exact Hpost']]].
      intros a Ha. subst m1. rewrite link_at_insert, decide_False; [reflexivity|].
      intros ->. apply (Hdisj a HAin). right. exact Ha.
Qed.

(** ** Running the primitives *)

Lemma vm_decommit_run p n s :
  _vm_decommit p n s = Some (tt, wipe p n (set_trace (fun tr => tr ++ [EvDecommit p n]) s)).
Proof. reflexivity. Qed.

Lemma vm_free_run p n s :
  _vm_free p n s = Some (tt, wipe p n (set_trace (fun tr => tr ++ [EvRelease p n]) s)).
Proof. reflexivity. Qed.

Lemma lock_run k s :
  k ∉ held s ->
  lock k s = Some (tt, set_held (fun l => k :: l) (set_trace (fun tr => tr ++ [EvLock k]) s)).
Proof.
  intros Hk. unfold lock. rewrite (bind_some _ _ s (held s) s) by reflexivity.
  rewrite bool_decide_eq_false_2 by exact Hk. reflexivity.
Qed.

Lemma unlock_run k s :
  unlock k s = Some (tt, set_held (filter (fun j => j <> k))
                           (set_trace (fun tr => tr ++ [EvUnlock k]) s)).
Proof. reflexivity. Qed.

Lemma HugeBlock_free_at_run hb p h s :
  hbs s !! hb = Some h ->
  HugeBlock_free_at hb p s
  = Some (fst (HugeBlock_free h p), set_hbs (<[hb := snd (HugeBlock_free h p)]>) s).
Proof.
  intros Hh. unfold HugeBlock_free_at.
  rewrite (bind_some _ _ s h s) by (unfold deref; rewrite Hh; reflexivity).
  reflexivity.
Qed.

Lemma get_head_shard_run k l s :
  shards s !! k = Some l -> get_head (ShardList k) s = Some (l, s).
Proof. intros H. unfold get_head, deref. rewrite H. reflexivity. Qed.

Lemma get_prev_run a s :
  a <> 0 -> get_prev a s = Some (prev (link_at (links s) a), s).
Proof.
  intros Ha. unfold get_prev. rewrite (proj2 (Z.eqb_neq a 0) Ha). reflexivity.
Qed.

Lemma get_next_run a s :
  a <> 0 -> get_next a s = Some (next (link_at (links s) a), s).
Proof.
  intros Ha. unfold get_next. rewrite (proj2 (Z.eqb_neq a 0) Ha). reflexivity.
Qed.

Lemma put_next_run a v s :
  a <> 0 ->
  put_next a v s
  = Some (tt, set_links (fun m => <[a := mkLink v (prev (link_at m a))]> m) s).
Proof.
  intros Ha. unfold put_next. rewrite (proj2 (Z.eqb_neq a 0) Ha). reflexivity.
Qed.

Lemma put_prev_run a v s :
  a <> 0 ->
  put_prev a v s
  = Some (tt, set_links (fun m => <[a := mkLink (next (link_at m a)) v]> m) s).
Proof.
  intros Ha. unfold put_prev. rewrite (proj2 (Z.eqb_neq a 0) Ha). reflexivity.
Qed.

(** [list_erase] on a shard list, for a node that is in the list and is
    not its head *)
Lemma list_erase_run k l pre node post s :
  shards s !! k = Some l -> pre <> [] ->
  is_list (links s) l (pre ++ node :: post) ->
  list_erase (ShardList k) node s = Some (tt, set_links (erase_links l node) s).
Proof.
  intros Hk Hne Hlist.
  destruct (is_list_split _ l pre node post Hne Hlist)
    as (h & pre0 & A & -> & -> & HA & Hnd1 & Hnd2 & Hdisj & Hpre & Hn0 & Hlink & Hpost).
  assert (HAin : A ∈ h :: pre0) by (apply last_Some_elem_of; exact HA).
  assert (HA0 : A <> 0) by (apply (seg_nonzero _ _ _ _ A Hpre HAin)).
  assert (HAn : A <> node).
  { intros ->. apply (Hdisj node HAin). left. }
  assert (Hh0 : h <> 0) by (apply (seg_nonzero _ _ _ _ h Hpre); left).
  unfold list_erase.
  rewrite (bind_some _ _ s _ s (get_prev_run node s Hn0)).
  rewrite (bind_some _ _ s _ s (get_next_run node s Hn0)).
  rewrite Hlink. cbn [next prev].
  rewrite (bind_some _ _ s _ _ (put_next_run A _ s HA0)).
  set (s1 := set_links _ s).
  rewrite (bind_some _ _ s1 _ s1 (get_next_run node s1 Hn0)).
  assert (Hl1 : link_at (links s1) node = mkLink (hd 0 post) A).
  { subst s1. cbn [links set_links]. rewrite link_at_insert, decide_False by exact HAn.
    exact Hlink. }
  rewrite Hl1. cbn [next prev].
  assert (Hx : exists x, (if hd 0 post =? 0 then h else hd 0 post) = x /\ x <> 0
            /\ (if hd 0 post =? 0 then get_head (ShardList k) else mret (hd 0 post)) s1
               = Some (x, s1)).
  { destruct (Z.eqb_spec (hd 0 post) 0) as [Hz|Hnz].
    - exists h. split; [reflexivity|]. split; [exact Hh0|].
      apply get_head_shard_run. exact Hk.
    - exists (hd 0 post). split; [reflexivity|]. split; [exact Hnz|reflexivity]. }
  destruct Hx as (x & Hxeq & Hx0 & Hxrun).
  rewrite (bind_some _ _ s1 _ s1 Hxrun).
  rewrite (bind_some _ _ s1 _ s1 (get_prev_run node s1 Hn0)).
  rewrite Hl1. cbn [prev].
  rewrite (put_prev_run x A s1 Hx0).
  subst s1. do 2 f_equal. unfold set_links.
  cbn [links hbs lbs las sas tas shards tls g_alloc_id held trace os]. f_equal.
  unfold erase_links. rewrite Hlink. cbn [next prev].
  cbn [links set_links] in Hl1. rewrite Hl1. cbn [next prev].
  rewrite Hxeq. reflexivity.
Qed.

(** ** Wiping a range *)

Lemma lookup_wiped {V} (m : gmap Z V) p n a :
  outside p n a -> filter (fun kv => outside p n kv.1) m !! a = m !! a.
Proof.
  intros Ho. destruct (m !! a) as [v|] eqn:E.
  - apply map_lookup_filter_Some. split; [exact E|exact Ho].
  - apply map_lookup_filter_None. left. exact E.
Qed.

Lemma lookup_wiped_inside {V} (m : gmap Z V) p n a :
  p <= a < p + n -> filter (fun kv => outside p n kv.1) m !! a = None.
Proof.
  intros Hin. apply map_lookup_filter_None. right. intros v _ Ho. apply Ho. exact Hin.
Qed.

Lemma seg_wiped m p n q xs e :
  Forall (outside p n) xs -> seg m q xs e ->
  seg (filter (fun kv => outside p n kv.1) m) q xs e.
Proof.
  intros Hout. apply seg_frame. intros a Ha. unfold link_at.
  rewrite lookup_wiped; [reflexivity|]. rewrite Forall_forall in Hout. apply Hout, Ha.
Qed.

Lemma is_list_wiped m p n l xs :
  Forall (outside p n) xs -> is_list m l xs ->
  is_list (filter (fun kv => outside p n kv.1) m) l xs.
Proof.
  intros Hout (Hl & Hnd & Hseg). split; [exact Hl|]. split; [exact Hnd|].
  apply seg_wiped; assumption.
Qed.

Lemma filter_all (P : Z -> Prop) `{!forall a, Decision (P a)} (l : list Z) :
  (forall a, a ∈ l -> P a) -> filter P l = l.
Proof.
  induction l as [|a rest IH]; intros Hall; [reflexivity|].
  rewrite filter_cons_True by (apply Hall; left).
  f_equal. apply IH. intros b Hb. apply Hall. right. exact Hb.
Qed.

Lemma filter_remove_one (pre post : list Z) x :
  NoDup (pre ++ x :: post) ->
  filter (fun a => a <> x) (pre ++ x :: post) = pre ++ post.
Proof.
  intros Hnd. apply NoDup_app in Hnd. destruct Hnd as (_ & Hdisj & Hnd).
  apply NoDup_cons in Hnd. destruct Hnd as [Hx _].
  rewrite filter_app, filter_cons_False by (intros H; apply H; reflexivity).
  f_equal; apply filter_all; intros a Ha ->.
  - apply (Hdisj x Ha). left.
  - exact (Hx Ha).
Qed.

Lemma filter_held_id (hs : list Z) k :
  k ∉ hs -> filter (fun j => j <> k) (k :: hs) = hs.
Proof.
  intros Hk. rewrite filter_cons_False by (intros H; apply H; reflexivity).
  apply filter_all. intros a Ha ->. exact (Hk Ha).
Qed.

(** ** GlobalAlloc::free *)

Lemma HugeBlock_free_bits h p :
  0 <= (p - hb_p h) / 2 ^ 21 < 63 ->
  HugeBlock_free h p
  = (Z.land (hb_bits h) (not64 (Z.shiftl 1 ((p - hb_p h) / 2 ^ 21))) =? 0,
     mkHB (hb_p h) (Z.land (hb_bits h) (not64 (Z.shiftl 1 ((p - hb_p h) / 2 ^ 21))))).
Proof.
  intros Hi. unfold HugeBlock_free. change g_lb_bits with 21.
  rewrite Z.shiftr_div_pow2 by lia. rewrite u32_small by lia.
  rewrite shl_C by lia. reflexivity.
Qed.

(** C6: [GlobalAlloc::free(p, hb, alloc_id)] decommits the Large unit at
    [p], clears [hb]'s bit for [p] while the shard mutex is held, and
    erases [hb] from the shard list and releases its whole reserved range
    exactly when the bitmap became zero and [hb] is not the head of the
    shard; a head is kept even when empty. *)
Theorem global_free_releases_empty_non_head
  (s : State) (p hb alloc_id : Z) (h : HugeBlock) (l : Z) (xs : list Z) :
  hbs s !! hb = Some h ->
  0 <= (p - hb_p h) / 2 ^ 21 < 63 ->
  shards s !! shard_of alloc_id = Some l ->
  is_list (links s) l xs -> hb ∈ xs ->
  Z.of_nat (shard_of alloc_id) ∉ held s ->
  Forall (outside p (2 ^ 21)) xs ->
  (forall a, a ∈ xs -> a <> hb -> outside hb (2 ^ 27) a) ->
  let k := Z.of_nat (shard_of alloc_id) in
  let i := (p - hb_p h) / 2 ^ 21 in
  let bits' := Z.land (hb_bits h) (not64 (Z.shiftl 1 i)) in
  let r := (bits' =? 0) && negb (hb =? l) in
  exists s1 s2 s',
    GlobalAlloc_free p hb alloc_id s = Some (tt, s')
    /\ (_vm_decommit p (2 ^ 21) ;; lock k) s = Some (tt, s1)
    /\ held s1 = k :: held s /\ hbs s1 !! hb = Some h
    /\ GlobalAlloc_free_locked (shard_of alloc_id) p hb s1 = Some (r, s2)
    /\ held s2 = k :: held s /\ hbs s2 !! hb = Some (mkHB (hb_p h) bits')
    /\ (unlock k ;; when r (_vm_free hb (2 ^ 27))) s2 = Some (tt, s')
    /\ (forall j, 0 <= j < 64 ->
          Z.testbit bits' j = Z.testbit (hb_bits h) j && negb (j =? i))
    /\ trace s' = trace s ++ [EvDecommit p (2 ^ 21); EvLock k; EvUnlock k]
                          ++ (if r then [EvRelease hb (2 ^ 27)] else [])
    /\ held s' = held s /\ shards s' = shards s
    /\ (r = true ->
          is_list (links s') l (filter (fun a => a <> hb) xs) /\ hbs s' !! hb = None)
    /\ (r = false ->
          is_list (links s') l xs /\ hbs s' !! hb = Some (mkHB (hb_p h) bits')).
Proof.
  intros Hh Hi Hk Hlist Hin Hheld Hout Hapart k i bits' r.
  assert (Hhb_out : outside p (2 ^ 21) hb).
  { rewrite Forall_forall in Hout. apply Hout, Hin. }
  set (s0 := wipe p (2 ^ 21) (set_trace (fun tr => tr ++ [EvDecommit p (2 ^ 21)]) s)).
  set (s1 := set_held (fun hs => k :: hs) (set_trace (fun tr => tr ++ [EvLock k]) s0)).
  set (s2 := set_hbs (<[hb := mkHB (hb_p h) bits']>) s1).
  set (s3 := if r then set_links (erase_links l hb) s2 else s2).
  set (s4 := set_held (filter (fun j => j <> k))
               (set_trace (fun tr => tr ++ [EvUnlock k]) s3)).
  set (s5 := if r then wipe hb (2 ^ 27)
                         (set_trace (fun tr => tr ++ [EvRelease hb (2 ^ 27)]) s4)
             else s4).
  assert (Hpre : (_vm_decommit p (2 ^ 21) ;; lock k) s = Some (tt, s1)).
  { rewrite (bind_some _ _ s tt s0) by apply vm_decommit_run.
    apply lock_run. exact Hheld. }
  assert (Hh1 : hbs s1 !! hb = Some h).
  { subst s1 s0. cbn. rewrite lookup_wiped by exact Hhb_out. exact Hh. }
  assert (Hlist1 : is_list (links s1) l xs).
  { subst s1 s0. cbn. apply is_list_wiped; assumption. }
  assert (Hk1 : shards s1 !! shard_of alloc_id = Some l) by exact Hk.
  assert (Hlist3 : if r then is_list (links s3) l (filter (fun a => a <> hb) xs)
                   else is_list (links s3) l xs).
  { subst s3. destruct r eqn:Hr; [|exact Hlist1].
    apply andb_true_iff in Hr. destruct Hr as [_ Hne]. apply negb_true_iff, Z.eqb_neq in Hne.
    apply list_elem_of_split in Hin. destruct Hin as (pre & post & ->).
    destruct Hlist1 as (Hl1 & Hnd & Hseg).
    assert (Hpre_ne : pre <> []).
    { intros ->. simpl in Hl1. congruence. }
    rewrite filter_remove_one by exact Hnd.
    cbn [links set_links]. apply erase_links_list; [exact Hpre_ne|].
    split; [exact Hl1|]. split; assumption. }
  assert (Hcrit : GlobalAlloc_free_locked (shard_of alloc_id) p hb s1 = Some (r, s3)).
  { unfold GlobalAlloc_free_locked.
    rewrite (bind_some _ _ s1 _ _ (HugeBlock_free_at_run hb p h s1 Hh1)).
    rewrite (HugeBlock_free_bits h p Hi). cbn [fst snd]. fold i. fold bits'. fold s2.
    rewrite (bind_some _ _ s2 l s2) by (apply get_head_shard_run; exact Hk).
    cbv zeta. fold r. subst s3. destruct r eqn:Hr; cbn [when].
    - apply andb_true_iff in Hr. destruct Hr as [_ Hne].
      apply negb_true_iff, Z.eqb_neq in Hne.
      pose proof Hin as Hin'. apply list_elem_of_split in Hin'.
      destruct Hin' as (pre & post & ->).
      assert (Hpre_ne : pre <> []).
      { intros ->. destruct Hlist1 as (Hl1 & _). simpl in Hl1. congruence. }
      rewrite (bind_some _ _ s2 tt (set_links (erase_links l hb) s2)); [reflexivity|].
      apply (list_erase_run _ l pre hb post); [exact Hk|exact Hpre_ne|exact Hlist1].
    - reflexivity. }
  assert (Hpost : (unlock k ;; when r (_vm_free hb (2 ^ 27))) s3 = Some (tt, s5)).
  { rewrite (bind_some _ _ s3 tt s4) by apply unlock_run.
    subst s5. destruct r; reflexivity. }
  assert (Hrun : GlobalAlloc_free p hb alloc_id s = Some (tt, s5)).
  { unfold GlobalAlloc_free. change (u32 (Z.shiftl 1 g_lb_bits)) with (2 ^ 21).
    change (u32 (Z.shiftl 1 g_hb_bits)) with (2 ^ 27).
    rewrite (bind_some _ _ s tt s0) by apply vm_decommit_run.
    cbv zeta. fold k.
    rewrite (bind_some _ _ s0 tt s1) by (apply lock_run; exact Hheld).
    rewrite (bind_some _ _ s1 r s3 Hcrit).
    exact Hpost. }
  assert (Hbits : forall j, 0 <= j < 64 ->
            Z.testbit bits' j = Z.testbit (hb_bits h) j && negb (j =? i)).
  { intros j Hj. subst bits'. rewrite Z.land_spec, testbit_not64 by lia.
    rewrite testbit_one_shl by (subst i; lia). reflexivity. }
  exists s1, s3, s5.
  split; [exact Hrun|]. split; [exact Hpre|]. split; [reflexivity|].
  split; [exact Hh1|]. split; [exact Hcrit|].
  clear Hrun Hpre Hcrit Hpost. clearbody r bits'.
  subst s5 s4 s3 s2. destruct r.
  - split; [reflexivity|]. split; [cbn; apply lookup_insert_eq|].
    split; [reflexivity|]. split; [exact Hbits|].
    split; [subst s1 s0; cbn; rewrite <- !app_assoc; reflexivity|].
    split; [subst s1 s0; cbn; apply filter_held_id; exact Hheld|].
    split; [reflexivity|]. split; [|intros; discriminate].
    intros _. split.
    + cbn. apply is_list_wiped; [|exact Hlist3].
      apply Forall_forall. intros a Ha. apply list_elem_of_filter in Ha.
      destruct Ha as [Hne Ha]. apply Hapart; assumption.
    + cbn. apply lookup_wiped_inside. lia.
  - split; [reflexivity|]. split; [cbn; apply lookup_insert_eq|].
    split; [reflexivity|]. split; [exact Hbits|].
    split; [subst s1 s0; cbn; rewrite <- !app_assoc; reflexivity|].
    split; [subst s1 s0; cbn; apply filter_held_id; exact Hheld|].
    split; [reflexivity|]. split; [intros; discriminate|].
    intros _. split; [exact Hlist3|]. cbn. apply lookup_insert_eq.
Qed.

Lemma global_free_releases_empty_non_head_witness :
  exists s',
    GlobalAlloc_free (2 ^ 30 + 2 ^ 27 + 2 ^ 21) (2 ^ 30 + 2 ^ 27) 0 two_blocks
    = Some (tt, s')
    /\ trace s' = [EvDecommit (2 ^ 30 + 2 ^ 27 + 2 ^ 21) (2 ^ 21); EvLock 0; EvUnlock 0;
                   EvRelease (2 ^ 30 + 2 ^ 27) (2 ^ 27)]
    /\ is_list (links s') (2 ^ 30) [2 ^ 30]
    /\ hbs s' !! (2 ^ 30 + 2 ^ 27) = None.
Proof.
  destruct (global_free_releases_empty_non_head two_blocks
              (2 ^ 30 + 2 ^ 27 + 2 ^ 21) (2 ^ 30 + 2 ^ 27) 0
              (mkHB (2 ^ 30 + 2 ^ 27 + 2 ^ 21) 1) (2 ^ 30) [2 ^ 30; 2 ^ 30 + 2 ^ 27])
    as (s1 & s2 & s' & Hrun & _ & _ & _ & _ & _ & _ & _ & _ & Htr & _ & _ & Hrel & _).
  - vm_compute. reflexivity.
  - vm_compute. split; [discriminate|reflexivity].
  - vm_compute. reflexivity.
  - split; [reflexivity|]. split.
    + apply NoDup_cons. split; [|apply NoDup_singleton].
      intros H. apply list_elem_of_singleton in H. vm_compute in H. discriminate.
    + simpl. repeat split; try (vm_compute; congruence).
  - right. left.
  - apply not_elem_of_nil.
  - repeat constructor; unfold outside; lia.
  - intros a Ha Hne. unfold outside.
    apply elem_of_cons in Ha. destruct Ha as [->|Ha]; [lia|].
    apply list_elem_of_singleton in Ha. contradiction.
  - exists s'. split; [exact Hrun|]. split; [exact Htr|].
    destruct (Hrel eq_refl) as [Hl Hnone]. split; [exact Hl|exact Hnone].
Defined.

(** ** ThreadAlloc *)

Lemma xfree_slot t a p :
  0 <= slot_of t a p < BS_BITS t ->
  Alloc_xfree t a p = set_xbs a (Bitset_atomic_set (a_xbs a) (slot_of t a p)).
Proof.
  intros Hi. pose proof (BS_BITS_le t). unfold Alloc_xfree.
  rewrite shr_slot, u32_small by lia. reflexivity.
Qed.

(** C8: [free(p, n)] with non-nil [p] and [n <= 128 KiB], run on a
    ThreadAlloc that is not the owner named in the header found by
    aligning [p] down: the only change of the state is that bit
    [(p - base)/slot_size] is set in that sub-allocator's [xbs]; [bs],
    [cur_bit], the threads' lists, the shards and the blocks are
    unchanged, and no mutex is taken. *)
Theorem foreign_free_only_sets_xbs
  (s : State) (tid this p n : Z) (a : Alloc) :
  p <> 0 -> 0 <= n <= 2 ^ 17 ->
  sub_allocs (tier_of n) s !! align_down (Z.shiftl 1 (unit_bits (tier_of n))) p = Some a ->
  a_ta a <> this ->
  0 <= slot_of (tier_of n) a p < BS_BITS (tier_of n) ->
  bitmap (tier_of n) (a_xbs a) ->
  let t := tier_of n in
  let hdr := align_down (Z.shiftl 1 (unit_bits t)) p in
  let i := slot_of t a p in
  let a' := set_xbs a (Bitset_atomic_set (a_xbs a) i) in
  let s' := set_sub_allocs t (<[hdr := a']>) s in
  ThreadAlloc_free tid this p n s = Some (tt, s')
  /\ (forall j, 0 <= j -> bit (a_xbs a') j = (j =? i) || bit (a_xbs a) j)
  /\ a_bs a' = a_bs a /\ a_cur_bit a' = a_cur_bit a
  /\ (forall x, x <> hdr -> sub_allocs t s' !! x = sub_allocs t s !! x)
  /\ (forall t', t' <> t -> sub_allocs t' s' = sub_allocs t' s)
  /\ tas s' = tas s /\ links s' = links s
  /\ shards s' = shards s /\ hbs s' = hbs s /\ lbs s' = lbs s
  /\ held s' = held s /\ trace s' = trace s.
Proof.
  intros Hp Hn Hhdr Hta Hi Hbm t hdr i a' s'.
  assert (Hrun : ThreadAlloc_free tid this p n s = Some (tt, s')).
  { unfold ThreadAlloc_free. rewrite (proj2 (Z.eqb_neq p 0) Hp).
    subst s' a' i hdr t. unfold tier_of in *.
    destruct (Z.leb_spec n 2048) as [Hsmall|Hlarge].
    - cbn [sub_allocs unit_bits set_sub_allocs] in *.
      rewrite (bind_some _ _ s a s) by (unfold deref; rewrite Hhdr; reflexivity).
      rewrite (proj2 (Z.eqb_neq _ _) Hta).
      unfold SmallAlloc_xfree.
      rewrite (bind_some _ _ s a s) by (unfold deref; rewrite Hhdr; reflexivity).
      rewrite xfree_slot by exact Hi. reflexivity.
    - change g_max_alloc_size with (2 ^ 17).
      rewrite (proj2 (Z.leb_le n (2 ^ 17))) by lia.
      cbn [sub_allocs unit_bits set_sub_allocs] in *.
      rewrite (bind_some _ _ s a s) by (unfold deref; rewrite Hhdr; reflexivity).
      rewrite (proj2 (Z.eqb_neq _ _) Hta).
      unfold LargeAlloc_xfree.
      rewrite (bind_some _ _ s a s) by (unfold deref; rewrite Hhdr; reflexivity).
      rewrite xfree_slot by exact Hi. reflexivity. }
  split; [exact Hrun|]. split.
  { intros j Hj. subst a'. cbn [a_xbs set_xbs].
    change (Bitset_atomic_set (a_xbs a) i) with (Bitset_set (a_xbs a) i).
    apply bit_set; [apply Hi|exact Hj|].
    apply (cell_of_lt t); [exact Hbm|exact Hi]. }
  split; [reflexivity|]. split; [reflexivity|]. split.
  { intros x Hx. subst s'. destruct t; cbn; apply lookup_insert_ne; congruence. }
  split.
  { intros t' Ht'. subst s'. destruct t, t'; try contradiction; reflexivity. }
  subst s'. destruct t; repeat split; reflexivity.
Qed.

(** C10: at the public interface, [alloc(n)] for [n <= 16], zero
    included, asks the small tier for exactly one 16-byte unit: it does
    on every state what [alloc(16)] does - same result, same state - and
    when the current SmallAlloc has room it takes the slot under the
    cursor and meets its 16-byte alignment. *)
Theorem alloc_up_to_16_takes_one_unit (s : State) (tid n : Z) :
  0 <= n <= 16 ->
  small_units n = 1
  /\ co_alloc tid n s = co_alloc tid 16 s
  /\ (forall this, ThreadAlloc_alloc tid this n s = ThreadAlloc_alloc tid this 16 s)
  /\ (forall this ta a,
        tas s !! this = Some ta -> ta_sa ta <> 0 ->
        sas s !! ta_sa ta = Some a ->
        0 <= a_cur_bit a < MAX_bIT Small ->
        ThreadAlloc_alloc tid this n s
        = Some (Some (a_p a + 16 * a_cur_bit a),
                set_sas (<[ta_sa ta :=
                   set_cur_bit (set_bs a (Bitset_set (a_bs a) (a_cur_bit a)))
                               (a_cur_bit a + 1)]>) s)
        /\ (a_p a mod 16 = 0 -> (a_p a + 16 * a_cur_bit a) mod 16 = 0)).
Proof.
  intros Hn.
  assert (Hu : small_units n = 1).
  { unfold small_units. rewrite (proj2 (Z.ltb_ge 16 n)) by lia. reflexivity. }
  assert (Heq : forall this, ThreadAlloc_alloc tid this n s = ThreadAlloc_alloc tid this 16 s).
  { intros this. unfold ThreadAlloc_alloc.
    rewrite (proj2 (Z.leb_le n 2048)) by lia. rewrite Hu. reflexivity. }
  split; [exact Hu|]. split; [|split; [exact Heq|]].
  - unfold co_alloc, mbind, M_bind.
    destruct (thread_alloc tid s) as [[this s1]|]; [|reflexivity].
    unfold ThreadAlloc_alloc. rewrite (proj2 (Z.leb_le n 2048)) by lia.
    rewrite Hu. reflexivity.
  - intros this ta a Hta Hsa Ha Hcur. split.
    + unfold ThreadAlloc_alloc. rewrite (proj2 (Z.leb_le n 2048)) by lia.
      rewrite Hu. cbv zeta.
      rewrite (bind_some _ _ s (ta_sa ta) s).
      2:{ unfold get_head. rewrite (bind_some _ _ s ta s); [reflexivity|].
          unfold get_ta, deref. rewrite Hta. reflexivity. }
      rewrite (proj2 (Z.eqb_neq _ _) Hsa).
      destruct (Alloc_alloc Small a 1) as [r a1] eqn:Ealloc.
      assert (Hspec := alloc_spec Small a 1 ltac:(lia) ltac:(lia)).
      rewrite Ealloc in Hspec. unfold spec_alloc in Hspec.
      rewrite decide_True in Hspec by lia.
      change (slot_size Small) with 16 in Hspec. injection Hspec as -> ->.
      rewrite (bind_some _ _ s (Some (a_p a + a_cur_bit a * 16))
                 (set_sas (<[ta_sa ta := set_cur_bit (set_bs a (Bitset_set (a_bs a) (a_cur_bit a))) (a_cur_bit a + 1)]>) s)).
      * replace (a_cur_bit a * 16) with (16 * a_cur_bit a) by lia. reflexivity.
      * unfold SmallAlloc_alloc.
        rewrite (bind_some _ _ s a s) by (unfold deref; rewrite Ha; reflexivity).
        rewrite Ealloc. reflexivity.
    + intros Hal. rewrite Z.add_mod, Hal by lia.
      rewrite (Z.mul_comm 16), Z.mod_mul by lia. reflexivity.
Qed.

Lemma foreign_free_only_sets_xbs_witness :
  exists a s',
    sub_allocs (tier_of 48) one_object
      !! align_down (Z.shiftl 1 (unit_bits (tier_of 48))) 1075872320 = Some a
    /\ a_ta a <> 2000
    /\ ThreadAlloc_free 8 2000 1075872320 48 one_object = Some (tt, s')
    /\ tas s' = tas one_object /\ trace s' = trace one_object.
Proof.
  destruct (sub_allocs (tier_of 48) one_object
              !! align_down (Z.shiftl 1 (unit_bits (tier_of 48))) 1075872320)
    as [a|] eqn:Ha; [|vm_compute in Ha; discriminate Ha].
  pose proof Ha as Hc. vm_compute in Hc. injection Hc as Hc.
  assert (Hta : a_ta a <> 2000) by (rewrite <- Hc; discriminate).
  assert (Hslot : 0 <= slot_of (tier_of 48) a 1075872320 < BS_BITS (tier_of 48))
    by (rewrite <- Hc; vm_compute; split; [discriminate|reflexivity]).
  assert (Hbm : bitmap (tier_of 48) (a_xbs a))
    by (rewrite <- Hc; apply bitmap_check; vm_compute; reflexivity).
  destruct (foreign_free_only_sets_xbs one_object 8 2000 1075872320 48 a
              ltac:(discriminate) ltac:(lia) Ha Hta Hslot Hbm)
    as (Hrun & _ & _ & _ & _ & _ & Htas & _ & _ & _ & _ & _ & Htr).
  eexists a, _. split; [reflexivity|]. split; [exact Hta|].
  split; [exact Hrun|]. split; [exact Htas|exact Htr].
Defined.

Lemma alloc_up_to_16_takes_one_unit_witness :
  co_alloc 7 0 one_object = co_alloc 7 16 one_object
  /\ fst <$> co_alloc 7 0 one_object = Some (Some 1075872368).
Proof.
  destruct (alloc_up_to_16_takes_one_unit one_object 7 0 ltac:(lia)) as (_ & Heq & _).
  split; [exact Heq|].
  vm_compute. reflexivity.
Defined.

(** * Further properties of the code *)

(** ** Bitset: set, unset, test_and_unset *)

Lemma cell_set_unset c k :
  0 <= c < 2 ^ 64 -> 0 <= k < 64 -> Z.testbit c k = false ->
  Z.land (Z.lor c (Z.shiftl 1 k)) (not64 (Z.shiftl 1 k)) = c.
Proof.
  intros Hc Hk Hb. apply Z.bits_inj'. intros j Hj.
  rewrite Z.land_spec, Z.lor_spec.
  destruct (Z_lt_le_dec j 64) as [Hlt|Hge].
  - rewrite testbit_not64, testbit_one_shl by lia.
    destruct (Z.eqb_spec j k) as [->|_]; [rewrite Hb; reflexivity|].
    simpl. rewrite orb_false_r, andb_true_r. reflexivity.
  - rewrite (proj1 (Z.bounded_iff_bits_nonneg' 64 c ltac:(lia) ltac:(lia))) by lia.
    rewrite testbit_one_shl by lia.
    replace (j =? k) with false by (symmetry; apply Z.eqb_neq; lia). reflexivity.
Qed.

Lemma cell_unset_set c k :
  0 <= c < 2 ^ 64 -> 0 <= k < 64 -> Z.testbit c k = true ->
  Z.lor (Z.land c (not64 (Z.shiftl 1 k))) (Z.shiftl 1 k) = c.
Proof.
  intros Hc Hk Hb. apply Z.bits_inj'. intros j Hj.
  rewrite Z.lor_spec, Z.land_spec, testbit_one_shl by lia.
  destruct (Z.eqb_spec j k) as [->|Hne]; [rewrite Hb; apply orb_true_r|].
  rewrite orb_false_r.
  destruct (Z_lt_le_dec j 64) as [Hlt|Hge].
  - rewrite testbit_not64, testbit_one_shl by lia.
    rewrite (proj2 (Z.eqb_neq j k) Hne). apply andb_true_r.
  - rewrite (proj1 (Z.bounded_iff_bits_nonneg' 64 c ltac:(lia) ltac:(lia))) by lia.
    reflexivity.
Qed.

Lemma bit_cell s i :
  0 <= i -> bit s i = Z.testbit (cell s (cell_of i)) (i mod 64).
Proof. intros Hi. unfold bit. rewrite cell_of_eq. reflexivity. Qed.

Lemma unset_set_clear s i :
  words s -> 0 <= i -> (cell_of i < length s)%nat -> bit s i = false ->
  Bitset_unset (Bitset_set s i) i = s.
Proof.
  intros Hw Hi Hlen Hb. unfold Bitset_unset, Bitset_set.
  rewrite mask_eq by exact Hi. rewrite cell_insert_eq by exact Hlen.
  rewrite list_insert_insert_eq.
  rewrite cell_set_unset.
  - apply list_insert_id. unfold cell.
    destruct (s !! cell_of i) eqn:E; [reflexivity|].
    apply lookup_ge_None in E. lia.
  - apply cell_range, Hw.
  - apply Z.mod_pos_bound. lia.
  - rewrite <- bit_cell by exact Hi. exact Hb.
Qed.

Lemma set_unset_set s i :
  words s -> 0 <= i -> (cell_of i < length s)%nat -> bit s i = true ->
  Bitset_set (Bitset_unset s i) i = s.
Proof.
  intros Hw Hi Hlen Hb. unfold Bitset_unset, Bitset_set.
  rewrite mask_eq by exact Hi. rewrite cell_insert_eq by exact Hlen.
  rewrite list_insert_insert_eq.
  rewrite cell_unset_set.
  - apply list_insert_id. unfold cell.
    destruct (s !! cell_of i) eqn:E; [reflexivity|].
    apply lookup_ge_None in E. lia.
  - apply cell_range, Hw.
  - apply Z.mod_pos_bound. lia.
  - rewrite <- bit_cell by exact Hi. exact Hb.
Qed.

(** X1: on a bitmap of 64-bit cells and an in-range index, [set(i)] and
    [unset(i)] touch bit [i] only, undo each other, and
    [test_and_unset(i)] answers the bit that was there and leaves what
    [unset(i)] leaves. *)
Theorem bitset_set_unset_roundtrip (s : list Z) (i : Z) :
  words s -> 0 <= i -> (cell_of i < length s)%nat ->
  (forall j, 0 <= j -> bit (Bitset_set s i) j = if j =? i then true else bit s j)
  /\ (forall j, 0 <= j -> bit (Bitset_unset s i) j = if j =? i then false else bit s j)
  /\ (bit s i = false -> Bitset_unset (Bitset_set s i) i = s)
  /\ (bit s i = true -> Bitset_set (Bitset_unset s i) i = s)
  /\ Bitset_test_and_unset s i = (bit s i, Bitset_unset s i).
Proof.
  intros Hw Hi Hlen. split; [|split; [|split; [|split]]].
  - intros j Hj. rewrite bit_set by assumption. destruct (j =? i); reflexivity.
  - intros j Hj. rewrite bit_unset by assumption. destruct (j =? i); reflexivity.
  - apply unset_set_clear; assumption.
  - apply set_unset_set; assumption.
  - unfold Bitset_test_and_unset, Bitset_unset. cbv zeta. f_equal.
    rewrite mask_eq by exact Hi. rewrite bit_cell by exact Hi.
    pose proof (Z.mod_pos_bound i 64 ltac:(lia)) as Hk.
    set (c := cell s (cell_of i)). set (k := i mod 64) in *.
    destruct (Z.testbit c k) eqn:E.
    + apply negb_true_iff, Z.eqb_neq. intros Hz.
      assert (Hb : Z.testbit (Z.land c (Z.shiftl 1 k)) k = false) by (rewrite Hz; apply Z.bits_0).
      rewrite Z.land_spec, testbit_one_shl, Z.eqb_refl, E in Hb by lia. discriminate.
    + apply negb_false_iff, Z.eqb_eq. apply Z.bits_inj'. intros j Hj.
      rewrite Z.bits_0, Z.land_spec, testbit_one_shl by lia.
      destruct (Z.eqb_spec j k) as [->|_]; [rewrite E; reflexivity|apply andb_false_r].
Qed.

Lemma bitset_set_unset_roundtrip_witness :
  Bitset_unset (Bitset_set [5; 0] 70) 70 = [5; 0]
  /\ Bitset_test_and_unset [5; 0] 2 = (bit [5; 0] 2, Bitset_unset [5; 0] 2).
Proof.
  assert (Hw : words [5; 0]) by (repeat constructor; lia).
  assert (H70 : (cell_of 70 < length [5; 0])%nat) by (vm_compute; lia).
  assert (H2 : (cell_of 2 < length [5; 0])%nat) by (vm_compute; lia).
  split.
  - apply (bitset_set_unset_roundtrip [5; 0] 70 Hw ltac:(lia) H70). reflexivity.
  - apply (bitset_set_unset_roundtrip [5; 0] 2 Hw ltac:(lia) H2).
Defined.

(** ** alloc and free of one sub-allocator *)

Lemma alloc_slot t a n p a' :
  0 <= a_cur_bit a <= MAX_bIT t -> 0 <= n < 2 ^ 31 ->
  Alloc_alloc t a n = (Some p, a') ->
  slot_of t a' p = a_cur_bit a /\ slot_of t a p = a_cur_bit a.
Proof.
  intros Hc Hn E. destruct (alloc_success t a n p a' Hc Hn E) as (_ & -> & ->).
  unfold slot_of. simpl a_p. pose proof (slot_size_pos t).
  replace (a_p a + a_cur_bit a * slot_size t - a_p a) with (a_cur_bit a * slot_size t) by lia.
  rewrite Z.div_mul by lia. split; reflexivity.
Qed.

(** [free] right after [alloc] *)
Lemma alloc_free_back (t : tier) (a a' : Alloc) (n p : Z) :
  cursor_inv t a -> 1 <= n < 2 ^ 31 ->
  Alloc_alloc t a n = (Some p, a') ->
  Alloc_free t a' p = (a_cur_bit a =? 0, a).
Proof.
  intros Hinv Hn E.
  destruct Hinv as [Hbs Hxbs Hcur Hbelow Hempty Hsub].
  pose proof (MAX_bIT_lt t) as HM. pose proof (BS_BITS_le t) as HB.
  destruct (alloc_slot t a n p a' Hcur ltac:(lia) E) as [Hslot _].
  destruct (alloc_success t a n p a' Hcur ltac:(lia) E) as (Hle & Hp & Ha').
  assert (Hlen : (cell_of (a_cur_bit a) < length (a_bs a))%nat)
    by (apply (cell_of_lt t); [exact Hbs|lia]).
  assert (Hclear : bit (a_bs a) (a_cur_bit a) = false).
  { destruct (bit (a_bs a) (a_cur_bit a)) eqn:Eb; [|reflexivity].
    specialize (Hbelow _ (proj1 Hcur) Eb). lia. }
  assert (Hbs' : bitmap t (a_bs a')).
  { subst a'. simpl. destruct Hbs as [Hw Hl]. split; [apply words_set; [lia|exact Hw]|].
    rewrite length_set. exact Hl. }
  destruct (Alloc_free_run t a' p Hbs') as (_ & _ & _ & _ & _ & Hrun).
  { subst a'. simpl. lia. }
  { rewrite Hslot. subst a'. simpl. lia. }
  rewrite Hrun. rewrite Hslot.
  assert (Hback : Bitset_unset (a_bs a') (a_cur_bit a) = a_bs a).
  { subst a'. simpl. apply unset_set_clear; [apply Hbs|lia|exact Hlen|exact Hclear]. }
  rewrite Hback.
  assert (Hcura' : a_cur_bit a' = a_cur_bit a + n) by (subst a'; reflexivity).
  rewrite Hcura'.
  assert (Hbelow' : forall j, 0 <= j -> bit (a_bs a) j = true -> j < a_cur_bit a + n).
  { intros j Hj Hb. specialize (Hbelow j Hj Hb). lia. }
  pose proof (top_whole (a_bs a) (a_cur_bit a + n) _ ltac:(lia) Hbelow'
                (rfind_top (a_bs a) (a_cur_bit a + n) (proj1 Hbs) ltac:(lia))) as Htop.
  set (r := Bitset_rfind (a_bs a) (a_cur_bit a + n)) in *.
  assert (Hcur' : (if r <? a_cur_bit a then if 0 <=? r then a_cur_bit a else 0
                   else a_cur_bit a + n) = a_cur_bit a).
  { destruct Htop as [[Hr Hall]|(Hr & Hset & _)].
    - rewrite Hr. rewrite (Hempty Hall). reflexivity.
    - specialize (Hbelow r (proj1 Hr) Hset).
      rewrite (proj2 (Z.ltb_lt r (a_cur_bit a))) by lia.
      rewrite (proj2 (Z.leb_le 0 r)) by lia. reflexivity. }
  rewrite Hcur'. f_equal. subst a'. destruct a; reflexivity.
Qed.

(** X2: an object freed right after it was allocated leaves the
    sub-allocator exactly as it was before the [alloc], and [free]
    answers true exactly when the allocator was empty before. *)
Theorem alloc_then_free_restores (t : tier) (a a' : Alloc) (n p : Z) :
  cursor_inv t a -> 1 <= n < 2 ^ 31 ->
  Alloc_alloc t a n = (Some p, a') ->
  Alloc_free t a' p = (a_cur_bit a =? 0, a).
Proof. exact (alloc_free_back t a a' n p). Qed.

Lemma alloc_then_free_restores_witness :
  Alloc_free Small (snd (Alloc_alloc Small sa_abc 5)) (576 + 48) = (false, sa_abc).
Proof.
  assert (E : Alloc_alloc Small sa_abc 5
              = (Some (576 + 48), snd (Alloc_alloc Small sa_abc 5)))
    by (vm_compute; reflexivity).
  apply (alloc_then_free_restores Small sa_abc _ 5 (576 + 48) inv_sa_abc ltac:(lia) E).
Defined.

(** X3: a block handed out by [alloc] lies inside the unit of its
    sub-allocator, behind the header and the two bitmaps: the payload
    starts at offset 576 (Small) or 4096 (Large), and slot [MAX_bIT] is
    the end of the 32 KiB or 2 MiB unit. *)
Theorem alloc_block_inside_unit (t : tier) (this : Z) (a a' : Alloc) (n p : Z) :
  a_p a = this + payload_offset t ->
  0 <= a_cur_bit a <= MAX_bIT t -> 0 <= n < 2 ^ 31 ->
  Alloc_alloc t a n = (Some p, a') ->
  payload_offset t + MAX_bIT t * slot_size t = unit_size t
  /\ this + payload_offset t <= p
  /\ p + n * slot_size t <= this + unit_size t
  /\ (p - this) mod slot_size t = 0
  /\ a_p a' = a_p a.
Proof.
  intros Hp Hc Hn E.
  destruct (alloc_success t a n p a' Hc Hn E) as (Hle & -> & ->).
  pose proof (slot_size_pos t) as Hs.
  assert (Hlay : payload_offset t + MAX_bIT t * slot_size t = unit_size t)
    by (destruct t; reflexivity).
  split; [exact Hlay|]. split; [nia|]. split; [nia|]. split; [|reflexivity].
  replace (a_p a + a_cur_bit a * slot_size t - this)
    with (payload_offset t + a_cur_bit a * slot_size t) by lia.
  rewrite Z.add_mod, Z.mod_mul by lia.
  destruct t; reflexivity.
Qed.

Lemma alloc_block_inside_unit_witness :
  576 <= 576 + 48 /\ (576 + 48) + 5 * 16 <= unit_size Small.
Proof.
  assert (E : Alloc_alloc Small sa_abc 5
              = (Some (576 + 48), snd (Alloc_alloc Small sa_abc 5)))
    by (vm_compute; reflexivity).
  destruct (alloc_block_inside_unit Small 0 sa_abc _ 5 (576 + 48)
              eq_refl ltac:(vm_compute; split; discriminate) ltac:(lia) E)
    as (_ & H1 & H2 & _).
  split; [exact H1|exact H2].
Defined.

Lemma alloc_all_lower t us : forall a ps,
  0 <= a_cur_bit a <= MAX_bIT t ->
  Forall (fun u => 1 <= u < 2 ^ 31) us ->
  alloc_all t a us = Some ps ->
  Forall (fun q => a_p a + a_cur_bit a * slot_size t <= q) ps.
Proof.
  induction us as [|u us IH]; intros a ps Hc Hus Hall.
  - simpl in Hall. injection Hall as <-. constructor.
  - simpl in Hall. inversion Hus as [|? ? Hu Hus']; subst.
    destruct (Alloc_alloc t a u) as [[p0|] a'] eqn:Ea; [|discriminate].
    destruct (alloc_success t a u p0 a' Hc ltac:(lia) Ea) as (Hle & Hp & Ha').
    assert (Hc' : 0 <= a_cur_bit a' <= MAX_bIT t) by (subst a'; simpl; lia).
    destruct (alloc_all t a' us) as [ps'|] eqn:Er; [|discriminate].
    simpl in Hall. injection Hall as <-.
    pose proof (slot_size_pos t).
    constructor; [lia|].
    specialize (IH a' ps' Hc' Hus' Er).
    eapply Forall_impl; [exact IH|]. intros q Hq. simpl in Hq.
    subst a'. simpl in Hq. nia.
Qed.

Lemma alloc_all_apart t us : forall a ps,
  0 <= a_cur_bit a <= MAX_bIT t ->
  Forall (fun u => 1 <= u < 2 ^ 31) us ->
  alloc_all t a us = Some ps ->
  forall (j k : nat) u p q,
    (j < k)%nat -> us !! j = Some u -> ps !! j = Some p -> ps !! k = Some q ->
    p + u * slot_size t <= q.
Proof.
  induction us as [|u0 us IH]; intros a ps Hc Hus Hall j k u p q Hjk Hu Hp Hq.
  - discriminate.
  - simpl in Hall. inversion Hus as [|? ? Hu0 Hus']; subst.
    destruct (Alloc_alloc t a u0) as [[p0|] a'] eqn:Ea; [|discriminate].
    destruct (alloc_success t a u0 p0 a' Hc ltac:(lia) Ea) as (Hle & Hp0 & Ha').
    assert (Hc' : 0 <= a_cur_bit a' <= MAX_bIT t) by (subst a'; simpl; lia).
    destruct (alloc_all t a' us) as [ps'|] eqn:Er; [|discriminate].
    simpl in Hall. injection Hall as <-.
    destruct k as [|k]; [lia|]. simpl in Hq.
    destruct j as [|j].
    + simpl in Hu, Hp. injection Hu as <-. injection Hp as <-.
      pose proof (alloc_all_lower t us a' ps' Hc' Hus' Er) as Hlow.
      rewrite Forall_lookup in Hlow. specialize (Hlow k q Hq). simpl in Hlow.
      subst a'. simpl in Hlow. rewrite Hp0. nia.
    + simpl in Hu, Hp. apply (IH a' ps' Hc' Hus' Er j k u p q); [lia|assumption..].
Qed.

(** X4: the blocks returned by a run of successful [alloc] calls on
    one sub-allocator do not overlap: a later block starts at or after
    the end of every earlier one. *)
Theorem alloc_blocks_disjoint (t : tier) (a : Alloc) (us ps : list Z) :
  0 <= a_cur_bit a <= MAX_bIT t ->
  Forall (fun u => 1 <= u < 2 ^ 31) us ->
  alloc_all t a us = Some ps ->
  forall (j k : nat) u p q,
    (j < k)%nat -> us !! j = Some u -> ps !! j = Some p -> ps !! k = Some q ->
    p + u * slot_size t <= q.
Proof. exact (alloc_all_apart t us a ps). Qed.

Lemma alloc_blocks_disjoint_witness :
  alloc_all Small sa_fresh [3; 1; 2] = Some [576; 624; 640]
  /\ 576 + 3 * slot_size Small <= 640.
Proof.
  assert (Hall : alloc_all Small sa_fresh [3; 1; 2] = Some [576; 624; 640])
    by (vm_compute; reflexivity).
  split; [exact Hall|].
  apply (alloc_blocks_disjoint Small sa_fresh [3; 1; 2] [576; 624; 640]
           ltac:(vm_compute; split; discriminate)
           ltac:(repeat constructor; lia) Hall 0%nat 2%nat 3 576 640);
    [lia|reflexivity..].
Defined.

(** ** Finding the header again *)

Lemma align_down_pow2 k x :
  0 <= k -> align_down (Z.shiftl 1 k) x = 2 ^ k * (x / 2 ^ k).
Proof.
  intros Hk. unfold align_down. rewrite Z.shiftl_1_l.
  replace (2 ^ k - 1) with (Z.ones k) by (rewrite Z.ones_equiv; lia).
  rewrite <- Z.ldiff_land, Z.ldiff_ones_r by exact Hk.
  rewrite Z.shiftl_mul_pow2, Z.shiftr_div_pow2 by exact Hk. lia.
Qed.

Lemma align_down_inside k base x :
  0 <= k -> base mod 2 ^ k = 0 -> base <= x < base + 2 ^ k ->
  align_down (Z.shiftl 1 k) x = base.
Proof.
  intros Hk Hb Hx. rewrite align_down_pow2 by exact Hk.
  assert (H2 : 0 < 2 ^ k) by (apply Z.pow_pos_nonneg; lia).
  assert (Hbase : base = 2 ^ k * (base / 2 ^ k)).
  { pose proof (Z.div_mod base (2 ^ k) ltac:(lia)). lia. }
  assert (Hq : x / 2 ^ k = base / 2 ^ k).
  { symmetry. apply Z.div_unique with (x - base); [left; lia|lia]. }
  rewrite Hq. lia.
Qed.

(** from a returned pointer back to the header *)
Lemma header_of_pointer (t : tier) (this : Z) (a a' : Alloc) (n p : Z) :
  this mod unit_size t = 0 ->
  a_p a = this + payload_offset t ->
  0 <= a_cur_bit a <= MAX_bIT t -> 1 <= n < 2 ^ 31 ->
  Alloc_alloc t a n = (Some p, a') ->
  align_down (Z.shiftl 1 (unit_bits t)) p = this
  /\ slot_of t a' p = a_cur_bit a.
Proof.
  intros Hal Hp Hc Hn E.
  destruct (alloc_slot t a n p a' Hc ltac:(lia) E) as [Hslot _].
  split; [|exact Hslot].
  destruct (alloc_success t a n p a' Hc ltac:(lia) E) as (Hle & Hpeq & _).
  pose proof (slot_size_pos t) as Hs.
  assert (Hlay : payload_offset t + MAX_bIT t * slot_size t = unit_size t)
    by (destruct t; reflexivity).
  assert (Hoff : 0 <= payload_offset t) by (destruct t; vm_compute; discriminate).
  assert (Hunit : unit_size t = 2 ^ unit_bits t) by (destruct t; reflexivity).
  apply align_down_inside.
  - destruct t; vm_compute; discriminate.
  - rewrite <- Hunit. exact Hal.
  - rewrite <- Hunit. nia.
Qed.

(** X5: [free] finds the allocator that made the pointer.  When the
    header sits at a unit-aligned address (32 KiB for a SmallAlloc,
    2 MiB for a LargeAlloc), aligning a pointer returned by [alloc] down
    to the unit size gives the header's address, and the slot index
    [free] computes from it is the cursor the block was cut at. *)
Theorem alloc_pointer_finds_header (t : tier) (this : Z) (a a' : Alloc) (n p : Z) :
  this mod unit_size t = 0 ->
  a_p a = this + payload_offset t ->
  0 <= a_cur_bit a <= MAX_bIT t -> 1 <= n < 2 ^ 31 ->
  Alloc_alloc t a n = (Some p, a') ->
  align_down (Z.shiftl 1 (unit_bits t)) p = this
  /\ slot_of t a' p = a_cur_bit a.
Proof. exact (header_of_pointer t this a a' n p). Qed.

Lemma alloc_pointer_finds_header_witness :
  align_down (Z.shiftl 1 (unit_bits Small)) (576 + 48) = 0.
Proof.
  assert (E : Alloc_alloc Small sa_abc 5
              = (Some (576 + 48), snd (Alloc_alloc Small sa_abc 5)))
    by (vm_compute; reflexivity).
  apply (alloc_pointer_finds_header Small 0 sa_abc _ 5 (576 + 48)
           eq_refl eq_refl ltac:(vm_compute; split; discriminate) ltac:(lia) E).
Defined.

(** ** The slow path *)

Lemma drained_refl a : drained a a.
Proof. unfold drained. repeat split; auto; lia. Qed.

Lemma drained_trans a b c : drained a b -> drained b c -> drained a c.
Proof.
  intros (Hp1 & Ht1 & Hq1 & Hc1 & Hs1 & Hk1 & Hx1) (Hp2 & Ht2 & Hq2 & Hc2 & Hs2 & Hk2 & Hx2).
  unfold drained. repeat split; try congruence; try lia.
  - intros j Hj Hb. apply Hs1, Hs2; assumption.
  - intros j Hj Hb. rewrite Hk2; [apply Hk1; assumption|exact Hj|].
    destruct (bit (a_xbs b) j) eqn:E; [|reflexivity].
    rewrite (Hx1 j Hj E) in Hb. discriminate.
  - intros j Hj Hb. apply Hx1, Hx2; assumption.
Qed.

(** the two clears of one cell *)
Lemma drained_cell t a i c :
  cursor_inv t a -> cell (a_xbs a) i <> 0 -> c <= a_cur_bit a ->
  let x := cell (a_xbs a) i in
  drained a (set_cur_bit
               (set_bs (set_xbs a (<[i := Z.land x (not64 x)]> (a_xbs a)))
                       (<[i := Z.land (cell (a_bs a) i) (not64 x)]> (a_bs a))) c).
Proof.
  intros Hinv Hnz Hc x.
  pose proof (cell_lt_length _ _ Hnz) as Hix.
  assert (Hib : (i < length (a_bs a))%nat).
  { destruct (inv_bs t a Hinv) as [_ Hl1]. destruct (inv_xbs t a Hinv) as [_ Hl2]. lia. }
  unfold drained. simpl. repeat split; try reflexivity; try exact Hc.
  - intros j Hj. rewrite bit_clear by assumption.
    intros Hb. apply andb_true_iff in Hb. apply Hb.
  - intros j Hj Hxj. rewrite bit_clear by assumption.
    destruct (Nat.eqb_spec (Z.to_nat (j / 64)) i) as [He|Hne]; simpl.
    + unfold bit in Hxj. rewrite He in Hxj. fold x in Hxj. rewrite Hxj. apply andb_true_r.
    + apply andb_true_r.
  - intros j Hj. change (Z.land x (not64 x)) with (Z.land (cell (a_xbs a) i) (not64 x)).
    rewrite bit_clear by assumption. intros Hb. apply andb_true_iff in Hb. apply Hb.
Qed.

Lemma drained_body t a i :
  (forall a', cursor_inv t a' ->
     drained a' (match i with O => a' | S j => drain a' j end)) ->
  cursor_inv t a -> drained a (drain a i).
Proof.
  intros Hnext Hinv. rewrite drain_eq. cbv zeta.
  pose proof (MAX_bIT_lt t) as HM. pose proof (BS_BITS_le t) as HB.
  pose proof (inv_cur t a Hinv) as Hcur.
  destruct (Z.eqb_spec (cell (a_xbs a) i) 0) as [Hz|Hnz]; [apply Hnext, Hinv|].
  destruct (drain_cell t a i Hinv Hnz) as (Hlsb & Hrange & Hx & Hib & Hstop & Hrew & Hzero).
  cbv zeta in *. simpl a_bs in *. simpl a_cur_bit in *. simpl a_xbs in *. rewrite Hlsb.
  match goal with |- context [?l <=? ?r] =>
    destruct (Z.leb_spec l r) as [Hle|Hgt] end.
  { rewrite <- (set_cur_bit_same (set_bs _ _)). simpl a_cur_bit.
    apply (drained_cell t a i (a_cur_bit a) Hinv Hnz). lia. }
  match goal with |- context [0 <=? ?r] =>
    destruct (Z.leb_spec 0 r) as [Hr0|Hr0] end.
  - rewrite u32_small by lia. destruct (Hrew Hgt Hr0) as [Hinv3 Hne].
    match goal with |- context [?l =? 0] =>
      destruct (Z.eqb_spec l 0) as [He|_]; [exfalso; apply Hne, He|] end.
    eapply drained_trans; [|apply Hnext, Hinv3].
    apply (drained_cell t a i _ Hinv Hnz). lia.
  - rewrite Z.eqb_refl. apply (drained_cell t a i 0 Hinv Hnz). lia.
Qed.

Lemma drained_drain t i : forall a, cursor_inv t a -> drained a (drain a i).
Proof.
  induction i as [|k IH]; intros a Hinv; apply (drained_body t); auto.
  intros a' _. apply drained_refl.
Qed.

(** X6: the slow path reclaims foreign-freed slots only.  On a state
    that satisfies the cursor invariant, [try_hard_alloc] keeps the
    [bs] bit of every object that no other thread has freed, keeps the
    payload base, and the block it returns starts above the slot of every
    such object. *)
Theorem try_hard_alloc_spares_live (t : tier) (a : Alloc) (n : Z) :
  cursor_inv t a -> 1 <= n < 2 ^ 31 ->
  let r := Alloc_try_hard_alloc t a n in
  a_p (snd r) = a_p a
  /\ (forall j, 0 <= j -> bit (a_bs a) j = true -> bit (a_xbs a) j = false ->
        bit (a_bs (snd r)) j = true)
  /\ (forall p j, fst r = Some p -> 0 <= j ->
        bit (a_bs a) j = true -> bit (a_xbs a) j = false ->
        a_p a + j * slot_size t < p).
Proof.
  intros Hinv Hn r. subst r. rewrite try_hard_alloc_tail.
  set (d := if 0 <=? s32 (Z.shiftr (a_cur_bit a) B)
            then drain a (Z.to_nat (s32 (Z.shiftr (a_cur_bit a) B))) else a).
  assert (Hd : drained a d /\ cursor_inv t d).
  { subst d. destruct (0 <=? _).
    - split; [apply (drained_drain t); exact Hinv|apply inv_drain; exact Hinv].
    - split; [apply drained_refl|exact Hinv]. }
  destruct Hd as [(Hp & _ & _ & _ & _ & Hkeep & _) Hinvd].
  pose proof (inv_cur t d Hinvd) as Hcur.
  pose proof (slot_size_pos t) as Hs.
  assert (Hlen : (cell_of (a_cur_bit d) < length (a_bs d))%nat).
  { pose proof (MAX_bIT_lt t). apply (cell_of_lt t); [apply (inv_bs t d Hinvd)|lia]. }
  destruct (Alloc_alloc t d n) as [[p|] a'] eqn:E.
  - destruct (alloc_success t d n p a' Hcur ltac:(lia) E) as (Hle & Hpeq & Ha').
    simpl. split; [subst a'; simpl; exact Hp|]. split.
    + intros j Hj Hb Hx. subst a'. simpl. rewrite bit_set by (lia || exact Hlen).
      rewrite Hkeep, Hb by assumption. apply orb_true_r.
    + intros q j [= <-] Hj Hb Hx.
      assert (Hjd : bit (a_bs d) j = true) by (rewrite Hkeep; assumption).
      pose proof (inv_below t d Hinvd j Hj Hjd). rewrite Hpeq, Hp. nia.
  - unfold Alloc_alloc in E.
    destruct (u32 (a_cur_bit d + n) <=? MAX_bIT t); [discriminate E|]. injection E as <-.
    simpl. split; [exact Hp|]. split.
    + intros j Hj Hb Hx. rewrite Hkeep; assumption.
    + intros q j Hq. simpl in Hq. discriminate Hq.
Qed.

Lemma try_hard_alloc_spares_live_witness :
  bit (a_bs (snd (Alloc_try_hard_alloc Small sa_xfreed 1))) 0 = true.
Proof.
  destruct (try_hard_alloc_spares_live Small sa_xfreed 1
              (reachable_inv _ _ reachable_sa_xfreed) ltac:(lia)) as (_ & Hkeep & _).
  apply Hkeep; [lia|vm_compute; reflexivity|vm_compute; reflexivity].
Defined.

Lemma drain_no_marks a : forall i,
  (forall k, cell (a_xbs a) k = 0) -> drain a i = a.
Proof.
  induction i as [|j IH]; intros Hz; rewrite drain_eq; cbv zeta; rewrite Hz; simpl.
  - reflexivity.
  - apply IH, Hz.
Qed.

(** X7: with no foreign free pending (every cell of [xbs] zero) the slow
    path is the fast path: [try_hard_alloc(n)] does what [alloc(n)] does. *)
Theorem try_hard_alloc_without_marks (t : tier) (a : Alloc) (n : Z) :
  (forall k, cell (a_xbs a) k = 0) ->
  Alloc_try_hard_alloc t a n = Alloc_alloc t a n.
Proof.
  intros Hz. rewrite try_hard_alloc_tail.
  destruct (0 <=? _); [rewrite drain_no_marks by exact Hz|]; reflexivity.
Qed.

Lemma cells_fresh t k : cell (fresh_cells t) k = 0.
Proof.
  unfold cell, fresh_cells. destruct (replicate _ 0 !! k) as [c|] eqn:E; simpl.
  - apply lookup_replicate in E. destruct E as [-> _]. reflexivity.
  - reflexivity.
Qed.

Lemma try_hard_alloc_without_marks_witness :
  Alloc_try_hard_alloc Small sa_fresh 3 = Alloc_alloc Small sa_fresh 3.
Proof.
  apply try_hard_alloc_without_marks. intros k. apply (cells_fresh Small).
Defined.

(** the cursor value [free] and the drain fall back to, when every set
    bit lies below [c] and the cursor stands at [c + n] *)
Lemma rewind_to t a n :
  cursor_inv t a -> 0 <= n -> a_cur_bit a + n <= MAX_bIT t ->
  let r := Bitset_rfind (a_bs a) (a_cur_bit a + n) in
  r < a_cur_bit a /\ (if 0 <=? r then a_cur_bit a else 0) = a_cur_bit a.
Proof.
  intros [Hbs Hxbs Hcur Hbelow Hempty Hsub] Hn Hle r.
  pose proof (MAX_bIT_lt t) as HM. pose proof (BS_BITS_le t) as HB.
  assert (Hbelow' : forall j, 0 <= j -> bit (a_bs a) j = true -> j < a_cur_bit a + n).
  { intros j Hj Hb. specialize (Hbelow j Hj Hb). lia. }
  pose proof (top_whole (a_bs a) (a_cur_bit a + n) r ltac:(lia) Hbelow'
                (rfind_top (a_bs a) (a_cur_bit a + n) (proj1 Hbs) ltac:(lia))) as Htop.
  destruct Htop as [[Hr Hall]|(Hr & Hset & _)].
  - rewrite Hr. rewrite (Hempty Hall). split; [lia|reflexivity].
  - specialize (Hbelow r (proj1 Hr) Hset). split; [lia|].
    rewrite (proj2 (Z.leb_le 0 r)) by lia. reflexivity.
Qed.

Lemma drain_skip_high a ci : forall i,
  (ci <= i)%nat -> (forall k, (ci < k)%nat -> cell (a_xbs a) k = 0) ->
  drain a i = drain a ci.
Proof.
  induction i as [|j IH]; intros Hi Hz.
  - replace ci with 0%nat by lia. reflexivity.
  - destruct (decide (ci = S j)) as [->|Hne]; [reflexivity|].
    rewrite drain_eq. cbv zeta. rewrite Hz by lia. simpl. apply IH; [lia|exact Hz].
Qed.

Lemma find_lsb_one_shl k : 0 <= k < 64 -> _find_lsb (Z.shiftl 1 k) = k.
Proof.
  intros Hk. pose proof (shl_one_range k Hk) as Hr.
  assert (Hpos : 0 < Z.shiftl 1 k) by (rewrite Z.shiftl_1_l; apply Z.pow_pos_nonneg; lia).
  apply find_lsb_unique; [lia|lia| |].
  - rewrite testbit_one_shl, Z.eqb_refl by lia. reflexivity.
  - intros j Hj. rewrite testbit_one_shl by lia. apply Z.eqb_neq. lia.
Qed.

(** X8: a foreign free of the topmost object is undone by the slow
    path.  If no foreign free was pending, an object is allocated, and
    another thread frees it with [xfree], then [try_hard_alloc(m)]
    behaves as [alloc(m)] on the allocator before the allocation: it
    hands the same address out again. *)
Theorem xfree_topmost_reclaimed (t : tier) (a a1 : Alloc) (n p m : Z) :
  cursor_inv t a -> (forall k, cell (a_xbs a) k = 0) -> 1 <= n < 2 ^ 31 ->
  Alloc_alloc t a n = (Some p, a1) ->
  Alloc_try_hard_alloc t (Alloc_xfree t a1 p) m = Alloc_alloc t a m.
Proof.
  intros Hinv Hz Hn E.
  pose proof (MAX_bIT_lt t) as HM. pose proof (BS_BITS_le t) as HB.
  pose proof (inv_cur t a Hinv) as Hcur.
  destruct (alloc_slot t a n p a1 Hcur ltac:(lia) E) as [Hslot _].
  destruct (alloc_success t a n p a1 Hcur ltac:(lia) E) as (Hle & Hp & Ha1).
  set (c := a_cur_bit a) in *.
  assert (Hinv1 : cursor_inv t a1).
  { replace a1 with (snd (Alloc_alloc t a n)) by (rewrite E; reflexivity).
    apply inv_alloc; assumption. }
  assert (Hlenb : (cell_of c < length (a_bs a))%nat)
    by (apply (cell_of_lt t); [apply (inv_bs t a Hinv)|lia]).
  assert (Hlenx : (cell_of c < length (a_xbs a))%nat)
    by (apply (cell_of_lt t); [apply (inv_xbs t a Hinv)|lia]).
  assert (Hlive : live t a1 p).
  { unfold live. rewrite Hslot. split; [lia|]. subst a1. simpl.
    rewrite bit_set, Z.eqb_refl by (lia || exact Hlenb). reflexivity. }
  assert (Hinvx : cursor_inv t (Alloc_xfree t a1 p)) by (apply inv_xfree; assumption).
  assert (Hclear : bit (a_bs a) c = false).
  { destruct (bit (a_bs a) c) eqn:Eb; [|reflexivity].
    pose proof (inv_below t a Hinv c ltac:(lia) Eb). lia. }
  pose proof (Z.mod_pos_bound c 64 ltac:(lia)) as Hk0.
  (* the state after xfree *)
  assert (Hax : Alloc_xfree t a1 p
                = set_xbs a1 (<[cell_of c := Z.shiftl 1 (c mod 64)]> (a_xbs a))).
  { rewrite xfree_slot by (rewrite Hslot; lia). rewrite Hslot.
    unfold Bitset_atomic_set. rewrite mask_eq by lia.
    subst a1. simpl a_xbs. rewrite Hz. reflexivity. }
  set (ax := Alloc_xfree t a1 p) in *. clearbody ax.
  assert (Hcellx : cell (a_xbs ax) (cell_of c) = Z.shiftl 1 (c mod 64)).
  { rewrite Hax. simpl. apply cell_insert_eq. exact Hlenx. }
  assert (Hnz : cell (a_xbs ax) (cell_of c) <> 0).
  { rewrite Hcellx. rewrite Z.shiftl_1_l.
    pose proof (Z.pow_pos_nonneg 2 (c mod 64) ltac:(lia) ltac:(lia)). lia. }
  (* the drain of the cell of c gives back a *)
  assert (Hcell : drain ax (cell_of c) = a).
  { rewrite drain_eq. cbv zeta. rewrite (proj2 (Z.eqb_neq _ _) Hnz).
    destruct (drain_cell t ax (cell_of c) Hinvx Hnz) as (Hlsb & _).
    cbv zeta in Hlsb. rewrite Hlsb. rewrite Hcellx.
    rewrite find_lsb_one_shl by lia.
    assert (Hc64 : 64 * Z.of_nat (cell_of c) + c mod 64 = c).
    { rewrite cell_of_eq. pose proof (Z.div_mod c 64 ltac:(lia)).
      pose proof (Z.div_pos c 64 ltac:(lia) ltac:(lia)). lia. }
    rewrite Hc64.
    assert (Hxbs_back : <[cell_of c := Z.land (Z.shiftl 1 (c mod 64))
                                        (not64 (Z.shiftl 1 (c mod 64)))]> (a_xbs ax)
                        = a_xbs a).
    { rewrite Hax. simpl a_xbs. rewrite list_insert_insert_eq.
      assert (Hzero : Z.land (Z.shiftl 1 (c mod 64)) (not64 (Z.shiftl 1 (c mod 64))) = 0).
      { apply Z.bits_inj'. intros j Hj. rewrite Z.bits_0, Z.land_spec.
        destruct (Z_lt_le_dec j 64).
        - rewrite testbit_not64 by lia. apply andb_negb_r.
        - rewrite testbit_one_shl by lia.
          replace (j =? c mod 64) with false by (symmetry; apply Z.eqb_neq; lia).
          reflexivity. }
      rewrite Hzero. apply list_insert_id.
      specialize (Hz (cell_of c)). unfold cell in Hz.
      destruct (a_xbs a !! cell_of c) eqn:El; [simpl in Hz; congruence|].
      apply lookup_ge_None in El. lia. }
    rewrite Hxbs_back.
    assert (Hbs_back : <[cell_of c := Z.land (cell (a_bs ax) (cell_of c))
                                       (not64 (Z.shiftl 1 (c mod 64)))]> (a_bs ax)
                       = a_bs a).
    { rewrite Hax. simpl a_bs. subst a1. simpl a_bs.
      rewrite <- (unset_set_clear (a_bs a) c) at 3;
        [|apply (inv_bs t a Hinv)|lia|exact Hlenb|exact Hclear].
      unfold Bitset_unset at 1. rewrite mask_eq by lia. reflexivity. }
    simpl a_bs. simpl a_xbs. simpl a_cur_bit. rewrite Hbs_back.
    assert (Hcurx : a_cur_bit ax = c + n) by (rewrite Hax; subst a1; reflexivity).
    rewrite Hcurx.
    destruct (rewind_to t a n Hinv ltac:(lia) Hle) as [Hr Hval]. fold c in Hr, Hval.
    set (r := Bitset_rfind (a_bs a) (c + n)) in *.
    rewrite (proj2 (Z.leb_gt c r)) by lia.
    rewrite (u32_small c) by lia. rewrite Hval.
    assert (Hfinal : set_cur_bit (set_bs (set_xbs ax (a_xbs a)) (a_bs a)) c = a).
    { rewrite Hax. subst a1 c. destruct a; reflexivity. }
    rewrite Hfinal. fold c.
    destruct (c =? 0); [reflexivity|].
    destruct (cell_of c); [reflexivity|]. apply drain_no_marks. exact Hz. }
  rewrite try_hard_alloc_tail. rewrite shr_B.
  assert (Hcurx : a_cur_bit ax = c + n) by (rewrite Hax; subst a1; reflexivity).
  rewrite Hcurx.
  pose proof (Z.div_pos (c + n) 64 ltac:(lia) ltac:(lia)).
  assert ((c + n) / 64 < 32) by (apply Z.div_lt_upper_bound; lia).
  rewrite s32_small by lia. rewrite (proj2 (Z.leb_le 0 _)) by lia.
  rewrite (drain_skip_high ax (cell_of c)).
  - rewrite Hcell. reflexivity.
  - rewrite cell_of_eq. apply Z2Nat.inj_le; [apply Z.div_pos; lia|lia|].
    apply Z.div_le_mono; lia.
  - intros k Hk. rewrite Hax. simpl a_xbs. rewrite cell_insert_ne by lia. apply Hz.
Qed.

Lemma xfree_topmost_reclaimed_witness :
  fst (Alloc_try_hard_alloc Small
         (Alloc_xfree Small (snd (Alloc_alloc Small sa_abc 5)) (576 + 48)) 2)
  = Some (576 + 48).
Proof.
  assert (E : Alloc_alloc Small sa_abc 5
              = (Some (576 + 48), snd (Alloc_alloc Small sa_abc 5)))
    by (vm_compute; reflexivity).
  rewrite (xfree_topmost_reclaimed Small sa_abc _ 5 (576 + 48) 2 inv_sa_abc).
  - vm_compute. reflexivity.
  - intros k. change (a_xbs sa_abc) with (fresh_cells Small). apply cells_fresh.
  - lia.
  - exact E.
Defined.

(** ** HugeBlock and LargeBlock: alloc then free *)

Lemma block_pick bits :
  0 <= bits < 2 ^ 64 -> _find_lsb (not64 bits) < R ->
  let i := _find_lsb (not64 bits) in
  0 <= i < 63 /\ Z.testbit bits i = false.
Proof.
  intros Hb Hlt i. change R with 63 in Hlt. pose proof (not64_range bits) as Hr.
  destruct (Z.eq_dec (not64 bits) 0) as [Hz|Hnz].
  - exfalso. rewrite Hz in Hlt. vm_compute in Hlt. discriminate Hlt.
  - destruct (find_lsb_spec (not64 bits) ltac:(lia)) as (Hl & Hs & _).
    split; [subst i; lia|]. rewrite testbit_not64 in Hs by lia.
    apply negb_true_iff in Hs. exact Hs.
Qed.

(** X9: a child unit given back right after it was carved leaves the
    block as it was: [free(alloc())] restores the occupancy word of a
    HugeBlock or LargeBlock, and answers true exactly when the block had
    no unit in use before; the unit handed out was a clear bit below 63. *)
Theorem block_alloc_then_free (h h' : HugeBlock) (b b' : LargeBlock) (q : Z) :
  (0 <= hb_bits h < 2 ^ 64 -> HugeBlock_alloc h = (Some q, h') ->
     HugeBlock_free h' q = (hb_bits h =? 0, h)
     /\ exists i, 0 <= i < 63 /\ q = hb_p h + i * 2 ^ 21
                  /\ Z.testbit (hb_bits h) i = false)
  /\ (0 <= lb_bits b < 2 ^ 64 -> LargeBlock_alloc b = (Some q, b') ->
     LargeBlock_free b' q = (lb_bits b =? 0, b)
     /\ exists i, 0 <= i < 63 /\ q = lb_p b + i * 2 ^ 15
                  /\ Z.testbit (lb_bits b) i = false).
Proof.
  split.
  - intros Hb E. unfold HugeBlock_alloc in E.
    destruct (Z.ltb_spec (_find_lsb (not64 (hb_bits h))) R) as [Hlt|]; [|discriminate E].
    destruct (block_pick _ Hb Hlt) as [Hi Hclear].
    set (i := _find_lsb (not64 (hb_bits h))) in *.
    rewrite shl_C in E by exact Hi. change g_lb_bits with 21 in E.
    rewrite shl_unit in E by lia. injection E as <- <-.
    split; [|exists i; repeat split; try lia; exact Hclear].
    unfold HugeBlock_free. simpl hb_p. simpl hb_bits. change g_lb_bits with 21.
    replace (hb_p h + i * 2 ^ 21 - hb_p h) with (i * 2 ^ 21) by lia.
    rewrite Z.shiftr_div_pow2, Z.div_mul by lia. rewrite u32_small by lia.
    rewrite shl_C by exact Hi. rewrite cell_set_unset by (lia || exact Hclear).
    destruct h; reflexivity.
  - intros Hb E. unfold LargeBlock_alloc in E.
    destruct (Z.ltb_spec (_find_lsb (not64 (lb_bits b))) R) as [Hlt|]; [|discriminate E].
    destruct (block_pick _ Hb Hlt) as [Hi Hclear].
    set (i := _find_lsb (not64 (lb_bits b))) in *.
    rewrite shl_C in E by exact Hi. change g_sb_bits with 15 in E.
    rewrite shl_unit in E by lia. injection E as <- <-.
    split; [|exists i; repeat split; try lia; exact Hclear].
    unfold LargeBlock_free. simpl lb_p. simpl lb_bits. change g_sb_bits with 15.
    replace (lb_p b + i * 2 ^ 15 - lb_p b) with (i * 2 ^ 15) by lia.
    rewrite Z.shiftr_div_pow2, Z.div_mul by lia. rewrite u32_small by lia.
    rewrite shl_C by exact Hi. rewrite cell_set_unset by (lia || exact Hclear).
    destruct b; reflexivity.
Qed.

Lemma block_alloc_then_free_witness :
  HugeBlock_free (mkHB 4096 7) (4096 + 1 * 2 ^ 21) = (false, mkHB 4096 5).
Proof.
  destruct (block_alloc_then_free (mkHB 4096 5) (mkHB 4096 7) (mkLB 0 0 0) (mkLB 0 0 0)
              (4096 + 1 * 2 ^ 21)) as [Hh _].
  destruct (Hh ltac:(simpl; lia) ltac:(vm_compute; reflexivity)) as [Hfree _].
  exact Hfree.
Defined.

(** ** The list functions on well-formed lists *)

Lemma get_head_run l s h : head_of l s = Some h -> get_head l s = Some (h, s).
Proof.
  destruct l as [k|ta|ta|ta]; simpl; intros H.
  - unfold deref. rewrite H. reflexivity.
  - unfold get_ta, mbind, M_bind, deref. destruct (tas s !! ta); [|discriminate H].
    simpl in H. injection H as <-. reflexivity.
  - unfold get_ta, mbind, M_bind, deref. destruct (tas s !! ta); [|discriminate H].
    simpl in H. injection H as <-. reflexivity.
  - unfold get_ta, mbind, M_bind, deref. destruct (tas s !! ta); [|discriminate H].
    simpl in H. injection H as <-. reflexivity.
Qed.

Lemma set_head_run l s h v :
  head_of l s = Some h -> set_head l v s = Some (tt, with_head l v s).
Proof.
  destruct l as [k|ta|ta|ta]; simpl; intros H.
  - unfold mbind, M_bind, deref. rewrite H. reflexivity.
  - unfold get_ta, mbind, M_bind, deref. destruct (tas s !! ta); [reflexivity|discriminate H].
  - unfold get_ta, mbind, M_bind, deref. destruct (tas s !! ta); [reflexivity|discriminate H].
  - unfold get_ta, mbind, M_bind, deref. destruct (tas s !! ta); [reflexivity|discriminate H].
Qed.

Lemma head_of_with_head l s h v :
  head_of l s = Some h -> head_of l (with_head l v s) = Some v.
Proof.
  destruct l as [k|ta|ta|ta]; simpl; intros H.
  - apply list_lookup_insert_eq. apply lookup_lt_Some in H. exact H.
  - destruct (tas s !! ta); [|discriminate H]. simpl. rewrite lookup_insert_eq. reflexivity.
  - destruct (tas s !! ta); [|discriminate H]. simpl. rewrite lookup_insert_eq. reflexivity.
  - destruct (tas s !! ta); [|discriminate H]. simpl. rewrite lookup_insert_eq. reflexivity.
Qed.

Lemma links_with_head l v s : links (with_head l v s) = links s.
Proof. destruct l as [k|ta|ta|ta]; simpl; try destruct (tas s !! ta); reflexivity. Qed.

Lemma head_of_set_links l f s : head_of l (set_links f s) = head_of l s.
Proof. destruct l; reflexivity. Qed.

Lemma with_head_set_links l v f s :
  with_head l v (set_links f s) = set_links f (with_head l v s).
Proof. destruct l as [k|ta|ta|ta]; simpl; try destruct (tas s !! ta); reflexivity. Qed.

Lemma link_at_write_next m a v b :
  link_at (write_next a v m) b
  = if decide (a = b) then mkLink v (prev (link_at m a)) else link_at m b.
Proof. apply link_at_insert. Qed.

Lemma link_at_write_prev m a v b :
  link_at (write_prev a v m) b
  = if decide (a = b) then mkLink (next (link_at m a)) v else link_at m b.
Proof. apply link_at_insert. Qed.

Lemma is_list_nil m xs : is_list m 0 xs -> xs = [].
Proof.
  intros (Hl & _ & Hseg). destruct xs as [|a rest]; [reflexivity|].
  simpl in Hl. destruct Hseg as [Ha _]. congruence.
Qed.

Lemma is_list_head_nonzero m h xs : is_list m h xs -> xs <> [] -> h <> 0.
Proof.
  intros (Hl & _ & Hseg) Hne. destruct xs as [|a rest]; [done|].
  simpl in Hl. destruct Hseg as [Ha _]. congruence.
Qed.

Lemma push_links_list m h node xs :
  is_list m h xs -> node <> 0 -> node ∉ xs ->
  is_list (push_links h node m) node (node :: xs).
Proof.
  intros Hlist Hn0 Hnin. unfold push_links.
  destruct (Z.eqb_spec h 0) as [->|Hh].
  - rewrite (is_list_nil _ _ Hlist). split; [reflexivity|].
    split; [apply NoDup_singleton|]. simpl. split; [exact Hn0|]. split; [|exact I].
    rewrite link_at_write_prev, decide_True by reflexivity.
    rewrite link_at_write_next, decide_True by reflexivity. reflexivity.
  - destruct Hlist as (Hl & Hnd & Hseg).
    destruct xs as [|a rest]; [simpl in Hl; congruence|]. simpl in Hl. subst a.
    destruct Hseg as (_ & Hlh & Hrest).
    assert (Hnh : node <> h) by (intros ->; apply Hnin; left).
    cbv zeta.
    split; [reflexivity|]. split; [apply NoDup_cons; split; assumption|].
    rewrite last_cons_default.
    assert (Hlast : default node (last (h :: rest)) = default 0 (last (h :: rest))).
    { destruct (last (h :: rest)) eqn:E; [reflexivity|]. apply last_None in E. discriminate. }
    rewrite Hlast.
    split; [exact Hn0|]. split; [|split; [exact Hh|split]].
    + rewrite link_at_write_prev, decide_False by congruence.
      rewrite link_at_write_prev, decide_True by reflexivity.
      rewrite !link_at_write_next, decide_True by reflexivity.
      rewrite decide_False by exact Hnh. rewrite Hlh. reflexivity.
    + rewrite link_at_write_prev, decide_True by reflexivity.
      rewrite link_at_write_prev, decide_False by exact Hnh.
      rewrite link_at_write_next, decide_False by exact Hnh.
      rewrite Hlh. reflexivity.
    + apply (seg_frame m); [|exact Hrest]. intros b Hb.
      apply NoDup_cons in Hnd. destruct Hnd as [Hhr _].
      rewrite link_at_write_prev, decide_False by (intros ->; contradiction).
      rewrite link_at_write_prev, decide_False
        by (intros ->; apply Hnin; right; exact Hb).
      rewrite link_at_write_next, decide_False
        by (intros ->; apply Hnin; right; exact Hb).
      reflexivity.
Qed.

Lemma list_push_front_run l node s h :
  head_of l s = Some h -> node <> 0 ->
  list_push_front l node s
  = Some (tt, with_head l node (set_links (push_links h node) s)).
Proof.
  intros Hh Hn0. unfold list_push_front.
  rewrite (bind_some _ _ s h s (get_head_run l s h Hh)).
  unfold push_links. destruct (Z.eqb_spec h 0) as [->|Hh0].
  - rewrite (bind_some _ _ s tt _ (put_next_run node 0 s Hn0)).
    rewrite (bind_some _ _ _ tt _ (put_prev_run node node _ Hn0)).
    rewrite (set_head_run l _ 0 node) by (rewrite !head_of_set_links; exact Hh).
    reflexivity.
  - rewrite (bind_some _ _ s tt _ (put_next_run node h s Hn0)).
    rewrite (bind_some _ _ _ _ _ (get_prev_run h _ Hh0)).
    rewrite (bind_some _ _ _ tt _ (put_prev_run node _ _ Hn0)).
    rewrite (bind_some _ _ _ tt _ (put_prev_run h node _ Hh0)).
    rewrite (set_head_run l _ h node) by (rewrite !head_of_set_links; exact Hh).
    reflexivity.
Qed.

(** X10: [list_push_front] keeps a list well formed.  On a list variable
    that holds a well-formed list [xs] (the head's [prev] is the tail,
    the tail's [next] is null) and a non-null node that is not in it,
    the call returns, the variable holds the node, and the list is
    [node :: xs]; nothing but the link words changes and only those of
    the node and the old head. *)
Theorem list_push_front_keeps_list
  (l : list_t) (node : Z) (s : State) (h : Z) (xs : list Z) :
  head_of l s = Some h -> is_list (links s) h xs ->
  node <> 0 -> node ∉ xs ->
  exists s',
    list_push_front l node s = Some (tt, s')
    /\ head_of l s' = Some node
    /\ is_list (links s') node (node :: xs)
    /\ (forall a, a <> node -> a <> h -> links s' !! a = links s !! a)
    /\ hbs s' = hbs s /\ lbs s' = lbs s /\ sas s' = sas s /\ las s' = las s
    /\ trace s' = trace s.
Proof.
  intros Hh Hlist Hn0 Hnin.
  exists (with_head l node (set_links (push_links h node) s)).
  split; [apply list_push_front_run; assumption|].
  split; [apply (head_of_with_head _ _ h); rewrite head_of_set_links; exact Hh|].
  rewrite links_with_head. cbn [links set_links].
  split; [apply push_links_list; assumption|].
  split.
  { intros a Han Hah. unfold push_links, write_prev, write_next.
    destruct (h =? 0); cbv zeta; rewrite ?lookup_insert_ne by congruence; reflexivity. }
  destruct l as [k|ta|ta|ta]; simpl; try destruct (tas s !! ta); repeat split; reflexivity.
Qed.

Lemma two_blocks_list :
  is_list (links two_blocks) (2 ^ 30) [2 ^ 30; 2 ^ 30 + 2 ^ 27].
Proof.
  split; [reflexivity|]. split.
  - apply NoDup_cons. split; [|apply NoDup_singleton].
    intros H. apply list_elem_of_singleton in H. vm_compute in H. discriminate.
  - simpl. repeat split; try (vm_compute; congruence).
Qed.

Lemma list_push_front_keeps_list_witness :
  exists s',
    list_push_front (ShardList 0) (2 ^ 31) two_blocks = Some (tt, s')
    /\ is_list (links s') (2 ^ 31) [2 ^ 31; 2 ^ 30; 2 ^ 30 + 2 ^ 27].
Proof.
  destruct (list_push_front_keeps_list (ShardList 0) (2 ^ 31) two_blocks (2 ^ 30)
              [2 ^ 30; 2 ^ 30 + 2 ^ 27] eq_refl two_blocks_list)
    as (s' & Hrun & _ & Hl & _).
  - discriminate.
  - intros H. apply elem_of_cons in H. destruct H as [H|H]; [discriminate H|].
    apply list_elem_of_singleton in H. discriminate H.
  - exists s'. split; [exact Hrun|exact Hl].
Defined.

Lemma head_back_links_list m h y rest :
  is_list m h (h :: y :: rest) ->
  is_list (head_back_links h m) y ((y :: rest) ++ [h]).
Proof.
  intros (_ & Hnd & Hseg).
  rewrite last_cons_default in Hseg.
  destruct (last (y :: rest)) as [T|] eqn:HT; [|apply last_None in HT; discriminate].
  cbn [default] in Hseg. destruct Hseg as (Hh0 & Hlh & Hrest).
  apply NoDup_cons in Hnd. destruct Hnd as [Hhin Hnd].
  assert (HTin : T ∈ y :: rest) by (apply last_Some_elem_of; exact HT).
  assert (HTh : T <> h) by (intros ->; contradiction).
  unfold head_back_links. rewrite Hlh. cbn [prev].
  split; [reflexivity|]. split.
  { apply NoDup_app. split; [exact Hnd|]. split; [|apply NoDup_singleton].
    intros a Ha Hin. apply list_elem_of_singleton in Hin. subst a. contradiction. }
  rewrite last_snoc. cbn [default]. apply seg_app. split.
  - simpl hd. apply (seg_frame (write_next T h m)).
    + intros a Ha. rewrite link_at_write_next, decide_False; [reflexivity|].
      intros ->. contradiction.
    + apply (seg_set_end m h (y :: rest) 0 h T);
        [discriminate|exact Hnd|exact HT|exact Hrest].
  - rewrite HT. cbn [default]. simpl. split; [exact Hh0|]. split; [|exact I].
    rewrite link_at_write_next, decide_True by reflexivity.
    rewrite link_at_write_next, decide_False by exact HTh. rewrite Hlh. reflexivity.
Qed.

Lemma list_move_head_back_run l s h :
  head_of l s = Some h -> h <> 0 -> prev (link_at (links s) h) <> 0 ->
  list_move_head_back l s
  = Some (tt, with_head l (next (link_at (links s) h))
                (set_links (head_back_links h) s)).
Proof.
  intros Hh Hh0 Hp0. unfold list_move_head_back.
  rewrite (bind_some _ _ s h s (get_head_run l s h Hh)).
  rewrite (bind_some _ _ s _ s (get_next_run h s Hh0)).
  rewrite (bind_some _ _ s _ s (get_prev_run h s Hh0)).
  rewrite (bind_some _ _ s tt _ (put_next_run _ h s Hp0)).
  rewrite (bind_some _ _ _ tt _ (put_next_run h 0 _ Hh0)).
  rewrite (set_head_run l _ h _) by (rewrite !head_of_set_links; exact Hh).
  reflexivity.
Qed.

(** X11: [list_move_head_back] rotates a well-formed list of at least
    two nodes: the second node becomes the head and the old head the
    tail, the order of the others is kept. *)
Theorem list_move_head_back_rotates
  (l : list_t) (s : State) (h y : Z) (rest : list Z) :
  head_of l s = Some h -> is_list (links s) h (h :: y :: rest) ->
  exists s',
    list_move_head_back l s = Some (tt, s')
    /\ head_of l s' = Some y
    /\ is_list (links s') y (y :: rest ++ [h])
    /\ hbs s' = hbs s /\ lbs s' = lbs s /\ sas s' = sas s /\ las s' = las s
    /\ trace s' = trace s.
Proof.
  intros Hh Hlist.
  pose proof Hlist as (_ & Hnd & Hseg).
  rewrite last_cons_default in Hseg.
  destruct (last (y :: rest)) as [T|] eqn:HT; [|apply last_None in HT; discriminate].
  cbn [default] in Hseg. destruct Hseg as (Hh0 & Hlh & Hrest).
  assert (HT0 : T <> 0).
  { apply (seg_nonzero _ _ _ _ T Hrest). apply last_Some_elem_of. exact HT. }
  exists (with_head l y (set_links (head_back_links h) s)).
  split.
  { rewrite (list_move_head_back_run l s h Hh Hh0) by (rewrite Hlh; exact HT0).
    rewrite Hlh. reflexivity. }
  split; [apply (head_of_with_head _ _ h); rewrite head_of_set_links; exact Hh|].
  rewrite links_with_head. cbn [links set_links].
  split; [apply (head_back_links_list _ _ _ _ Hlist)|].
  destruct l as [k|ta|ta|ta]; simpl; try destruct (tas s !! ta); repeat split; reflexivity.
Qed.

Lemma list_move_head_back_rotates_witness :
  exists s',
    list_move_head_back (ShardList 0) two_blocks = Some (tt, s')
    /\ head_of (ShardList 0) s' = Some (2 ^ 30 + 2 ^ 27)
    /\ is_list (links s') (2 ^ 30 + 2 ^ 27) [2 ^ 30 + 2 ^ 27; 2 ^ 30].
Proof.
  destruct (list_move_head_back_rotates (ShardList 0) two_blocks (2 ^ 30)
              (2 ^ 30 + 2 ^ 27) [] eq_refl two_blocks_list)
    as (s' & Hrun & Hhd & Hl & _).
  exists s'. split; [exact Hrun|]. split; [exact Hhd|exact Hl].
Defined.

Lemma move_front_links_eq m h node N A :
  h <> 0 -> node <> h -> node <> A -> N <> 0 ->
  link_at m node = mkLink N A ->
  move_front_links h node m = push_links h node (erase_links h node m).
Proof.
  intros Hh Hnh HnA HN Hl. unfold move_front_links, erase_links. rewrite Hl. cbn [next prev].
  fold (write_next A N m).
  assert (Hl1 : link_at (write_next A N m) node = mkLink N A).
  { rewrite link_at_write_next, decide_False by congruence. exact Hl. }
  rewrite Hl1. cbn [next prev].
  rewrite (proj2 (Z.eqb_neq N 0) HN).
  fold (write_prev N A (write_next A N m)).
  set (m2 := write_prev N A (write_next A N m)).
  unfold push_links. rewrite (proj2 (Z.eqb_neq h 0) Hh).
  cbv zeta. unfold write_prev, write_next. apply map_eq. intros b.
  rewrite !lookup_insert. unfold link_at. rewrite !lookup_insert.
  repeat (destruct (decide _); simpl; try congruence).
Qed.

Lemma list_move_front_run l node s h :
  head_of l s = Some h -> h <> 0 -> node <> h -> node <> 0 ->
  prev (link_at (links s) node) <> 0 ->
  prev (link_at (links s) node) <> node ->
  next (link_at (links s) node) <> 0 ->
  list_move_front l node s
  = Some (tt, with_head l node (set_links (move_front_links h node) s)).
Proof.
  intros Hh Hh0 Hnh Hn0 HA0 HAn HN0. unfold list_move_front.
  rewrite (bind_some _ _ s h s (get_head_run l s h Hh)).
  rewrite (proj2 (Z.eqb_neq node h) Hnh).
  rewrite (bind_some _ _ s _ s (get_prev_run node s Hn0)).
  rewrite (bind_some _ _ s _ s (get_next_run node s Hn0)).
  rewrite (bind_some _ _ s tt _ (put_next_run _ _ s HA0)).
  set (s1 := set_links _ s).
  rewrite (bind_some _ _ s1 _ s1 (get_next_run node s1 Hn0)).
  rewrite (bind_some _ _ s1 _ s1 (get_prev_run node s1 Hn0)).
  assert (Hl1 : link_at (links s1) node = link_at (links s) node).
  { subst s1. cbn [links set_links]. rewrite link_at_insert, decide_False by exact HAn.
    reflexivity. }
  assert (Hnn : next (link_at (links s1) node) <> 0) by (rewrite Hl1; exact HN0).
  rewrite (bind_some _ _ s1 tt _ (put_prev_run _ _ s1 Hnn)).
  set (s2 := set_links _ s1).
  rewrite (bind_some _ _ s2 _ s2 (get_prev_run h s2 Hh0)).
  rewrite (bind_some _ _ s2 tt _ (put_prev_run node _ s2 Hn0)).
  rewrite (bind_some _ _ _ tt _ (put_next_run node h _ Hn0)).
  rewrite (bind_some _ _ _ tt _ (put_prev_run h node _ Hh0)).
  rewrite (set_head_run l _ h node) by (rewrite !head_of_set_links; exact Hh).
  subst s2 s1. reflexivity.
Qed.

Lemma list_move_front_tail_stuck l node s h :
  head_of l s = Some h -> node <> h -> node <> 0 ->
  prev (link_at (links s) node) <> 0 ->
  prev (link_at (links s) node) <> node ->
  next (link_at (links s) node) = 0 ->
  list_move_front l node s = None.
Proof.
  intros Hh Hnh Hn0 HA0 HAn HN0. unfold list_move_front.
  rewrite (bind_some _ _ s h s (get_head_run l s h Hh)).
  rewrite (proj2 (Z.eqb_neq node h) Hnh).
  rewrite (bind_some _ _ s _ s (get_prev_run node s Hn0)).
  rewrite (bind_some _ _ s _ s (get_next_run node s Hn0)).
  rewrite (bind_some _ _ s tt _ (put_next_run _ _ s HA0)).
  set (s1 := set_links _ s).
  rewrite (bind_some _ _ s1 _ s1 (get_next_run node s1 Hn0)).
  rewrite (bind_some _ _ s1 _ s1 (get_prev_run node s1 Hn0)).
  assert (Hl1 : link_at (links s1) node = link_at (links s) node).
  { subst s1. cbn [links set_links]. rewrite link_at_insert, decide_False by exact HAn.
    reflexivity. }
  rewrite Hl1, HN0. apply bind_none. reflexivity.
Qed.

(** X12: [list_move_front] on a well-formed list.  The head is left
    where it is; a node that is neither head nor tail becomes the head
    and the others keep their order; on the tail the function
    dereferences the null [next] of the node and does not return (its
    comment asks for a non-tailing node, and its callers never pass the
    tail). *)
Theorem list_move_front_on_list
  (l : list_t) (s : State) (h node : Z) (pre post : list Z) :
  head_of l s = Some h -> is_list (links s) h (pre ++ node :: post) ->
  (pre = [] -> list_move_front l node s = Some (tt, s))
  /\ (pre <> [] -> post <> [] ->
      exists s',
        list_move_front l node s = Some (tt, s')
        /\ head_of l s' = Some node
        /\ is_list (links s') node (node :: pre ++ post)
        /\ hbs s' = hbs s /\ lbs s' = lbs s /\ sas s' = sas s /\ las s' = las s
        /\ trace s' = trace s)
  /\ (pre <> [] -> post = [] -> list_move_front l node s = None).
Proof.
  intros Hh Hlist. split; [|split].
  - intros ->. destruct Hlist as (Hl & _). simpl in Hl. subst h.
    unfold list_move_front.
    rewrite (bind_some _ _ s node s (get_head_run l s node Hh)).
    rewrite Z.eqb_refl. reflexivity.
  - intros Hpre Hpost.
    destruct (is_list_split _ h pre node post Hpre Hlist)
      as (h0 & pre0 & A & Hpre_eq & Hh_eq & HA & Hnd1 & Hnd2 & Hdisj & Hseg & Hn0 & Hlink & Hpostseg).
    subst h0.
    assert (HAin : A ∈ pre) by (apply last_Some_elem_of; exact HA).
    assert (HA0 : A <> 0) by (apply (seg_nonzero _ _ _ _ A Hseg HAin)).
    assert (HAn : A <> node) by (intros ->; apply (Hdisj node HAin); left).
    assert (Hhin : h ∈ pre) by (rewrite Hpre_eq; left).
    assert (Hnh : node <> h) by (intros ->; apply (Hdisj h Hhin); left).
    assert (Hh0 : h <> 0) by (apply (seg_nonzero _ _ _ _ h Hseg Hhin)).
    destruct post as [|b post']; [done|].
    assert (Hb0 : b <> 0) by (destruct Hpostseg as [Hb _]; exact Hb).
    exists (with_head l node (set_links (move_front_links h node) s)).
    split.
    { apply list_move_front_run; try assumption; rewrite Hlink; cbn; assumption. }
    split; [apply (head_of_with_head _ _ h); rewrite head_of_set_links; exact Hh|].
    rewrite links_with_head. cbn [links set_links].
    split.
    { rewrite (move_front_links_eq _ h node b A Hh0 Hnh) by (congruence || exact Hlink).
      apply push_links_list.
      - apply erase_links_list; assumption.
      - exact Hn0.
      - intros Hin. apply elem_of_app in Hin. destruct Hin as [Hin|Hin].
        + apply (Hdisj node Hin). left.
        + apply NoDup_cons in Hnd2. destruct Hnd2 as [Hnin _]. contradiction. }
    destruct l as [k|ta|ta|ta]; simpl; try destruct (tas s !! ta); repeat split; reflexivity.
  - intros Hpre ->.
    destruct (is_list_split _ h pre node [] Hpre Hlist)
      as (h0 & pre0 & A & Hpre_eq & Hh_eq & HA & Hnd1 & Hnd2 & Hdisj & Hseg & Hn0 & Hlink & _).
    subst h0.
    assert (HAin : A ∈ pre) by (apply last_Some_elem_of; exact HA).
    assert (HA0 : A <> 0) by (apply (seg_nonzero _ _ _ _ A Hseg HAin)).
    assert (HAn : A <> node) by (intros ->; apply (Hdisj node HAin); left).
    assert (Hhin : h ∈ pre) by (rewrite Hpre_eq; left).
    assert (Hnh : node <> h) by (intros ->; apply (Hdisj h Hhin); left).
    apply (list_move_front_tail_stuck l node s h); try assumption;
      rewrite Hlink; cbn; assumption || reflexivity.
Qed.

Lemma list_move_front_on_list_witness :
  list_move_front (ShardList 0) (2 ^ 30 + 2 ^ 27) two_blocks = None
  /\ list_move_front (ShardList 0) (2 ^ 30) two_blocks = Some (tt, two_blocks).
Proof.
  split.
  - destruct (list_move_front_on_list (ShardList 0) two_blocks (2 ^ 30) (2 ^ 30 + 2 ^ 27)
                [2 ^ 30] [] eq_refl two_blocks_list) as (_ & _ & Hstuck).
    apply Hstuck; [discriminate|reflexivity].
  - destruct (list_move_front_on_list (ShardList 0) two_blocks (2 ^ 30) (2 ^ 30)
                [] [2 ^ 30 + 2 ^ 27] eq_refl two_blocks_list) as (Hhead & _).
    apply Hhead. reflexivity.
Defined.

Lemma list_erase_run_any l h pre node post s :
  head_of l s = Some h -> pre <> [] ->
  is_list (links s) h (pre ++ node :: post) ->
  list_erase l node s = Some (tt, set_links (erase_links h node) s).
Proof.
  intros Hk Hne Hlist.
  destruct (is_list_split _ h pre node post Hne Hlist)
    as (h0 & pre0 & A & -> & <- & HA & Hnd1 & Hnd2 & Hdisj & Hpre & Hn0 & Hlink & Hpost).
  assert (HAin : A ∈ h :: pre0) by (apply last_Some_elem_of; exact HA).
  assert (HA0 : A <> 0) by (apply (seg_nonzero _ _ _ _ A Hpre HAin)).
  assert (HAn : A <> node).
  { intros ->. apply (Hdisj node HAin). left. }
  assert (Hh0 : h <> 0) by (apply (seg_nonzero _ _ _ _ h Hpre); left).
  unfold list_erase.
  rewrite (bind_some _ _ s _ s (get_prev_run node s Hn0)).
  rewrite (bind_some _ _ s _ s (get_next_run node s Hn0)).
  rewrite Hlink. cbn [next prev].
  rewrite (bind_some _ _ s _ _ (put_next_run A _ s HA0)).
  set (s1 := set_links _ s).
  rewrite (bind_some _ _ s1 _ s1 (get_next_run node s1 Hn0)).
  assert (Hl1 : link_at (links s1) node = mkLink (hd 0 post) A).
  { subst s1. cbn [links set_links]. rewrite link_at_insert, decide_False by exact HAn.
    exact Hlink. }
  rewrite Hl1. cbn [next prev].
  assert (Hx : exists x, (if hd 0 post =? 0 then h else hd 0 post) = x /\ x <> 0
            /\ (if hd 0 post =? 0 then get_head l else mret (hd 0 post)) s1
               = Some (x, s1)).
  { destruct (Z.eqb_spec (hd 0 post) 0) as [Hz|Hnz].
    - exists h. split; [reflexivity|]. split; [exact Hh0|].
      apply get_head_run. subst s1. rewrite head_of_set_links. exact Hk.
    - exists (hd 0 post). split; [reflexivity|]. split; [exact Hnz|reflexivity]. }
  destruct Hx as (x & Hxeq & Hx0 & Hxrun).
  rewrite (bind_some _ _ s1 _ s1 Hxrun).
  rewrite (bind_some _ _ s1 _ s1 (get_prev_run node s1 Hn0)).
  rewrite Hl1. cbn [prev].
  rewrite (put_prev_run x A s1 Hx0).
  subst s1. do 2 f_equal. unfold set_links.
  cbn [links hbs lbs las sas tas shards tls g_alloc_id held trace os]. f_equal.
  unfold erase_links. rewrite Hlink. cbn [next prev].
  cbn [links set_links] in Hl1. rewrite Hl1. cbn [next prev].
  rewrite Hxeq. reflexivity.
Qed.

(** X13: [list_erase] takes a node that is not the head out of a
    well-formed list, for every list variable (the shard's and the three
    of a ThreadAlloc): the variable and the order of the remaining nodes
    are unchanged, the list stays well formed, and the link words of the
    erased node itself are not written. *)
Theorem list_erase_removes_node
  (l : list_t) (s : State) (h node : Z) (pre post : list Z) :
  head_of l s = Some h -> is_list (links s) h (pre ++ node :: post) ->
  pre <> [] ->
  exists s',
    list_erase l node s = Some (tt, s')
    /\ head_of l s' = Some h
    /\ is_list (links s') h (pre ++ post)
    /\ links s' !! node = links s !! node
    /\ hbs s' = hbs s /\ lbs s' = lbs s /\ sas s' = sas s /\ las s' = las s
    /\ tas s' = tas s /\ shards s' = shards s /\ trace s' = trace s.
Proof.
  intros Hh Hlist Hpre.
  exists (set_links (erase_links h node) s).
  split; [apply (list_erase_run_any l h pre node post); assumption|].
  split; [rewrite head_of_set_links; exact Hh|].
  cbn [links set_links].
  split; [apply erase_links_list; assumption|].
  split; [|repeat split; reflexivity].
  destruct (is_list_split _ h pre node post Hpre Hlist)
    as (h0 & pre0 & A & Hpre_eq & Hh_eq & HA & Hnd1 & Hnd2 & Hdisj & Hseg & Hn0 & Hlink & Hpost).
  subst h0.
  assert (HAin : A ∈ pre) by (apply last_Some_elem_of; exact HA).
  assert (HAn : A <> node) by (intros ->; apply (Hdisj node HAin); left).
  assert (Hhin : h ∈ pre) by (rewrite Hpre_eq; left).
  assert (Hnh : h <> node) by (intros ->; apply (Hdisj node Hhin); left).
  unfold erase_links. rewrite Hlink. cbn [next prev].
  rewrite link_at_insert, decide_False by exact HAn. rewrite Hlink. cbn [next prev].
  rewrite lookup_insert_ne.
  - rewrite lookup_insert_ne by exact HAn. reflexivity.
  - destruct (Z.eqb_spec (hd 0 post) 0) as [_|Hnz]; [exact Hnh|].
    destruct post as [|b post']; [simpl in Hnz; congruence|]. simpl.
    apply NoDup_cons in Hnd2. destruct Hnd2 as [Hnin _].
    intros ->. apply Hnin. left.
Qed.

Lemma list_erase_removes_node_witness :
  exists s',
    list_erase (ShardList 0) (2 ^ 30 + 2 ^ 27) two_blocks = Some (tt, s')
    /\ is_list (links s') (2 ^ 30) [2 ^ 30].
Proof.
  destruct (list_erase_removes_node (ShardList 0) two_blocks (2 ^ 30) (2 ^ 30 + 2 ^ 27)
              [2 ^ 30] [] eq_refl two_blocks_list ltac:(discriminate))
    as (s' & Hrun & _ & Hl & _).
  exists s'. split; [exact Hrun|exact Hl].
Defined.

(** ** Huge blocks from the VM layer *)

Lemma align_up_pow2 k x :
  0 <= k -> align_up (Z.shiftl 1 k) x = 2 ^ k * ((x + (2 ^ k - 1)) / 2 ^ k).
Proof.
  intros Hk. unfold align_up. rewrite Z.shiftl_1_l.
  replace (2 ^ k - 1) with (Z.ones k) by (rewrite Z.ones_equiv; lia).
  rewrite <- Z.ldiff_land, Z.ldiff_ones_r by exact Hk.
  rewrite Z.shiftl_mul_pow2, Z.shiftr_div_pow2 by exact Hk. lia.
Qed.


Lemma ask_run s x rest :
  os s = x :: rest -> ask s = Some (x, set_os (fun _ => rest) s).
Proof. intros H. unfold ask. rewrite H. reflexivity. Qed.





(** ** The shard mutexes *)

Lemma bind_inv {A B} (m : M A) (f : A -> M B) s y s' :
  (m ≫= f) s = Some (y, s') ->
  exists x s1, m s = Some (x, s1) /\ f x s1 = Some (y, s').
Proof.
  unfold mbind, M_bind. destruct (m s) as [[x s1]|]; [|discriminate].
  intros H. exists x, s1. split; [reflexivity|exact H].
Qed.

Section Keeps.
Context {X : Type} (f : State -> X).

Lemma keeps_ret {A} (x : A) : keeps f (mret x).
Proof. intros s y s' [= _ <-]. reflexivity. Qed.

Lemma keeps_bind {A B} (m : M A) (k : A -> M B) :
  keeps f m -> (forall x, keeps f (k x)) -> keeps f (m ≫= k).
Proof.
  intros Hm Hk s y s' H. apply bind_inv in H. destruct H as (x & s1 & H1 & H2).
  rewrite (Hk x s1 y s' H2). exact (Hm s x s1 H1).
Qed.

Lemma keeps_stuck {A} : keeps f (@stuck A).
Proof. intros s y s' H. discriminate H. Qed.

Lemma keeps_gets {A} (g : State -> A) : keeps f (gets g).
Proof. intros s y s' [= _ <-]. reflexivity. Qed.

Lemma keeps_deref {A} (g : State -> option A) : keeps f (deref g).
Proof.
  intros s y s' H. unfold deref in H. destruct (g s); [|discriminate H].
  injection H as _ <-. reflexivity.
Qed.

Lemma keeps_modify (g : State -> State) :
  (forall s, f (g s) = f s) -> keeps f (modify g).
Proof. intros Hg s y s' [= _ <-]. apply Hg. Qed.

Lemma keeps_when (b : bool) (c : M unit) : keeps f c -> keeps f (when b c).
Proof. intros Hc. destruct b; [exact Hc|apply keeps_ret]. Qed.

Lemma keeps_and_then (b : bool) (c : M bool) : keeps f c -> keeps f (and_then b c).
Proof. intros Hc. destruct b; [exact Hc|apply keeps_ret]. Qed.
End Keeps.

(** one step of a proof that a computation keeps [held] *)
Ltac keeps_step :=
  first
    [ apply keeps_ret
    | apply keeps_stuck
    | apply keeps_gets
    | apply keeps_deref
    | (apply keeps_modify; intros ?; reflexivity)
    | (apply keeps_bind; [|intros ?])
    | apply keeps_when
    | apply keeps_and_then
    | match goal with
      | |- keeps _ (if ?b then _ else _) => destruct b
      | |- keeps _ (match ?x with _ => _ end) => destruct x
      end
    | assumption ].

Ltac keeps_held := repeat keeps_step.

Lemma held_emit e : keeps held (emit e).
Proof. unfold emit. keeps_held. Qed.

Lemma held_ask : keeps held ask.
Proof.
  intros s x s' H. unfold ask in H. destruct (os s); injection H as _ <-; reflexivity.
Qed.

Lemma held_vm_reserve n : keeps held (_vm_reserve n).
Proof. unfold _vm_reserve. pose proof held_ask. pose proof held_emit. keeps_held. Qed.

Lemma held_vm_commit p n : keeps held (_vm_commit p n).
Proof. unfold _vm_commit. pose proof held_emit. keeps_held. Qed.

Lemma held_vm_decommit p n : keeps held (_vm_decommit p n).
Proof. unfold _vm_decommit. pose proof held_emit. keeps_held. Qed.

Lemma held_vm_free p n : keeps held (_vm_free p n).
Proof. unfold _vm_free. pose proof held_emit. keeps_held. Qed.

Lemma held_sys_malloc n : keeps held (sys_malloc n).
Proof. unfold sys_malloc. pose proof held_ask. pose proof held_emit. keeps_held. Qed.

Lemma held_get_head l : keeps held (get_head l).
Proof. unfold get_head, get_ta. destruct l; keeps_held. Qed.

Lemma held_set_head l v : keeps held (set_head l v).
Proof. unfold set_head, get_ta. destruct l; keeps_held. Qed.

Lemma held_get_next a : keeps held (get_next a).
Proof. unfold get_next. keeps_held. Qed.

Lemma held_get_prev a : keeps held (get_prev a).
Proof. unfold get_prev. keeps_held. Qed.

Lemma held_put_next a v : keeps held (put_next a v).
Proof. unfold put_next. keeps_held. Qed.

Lemma held_put_prev a v : keeps held (put_prev a v).
Proof. unfold put_prev. keeps_held. Qed.

Create HintDb held_db.

#[local] Hint Resolve held_emit held_ask held_vm_reserve held_vm_commit
  held_vm_decommit held_vm_free held_sys_malloc held_get_head held_set_head
  held_get_next held_get_prev held_put_next held_put_prev : held_db.

Ltac keeps_held_db := repeat first [solve [auto with held_db] | keeps_step].

Lemma held_list_push_front l node : keeps held (list_push_front l node).
Proof. unfold list_push_front. keeps_held_db. Qed.

Lemma held_list_move_front l node : keeps held (list_move_front l node).
Proof. unfold list_move_front. keeps_held_db. Qed.

Lemma held_list_move_head_back l : keeps held (list_move_head_back l).
Proof. unfold list_move_head_back. keeps_held_db. Qed.

Lemma held_list_erase l node : keeps held (list_erase l node).
Proof. unfold list_erase. keeps_held_db. Qed.

#[local] Hint Resolve held_list_push_front held_list_move_front
  held_list_move_head_back held_list_erase : held_db.

Lemma held_try_loop {A} (body : Z -> M (option A)) h n :
  (forall k, keeps held (body k)) -> forall k, keeps held (try_loop body h n k).
Proof.
  intros Hb. induction n as [|n IH]; intros k; simpl; keeps_held_db.
Qed.

Lemma held_try_alloc {A} l n (body : Z -> M (option A)) :
  (forall k, keeps held (body k)) -> keeps held (_try_alloc l n body).
Proof.
  intros Hb. unfold _try_alloc. keeps_held_db. apply held_try_loop. exact Hb.
Qed.

Lemma held_at_least_two {A} l (body : M (option A)) :
  keeps held body -> keeps held (at_least_two l body).
Proof. intros Hb. unfold at_least_two. keeps_held_db. Qed.

(** the same, going through the scans before the binds they unfold to *)
Ltac keeps_held_scan :=
  repeat first
    [ solve [auto with held_db]
    | apply held_at_least_two
    | (apply held_try_alloc; intros ?)
    | keeps_step ].

Lemma held_objects :
  (forall hb, keeps held (HugeBlock_alloc_at hb))
  /\ (forall hb p, keeps held (HugeBlock_free_at hb p))
  /\ (forall lb, keeps held (LargeBlock_alloc_at lb))
  /\ (forall lb p, keeps held (LargeBlock_free_at lb p))
  /\ (forall sa u, keeps held (SmallAlloc_alloc sa u))
  /\ (forall sa u, keeps held (SmallAlloc_try_hard_alloc sa u))
  /\ (forall sa p, keeps held (SmallAlloc_free sa p))
  /\ (forall sa p, keeps held (SmallAlloc_xfree sa p))
  /\ (forall la u, keeps held (LargeAlloc_alloc la u))
  /\ (forall la u, keeps held (LargeAlloc_try_hard_alloc la u))
  /\ (forall la p, keeps held (LargeAlloc_free la p))
  /\ (forall la p, keeps held (LargeAlloc_xfree la p)).
Proof.
  repeat split; intros;
    unfold HugeBlock_alloc_at, HugeBlock_free_at, LargeBlock_alloc_at,
      LargeBlock_free_at, SmallAlloc_alloc, SmallAlloc_try_hard_alloc,
      SmallAlloc_free, SmallAlloc_xfree, LargeAlloc_alloc,
      LargeAlloc_try_hard_alloc, LargeAlloc_free, LargeAlloc_xfree;
    keeps_held.
Qed.

Lemma held_HugeBlock_alloc_at hb : keeps held (HugeBlock_alloc_at hb).
Proof. apply held_objects. Qed.
Lemma held_HugeBlock_free_at hb p : keeps held (HugeBlock_free_at hb p).
Proof. apply held_objects. Qed.
Lemma held_LargeBlock_alloc_at lb : keeps held (LargeBlock_alloc_at lb).
Proof. apply held_objects. Qed.
Lemma held_LargeBlock_free_at lb p : keeps held (LargeBlock_free_at lb p).
Proof. apply held_objects. Qed.
Lemma held_SmallAlloc_alloc sa u : keeps held (SmallAlloc_alloc sa u).
Proof. apply held_objects. Qed.
Lemma held_SmallAlloc_try_hard_alloc sa u : keeps held (SmallAlloc_try_hard_alloc sa u).
Proof. apply held_objects. Qed.
Lemma held_SmallAlloc_free sa p : keeps held (SmallAlloc_free sa p).
Proof. apply held_objects. Qed.
Lemma held_SmallAlloc_xfree sa p : keeps held (SmallAlloc_xfree sa p).
Proof. apply held_objects. Qed.
Lemma held_LargeAlloc_alloc la u : keeps held (LargeAlloc_alloc la u).
Proof. apply held_objects. Qed.
Lemma held_LargeAlloc_try_hard_alloc la u : keeps held (LargeAlloc_try_hard_alloc la u).
Proof. apply held_objects. Qed.
Lemma held_LargeAlloc_free la p : keeps held (LargeAlloc_free la p).
Proof. apply held_objects. Qed.
Lemma held_LargeAlloc_xfree la p : keeps held (LargeAlloc_xfree la p).
Proof. apply held_objects. Qed.

#[local] Hint Resolve held_HugeBlock_alloc_at held_HugeBlock_free_at
  held_LargeBlock_alloc_at held_LargeBlock_free_at held_SmallAlloc_alloc
  held_SmallAlloc_try_hard_alloc held_SmallAlloc_free held_SmallAlloc_xfree
  held_LargeAlloc_alloc held_LargeAlloc_try_hard_alloc held_LargeAlloc_free
  held_LargeAlloc_xfree : held_db.

Lemma held_g_thread_alloc tid : keeps held (g_thread_alloc tid).
Proof. unfold g_thread_alloc. keeps_held. Qed.

#[local] Hint Resolve held_g_thread_alloc : held_db.

Lemma held_make_small_alloc tid lb : keeps held (make_small_alloc tid lb).
Proof. unfold make_small_alloc. keeps_held_db. Qed.

Lemma held_make_huge_block : keeps held make_huge_block.
Proof. unfold make_huge_block. keeps_held_db. Qed.

#[local] Hint Resolve held_make_small_alloc held_make_huge_block : held_db.

Lemma held_GlobalAlloc_alloc_locked k : keeps held (GlobalAlloc_alloc_locked k).
Proof.
  unfold GlobalAlloc_alloc_locked. keeps_held_scan.
Qed.

Lemma held_GlobalAlloc_free_locked k p hb : keeps held (GlobalAlloc_free_locked k p hb).
Proof. unfold GlobalAlloc_free_locked. keeps_held_db. Qed.

(** a computation run between [lock k] and [unlock k] *)
Lemma held_locked {A B} (k : Z) (body : M A) (after : A -> M B) :
  keeps held body -> (forall r, keeps held (after r)) ->
  keeps held (lock k ;; r ← body; unlock k ;; after r).
Proof.
  intros Hbody Hafter s y s' H.
  apply bind_inv in H. destruct H as ([] & s1 & Hlock & H).
  apply bind_inv in H. destruct H as (r & s2 & Hb & H).
  apply bind_inv in H. destruct H as ([] & s3 & Hunlock & H).
  unfold lock in Hlock. apply bind_inv in Hlock.
  destruct Hlock as (hs & s0 & Hg & Hlock). injection Hg as <- <-.
  destruct (bool_decide (k ∈ held s)) eqn:Hk; [discriminate Hlock|].
  apply bool_decide_eq_false in Hk.
  injection Hlock as <-. rewrite unlock_run in Hunlock. injection Hunlock as <-.
  rewrite (Hafter r _ y s' H). cbn [held set_held set_trace].
  rewrite (Hbody _ r s2 Hb). cbn [held set_held set_trace].
  apply filter_held_id. exact Hk.
Qed.

Lemma held_GlobalAlloc_alloc alloc_id : keeps held (GlobalAlloc_alloc alloc_id).
Proof.
  unfold GlobalAlloc_alloc. cbv zeta. apply held_locked.
  - apply held_GlobalAlloc_alloc_locked.
  - intros r. keeps_held_db.
Qed.

Lemma held_GlobalAlloc_free p hb alloc_id : keeps held (GlobalAlloc_free p hb alloc_id).
Proof.
  unfold GlobalAlloc_free. apply keeps_bind; [apply held_vm_decommit|intros _].
  cbv zeta. apply held_locked.
  - apply held_GlobalAlloc_free_locked.
  - intros r. keeps_held_db.
Qed.

#[local] Hint Resolve held_GlobalAlloc_alloc held_GlobalAlloc_free : held_db.

Lemma held_make_large_block alloc_id : keeps held (make_large_block alloc_id).
Proof. unfold make_large_block. keeps_held_db. Qed.

Lemma held_make_large_alloc tid alloc_id : keeps held (make_large_alloc tid alloc_id).
Proof. unfold make_large_alloc. keeps_held_db. Qed.

Lemma held_get_ta ta : keeps held (get_ta ta).
Proof. unfold get_ta. keeps_held. Qed.

#[local] Hint Resolve held_make_large_block held_make_large_alloc held_get_ta : held_db.

Lemma held_small_alloc_slow tid this u : keeps held (small_alloc_slow tid this u).
Proof.
  unfold small_alloc_slow. keeps_held_scan.
Qed.

Lemma held_large_alloc_slow tid this u : keeps held (large_alloc_slow tid this u).
Proof.
  unfold large_alloc_slow. keeps_held_scan.
Qed.

Lemma held_ThreadAlloc_alloc tid this n : keeps held (ThreadAlloc_alloc tid this n).
Proof.
  pose proof (held_small_alloc_slow tid this). pose proof (held_large_alloc_slow tid this).
  unfold ThreadAlloc_alloc. keeps_held_db.
Qed.

Lemma held_ThreadAlloc_free tid this p n : keeps held (ThreadAlloc_free tid this p n).
Proof.
  unfold ThreadAlloc_free, sys_free. keeps_held_db.
Qed.

Lemma held_thread_alloc tid : keeps held (thread_alloc tid).
Proof.
  unfold thread_alloc, ThreadAlloc_new, atomic_inc_g_alloc_id. keeps_held_db.
Qed.

(** X15: no call leaves a shard mutex held.  Whenever
    [GlobalAlloc::alloc], [GlobalAlloc::free], [ThreadAlloc::alloc],
    [ThreadAlloc::free] or the public [alloc]/[free] return, on every
    path (the [goto end] ones included), the set of held mutexes is the
    one the call started with. *)
Theorem no_mutex_left_held (s s' : State) :
  (forall alloc_id r, GlobalAlloc_alloc alloc_id s = Some (r, s') -> held s' = held s)
  /\ (forall p hb alloc_id, GlobalAlloc_free p hb alloc_id s = Some (tt, s') ->
        held s' = held s)
  /\ (forall tid this n r, ThreadAlloc_alloc tid this n s = Some (r, s') ->
        held s' = held s)
  /\ (forall tid this p n, ThreadAlloc_free tid this p n s = Some (tt, s') ->
        held s' = held s)
  /\ (forall tid n r, co_alloc tid n s = Some (r, s') -> held s' = held s)
  /\ (forall tid p n, co_free tid p n s = Some (tt, s') -> held s' = held s).
Proof.
  repeat split; intros.
  - eapply held_GlobalAlloc_alloc; eassumption.
  - eapply held_GlobalAlloc_free; eassumption.
  - eapply held_ThreadAlloc_alloc; eassumption.
  - eapply held_ThreadAlloc_free; eassumption.
  - eapply (keeps_bind held (thread_alloc tid)); [apply held_thread_alloc| |eassumption].
    intros this. apply held_ThreadAlloc_alloc.
  - eapply (keeps_bind held (thread_alloc tid)); [apply held_thread_alloc| |eassumption].
    intros this. apply held_ThreadAlloc_free.
Qed.

Lemma no_mutex_left_held_witness :
  exists r s', co_alloc 7 5000 one_object = Some (r, s') /\ held s' = held one_object.
Proof.
  destruct (co_alloc 7 5000 one_object) as [[r s']|] eqn:E;
    [|vm_compute in E; discriminate E].
  exists r, s'. split; [reflexivity|].
  destruct (no_mutex_left_held one_object s') as (_ & _ & _ & _ & H & _).
  exact (H 7 5000 r E).
Defined.

(** ** ThreadAlloc: unit counts, the fast path, allocation failure *)

Lemma align_up_16 x : align_up 16 x = 16 * ((x + 15) / 16).
Proof. exact (align_up_pow2 4 x ltac:(lia)). Qed.

Lemma align_up_4096 x : align_up 4096 x = 4096 * ((x + 4095) / 4096).
Proof. exact (align_up_pow2 12 x ltac:(lia)). Qed.

Lemma small_units_eq n :
  0 <= n <= 2048 -> small_units n = Z.max 1 ((n + 15) / 16).
Proof.
  intros Hn. unfold small_units.
  destruct (Z.ltb_spec 16 n) as [Hlt|Hge].
  - rewrite (u32_small n) by lia. rewrite align_up_16.
    assert (2 <= (n + 15) / 16 <= 128).
    { split; [apply Z.div_le_lower_bound; lia|].
      apply Z.lt_succ_r, Z.div_lt_upper_bound; lia. }
    rewrite u32_small by lia.
    rewrite Z.shiftr_div_pow2 by lia. change (2 ^ 4) with 16.
    rewrite Z.mul_comm, Z.div_mul by lia. lia.
  - assert ((n + 15) / 16 <= 1).
    { apply Z.lt_succ_r, Z.div_lt_upper_bound; lia. }
    lia.
Qed.

Lemma large_units_eq n :
  0 <= n <= 2 ^ 17 -> large_units n = (n + 4095) / 4096.
Proof.
  intros Hn. unfold large_units.
  rewrite (u32_small n) by lia. rewrite align_up_4096.
  assert (0 <= (n + 4095) / 4096 <= 32).
  { split; [apply Z.div_pos; lia|].
    apply Z.lt_succ_r, Z.div_lt_upper_bound; lia. }
  rewrite u32_small by lia.
  rewrite Z.shiftr_div_pow2 by lia. change (2 ^ 12) with 4096.
  rewrite Z.mul_comm, Z.div_mul by lia. reflexivity.
Qed.

Lemma units_bounds n :
  0 <= n <= g_max_alloc_size ->
  1 <= units n
  /\ units n <= (if n <=? 2048 then 128 else 32)
  /\ n <= units n * slot_size (tier_of n)
  /\ (units n - 1) * slot_size (tier_of n) < Z.max n 1.
Proof.
  change g_max_alloc_size with (2 ^ 17). intros Hn. unfold units, tier_of.
  destruct (Z.leb_spec n 2048) as [Hs|Hl].
  - rewrite small_units_eq by lia. change (slot_size Small) with 16.
    pose proof (Z.div_mod (n + 15) 16 ltac:(lia)).
    pose proof (Z.mod_pos_bound (n + 15) 16 ltac:(lia)).
    lia.
  - rewrite large_units_eq by lia. change (slot_size Large) with 4096.
    pose proof (Z.div_mod (n + 4095) 4096 ltac:(lia)).
    pose proof (Z.mod_pos_bound (n + 4095) 4096 ltac:(lia)).
    lia.
Qed.

(** X16: the unit count [ThreadAlloc::alloc] derives from a size.  For
    every size up to 128 KiB it is the size divided by the slot size of
    the tier (16 bytes up to 2048, 4096 bytes above), rounded up, and 1
    for size 0; so the slots asked for cover the request with less than
    one slot to spare, and the count is at most 128 resp. 32, which a
    sub-allocator with nothing allocated can serve. *)
Theorem units_cover_request (n : Z) :
  0 <= n <= g_max_alloc_size ->
  units n = Z.max 1 ((n + slot_size (tier_of n) - 1) / slot_size (tier_of n))
  /\ n <= units n * slot_size (tier_of n)
  /\ (units n - 1) * slot_size (tier_of n) < Z.max n 1
  /\ 1 <= units n <= MAX_bIT (tier_of n)
  /\ fst (Alloc_alloc (tier_of n) (Alloc_new (tier_of n) 0 0 0) (units n)) <> None.
Proof.
  intros Hn. pose proof (units_bounds n Hn) as (H1 & H2 & H3 & H4).
  assert (Hmax : units n <= MAX_bIT (tier_of n)).
  { unfold tier_of in *. destruct (n <=? 2048).
    - change (MAX_bIT Small) with 2012. lia.
    - change (MAX_bIT Large) with 511. lia. }
  split; [|split; [exact H3|split; [exact H4|split; [lia|]]]].
  - change g_max_alloc_size with (2 ^ 17) in Hn. unfold units, tier_of.
    destruct (Z.leb_spec n 2048) as [Hs|Hl].
    + rewrite small_units_eq by lia. change (slot_size Small) with 16.
      replace (n + 16 - 1) with (n + 15) by lia. reflexivity.
    + rewrite large_units_eq by lia. change (slot_size Large) with 4096.
      replace (n + 4096 - 1) with (n + 4095) by lia.
      assert (1 <= (n + 4095) / 4096) by (apply Z.div_le_lower_bound; lia). lia.
  - rewrite alloc_spec.
    + unfold spec_alloc. rewrite decide_True; [discriminate|].
      destruct (tier_of n); cbn [Alloc_new SmallAlloc_new LargeAlloc_new a_cur_bit]; lia.
    + destruct (tier_of n); cbn [Alloc_new SmallAlloc_new LargeAlloc_new a_cur_bit]; lia.
    + destruct (n <=? 2048); lia.
Qed.

Lemma units_cover_request_witness :
  units 100 = 7 /\ 100 <= units 100 * 16 /\ units 5000 = 2.
Proof.
  destruct (units_cover_request 100 ltac:(vm_compute; split; discriminate))
    as (H1 & H2 & _).
  destruct (units_cover_request 5000 ltac:(vm_compute; split; discriminate))
    as (H3 & _).
  split; [exact H1|]. split; [exact H2|exact H3].
Defined.


Lemma get_head_sa_run s this ta :
  tas s !! this = Some ta -> get_head (SaList this) s = Some (ta_sa ta, s).
Proof. intros H. apply get_head_run. simpl. rewrite H. reflexivity. Qed.

Lemma get_head_la_run s this ta :
  tas s !! this = Some ta -> get_head (LaList this) s = Some (ta_la ta, s).
Proof. intros H. apply get_head_run. simpl. rewrite H. reflexivity. Qed.

Lemma get_head_lb_run s this ta :
  tas s !! this = Some ta -> get_head (LbList this) s = Some (ta_lb ta, s).
Proof. intros H. apply get_head_run. simpl. rewrite H. reflexivity. Qed.

Lemma SmallAlloc_alloc_run s sa a u :
  sas s !! sa = Some a ->
  SmallAlloc_alloc sa u s
  = Some (fst (Alloc_alloc Small a u),
          set_sas (<[sa := snd (Alloc_alloc Small a u)]>) s).
Proof.
  intros H. unfold SmallAlloc_alloc.
  rewrite (bind_some _ _ s a s) by (unfold deref; rewrite H; reflexivity).
  reflexivity.
Qed.

Lemma LargeAlloc_alloc_run s la a u :
  las s !! la = Some a ->
  LargeAlloc_alloc la u s
  = Some (fst (Alloc_alloc Large a u),
          set_las (<[la := snd (Alloc_alloc Large a u)]>) s).
Proof.
  intros H. unfold LargeAlloc_alloc.
  rewrite (bind_some _ _ s a s) by (unfold deref; rewrite H; reflexivity).
  reflexivity.
Qed.

Lemma SmallAlloc_free_run s sa a p :
  sas s !! sa = Some a ->
  SmallAlloc_free sa p s
  = Some (fst (Alloc_free Small a p),
          set_sas (<[sa := snd (Alloc_free Small a p)]>) s).
Proof.
  intros H. unfold SmallAlloc_free.
  rewrite (bind_some _ _ s a s) by (unfold deref; rewrite H; reflexivity).
  reflexivity.
Qed.

Lemma LargeAlloc_free_run s la a p :
  las s !! la = Some a ->
  LargeAlloc_free la p s
  = Some (fst (Alloc_free Large a p),
          set_las (<[la := snd (Alloc_free Large a p)]>) s).
Proof.
  intros H. unfold LargeAlloc_free.
  rewrite (bind_some _ _ s a s) by (unfold deref; rewrite H; reflexivity).
  reflexivity.
Qed.

(** the first attempt of [ThreadAlloc::alloc], on the current
    sub-allocator of the tier *)
Lemma ThreadAlloc_alloc_hit s tid this n ta a p a' :
  0 <= n <= g_max_alloc_size ->
  tas s !! this = Some ta ->
  current (tier_of n) ta <> 0 ->
  sub_allocs (tier_of n) s !! current (tier_of n) ta = Some a ->
  Alloc_alloc (tier_of n) a (units n) = (Some p, a') ->
  ThreadAlloc_alloc tid this n s
  = Some (Some p, set_sub_allocs (tier_of n) (<[current (tier_of n) ta := a']>) s).
Proof.
  intros Hn Hta Hh Ha Hal. unfold ThreadAlloc_alloc, units, tier_of in *.
  destruct (Z.leb_spec n 2048) as [Hs|Hl]; cbn [current sub_allocs set_sub_allocs] in *.
  - cbv zeta. rewrite (bind_some _ _ s _ s (get_head_sa_run s this ta Hta)).
    rewrite (proj2 (Z.eqb_neq _ _) Hh).
    rewrite (bind_some _ _ s _ _ (SmallAlloc_alloc_run s _ a _ Ha)).
    rewrite Hal. reflexivity.
  - rewrite (proj2 (Z.leb_le _ _) (proj2 Hn)).
    cbv zeta. rewrite (bind_some _ _ s _ s (get_head_la_run s this ta Hta)).
    rewrite (proj2 (Z.eqb_neq _ _) Hh).
    rewrite (bind_some _ _ s _ _ (LargeAlloc_alloc_run s _ a _ Ha)).
    rewrite Hal. reflexivity.
Qed.

Lemma units_range n : 0 <= n <= g_max_alloc_size -> 1 <= units n < 2 ^ 31.
Proof.
  intros Hn. pose proof (units_bounds n Hn) as (H1 & H2 & _).
  destruct (n <=? 2048); lia.
Qed.

Lemma alloc_fits t a n :
  0 <= a_cur_bit a -> 0 <= n < 2 ^ 31 -> a_cur_bit a + n <= MAX_bIT t ->
  Alloc_alloc t a n
  = (Some (a_p a + a_cur_bit a * slot_size t),
     set_cur_bit (set_bs a (Bitset_set (a_bs a) (a_cur_bit a))) (a_cur_bit a + n)).
Proof.
  intros Hc Hn Hfit. rewrite alloc_spec by lia.
  unfold spec_alloc. rewrite decide_True by exact Hfit. reflexivity.
Qed.

(** X17: the fast path of [ThreadAlloc::alloc], for every size up to
    128 KiB.  When the thread's current sub-allocator of the tier ([_sa]
    up to 2048 bytes, [_la] above) has the slots left, the call returns
    the address under its cursor and changes nothing but that one
    sub-allocator - its bit at the cursor and the cursor; no list, no
    block and no ThreadAlloc field is written, no mutex is taken and the
    system is not called. *)
Theorem alloc_fast_path (s : State) (tid this n : Z) (ta : ThreadAlloc) (a : Alloc) :
  0 <= n <= g_max_alloc_size ->
  tas s !! this = Some ta ->
  current (tier_of n) ta <> 0 ->
  sub_allocs (tier_of n) s !! current (tier_of n) ta = Some a ->
  0 <= a_cur_bit a -> a_cur_bit a + units n <= MAX_bIT (tier_of n) ->
  exists s',
    ThreadAlloc_alloc tid this n s
    = Some (Some (a_p a + a_cur_bit a * slot_size (tier_of n)), s')
    /\ s' = set_sub_allocs (tier_of n)
              (<[current (tier_of n) ta :=
                   set_cur_bit (set_bs a (Bitset_set (a_bs a) (a_cur_bit a)))
                               (a_cur_bit a + units n)]>) s
    /\ trace s' = trace s /\ held s' = held s /\ os s' = os s
    /\ links s' = links s /\ tas s' = tas s /\ shards s' = shards s
    /\ hbs s' = hbs s /\ lbs s' = lbs s
    /\ sub_allocs (match tier_of n with Small => Large | Large => Small end) s'
       = sub_allocs (match tier_of n with Small => Large | Large => Small end) s.
Proof.
  intros Hn Hta Hh Ha Hc Hfit.
  pose proof (units_range n Hn) as Hu.
  eexists. split.
  - eapply (ThreadAlloc_alloc_hit s tid this n ta a); try eassumption.
    apply alloc_fits; lia.
  - split; [reflexivity|]. destruct s, (tier_of n); repeat split; reflexivity.
Qed.

Lemma alloc_fast_path_witness :
  exists s', ThreadAlloc_alloc 7 1000 100 fresh_thread = Some (Some (2 ^ 15 + 576), s')
             /\ trace s' = [] /\ held s' = [].
Proof.
  destruct (alloc_fast_path fresh_thread 7 1000 100 (mkTA 0 0 (2 ^ 15) 0)
              (Alloc_new Small (2 ^ 15) 0 1000))
    as (s' & Hrun & _ & Htr & Hh & _).
  - vm_compute. split; discriminate.
  - reflexivity.
  - vm_compute. discriminate.
  - reflexivity.
  - vm_compute. discriminate.
  - vm_compute. discriminate.
  - exists s'. split; [exact Hrun|]. split; [exact Htr|exact Hh].
Defined.

Lemma set_sub_allocs_back t s h a a1 :
  sub_allocs t s !! h = Some a ->
  set_sub_allocs t (<[h := a]>) (set_sub_allocs t (<[h := a1]>) s) = s.
Proof.
  intros H. destruct s, t; unfold set_sub_allocs, set_sas, set_las; cbn in *; f_equal;
    rewrite insert_insert_eq; apply insert_id; exact H.
Qed.

Lemma sub_allocs_set t s h a :
  sub_allocs t (set_sub_allocs t (<[h := a]>) s) !! h = Some a.
Proof.
  destruct s, t; unfold set_sub_allocs, set_sas, set_las; cbn; apply lookup_insert_eq.
Qed.

(** [ThreadAlloc::free] of a pointer whose sub-allocator belongs to the
    calling thread and is its current one *)
Lemma ThreadAlloc_free_current s tid this n ta a p :
  0 <= n <= g_max_alloc_size -> p <> 0 ->
  tas s !! this = Some ta ->
  align_down (Z.shiftl 1 (unit_bits (tier_of n))) p = current (tier_of n) ta ->
  sub_allocs (tier_of n) s !! current (tier_of n) ta = Some a ->
  a_ta a = this ->
  ThreadAlloc_free tid this p n s
  = Some (tt, set_sub_allocs (tier_of n)
                (<[current (tier_of n) ta := snd (Alloc_free (tier_of n) a p)]>) s).
Proof.
  intros Hn Hp Hta Hal Ha Hown. unfold ThreadAlloc_free, tier_of in *.
  rewrite (proj2 (Z.eqb_neq _ _) Hp).
  destruct (Z.leb_spec n 2048) as [Hs|Hl];
    cbn [current sub_allocs set_sub_allocs unit_bits] in *.
  - cbv zeta. rewrite Hal.
    rewrite (bind_some _ _ s a s) by (unfold deref; rewrite Ha; reflexivity).
    rewrite Hown, Z.eqb_refl.
    rewrite (bind_some _ _ s _ _ (SmallAlloc_free_run s _ a p Ha)).
    assert (Hhead : forall e,
      and_then e (sa0 ← get_head (SaList this); mret (negb (ta_sa ta =? sa0)))
        (set_sas (<[ta_sa ta := snd (Alloc_free Small a p)]>) s)
      = Some (false, set_sas (<[ta_sa ta := snd (Alloc_free Small a p)]>) s)).
    { intros [|]; [|reflexivity]. cbn [and_then].
      erewrite bind_some by (apply get_head_sa_run; destruct s; exact Hta).
      rewrite Z.eqb_refl. reflexivity. }
    erewrite bind_some by apply Hhead. reflexivity.
  - rewrite (proj2 (Z.leb_le _ _) (proj2 Hn)). cbv zeta. rewrite Hal.
    rewrite (bind_some _ _ s a s) by (unfold deref; rewrite Ha; reflexivity).
    rewrite Hown, Z.eqb_refl.
    rewrite (bind_some _ _ s _ _ (LargeAlloc_free_run s _ a p Ha)).
    assert (Hhead : forall e,
      and_then e (la0 ← get_head (LaList this); mret (negb (ta_la ta =? la0)))
        (set_las (<[ta_la ta := snd (Alloc_free Large a p)]>) s)
      = Some (false, set_las (<[ta_la ta := snd (Alloc_free Large a p)]>) s)).
    { intros [|]; [|reflexivity]. cbn [and_then].
      erewrite bind_some by (apply get_head_la_run; destruct s; exact Hta).
      rewrite Z.eqb_refl. reflexivity. }
    erewrite bind_some by apply Hhead. reflexivity.
Qed.

(** X18: [alloc] then [free] on the fast path is a round trip of the
    whole allocator state.  A block taken from the thread's current
    sub-allocator and given back by the same thread, with the size it
    was asked with, leaves every part of the state - bitmaps, cursor,
    lists, blocks, trace of system calls - exactly as before the
    [alloc]: the sub-allocator is found from the pointer alone, it is
    recognised as the caller's own, and being the head of its list it is
    kept even when it became empty. *)
Theorem alloc_then_free_is_identity (s : State) (tid this n : Z)
    (ta : ThreadAlloc) (a : Alloc) :
  0 <= n <= g_max_alloc_size ->
  tas s !! this = Some ta ->
  0 < current (tier_of n) ta ->
  current (tier_of n) ta mod unit_size (tier_of n) = 0 ->
  sub_allocs (tier_of n) s !! current (tier_of n) ta = Some a ->
  a_ta a = this ->
  a_p a = current (tier_of n) ta + payload_offset (tier_of n) ->
  cursor_inv (tier_of n) a ->
  a_cur_bit a + units n <= MAX_bIT (tier_of n) ->
  exists p s1,
    ThreadAlloc_alloc tid this n s = Some (Some p, s1)
    /\ p = a_p a + a_cur_bit a * slot_size (tier_of n)
    /\ ThreadAlloc_free tid this p n s1 = Some (tt, s).
Proof.
  intros Hn Hta Hpos Hal Ha Hown Hp Hinv Hfit.
  pose proof (units_range n Hn) as Hu.
  pose proof (inv_cur _ _ Hinv) as Hcur.
  set (t := tier_of n) in *. set (h := current t ta) in *.
  pose proof (alloc_fits t a (units n) ltac:(lia) ltac:(lia) Hfit) as Halloc.
  set (p := a_p a + a_cur_bit a * slot_size t) in *.
  set (a1 := set_cur_bit _ _) in Halloc.
  exists p, (set_sub_allocs t (<[h := a1]>) s).
  split; [|split; [reflexivity|]].
  - apply (ThreadAlloc_alloc_hit s tid this n ta a p a1 Hn Hta);
      [change (h <> 0); lia|exact Ha|exact Halloc].
  - destruct (header_of_pointer t h a a1 (units n) p Hal Hp Hcur Hu Halloc) as (Hdown & _).
    assert (Hp0 : p <> 0).
    { unfold p. rewrite Hp.
      assert (0 < payload_offset t) by (destruct t; reflexivity).
      assert (0 < slot_size t) by (destruct t; reflexivity). nia. }
    rewrite (ThreadAlloc_free_current _ tid this n ta a1 p Hn Hp0).
    + fold t h. rewrite (alloc_free_back t a a1 (units n) p Hinv Hu Halloc).
      cbn [snd]. rewrite set_sub_allocs_back by exact Ha. reflexivity.
    + destruct s, t; exact Hta.
    + exact Hdown.
    + apply sub_allocs_set.
    + exact Hown.
Qed.

Lemma alloc_then_free_is_identity_witness :
  exists p s1,
    ThreadAlloc_alloc 7 1000 100 fresh_thread = Some (Some p, s1)
    /\ ThreadAlloc_free 7 1000 p 100 s1 = Some (tt, fresh_thread).
Proof.
  destruct (alloc_then_free_is_identity fresh_thread 7 1000 100 (mkTA 0 0 (2 ^ 15) 0)
              (Alloc_new Small (2 ^ 15) 0 1000))
    as (p & s1 & Hrun & _ & Hfree).
  - vm_compute. split; discriminate.
  - reflexivity.
  - reflexivity.
  - reflexivity.
  - reflexivity.
  - reflexivity.
  - reflexivity.
  - apply inv_new.
  - vm_compute. discriminate.
  - exists p, s1. split; [exact Hrun|exact Hfree].
Defined.









(** ** ThreadAlloc::realloc *)

Lemma small_k o :
  0 <= o <= 2048 ->
  (if 16 <? o then u32 (align_up 16 (u32 o)) else 16) = 16 * small_units o.
Proof.
  intros Ho. rewrite small_units_eq by exact Ho.
  destruct (Z.ltb_spec 16 o) as [Hlt|Hge].
  - rewrite (u32_small o) by lia. rewrite align_up_16.
    assert (2 <= (o + 15) / 16 <= 128).
    { split; [apply Z.div_le_lower_bound; lia|].
      apply Z.lt_succ_r, Z.div_lt_upper_bound; lia. }
    rewrite u32_small by lia. lia.
  - assert ((o + 15) / 16 <= 1) by (apply Z.lt_succ_r, Z.div_lt_upper_bound; lia).
    lia.
Qed.

Lemma large_k o :
  0 <= o <= 2 ^ 17 -> u32 (align_up 4096 (u32 o)) = 4096 * large_units o.
Proof.
  intros Ho. rewrite large_units_eq by exact Ho.
  rewrite (u32_small o) by lia. rewrite align_up_4096.
  assert (0 <= (o + 4095) / 4096 <= 32).
  { split; [apply Z.div_pos; lia|].
    apply Z.lt_succ_r, Z.div_lt_upper_bound; lia. }
  apply u32_small. lia.
Qed.

Lemma units_mono o n :
  0 <= o <= n -> n <= g_max_alloc_size -> tier_of o = tier_of n -> units o <= units n.
Proof.
  change g_max_alloc_size with (2 ^ 17). intros Hon Hn. unfold tier_of, units.
  destruct (Z.leb_spec o 2048), (Z.leb_spec n 2048); try discriminate; intros _.
  - rewrite !small_units_eq by lia.
    pose proof (Z.div_le_mono (o + 15) (n + 15) 16 ltac:(lia) ltac:(lia)). lia.
  - rewrite !large_units_eq by lia.
    apply Z.div_le_mono; lia.
Qed.

(** within the rounded size the unit count does not change *)
Lemma units_same o n :
  0 <= o <= n -> n <= g_max_alloc_size -> tier_of o = tier_of n ->
  n <= units o * slot_size (tier_of o) -> units n = units o.
Proof.
  intros Hon Hn Ht Hfit. pose proof (units_mono o n Hon Hn Ht).
  assert (Ho : 0 <= o <= g_max_alloc_size) by lia.
  pose proof (units_bounds o Ho) as (Ho1 & _).
  pose proof (units_bounds n ltac:(lia)) as (Hn1 & _ & _ & Hn4).
  rewrite <- Ht in Hn4.
  assert (0 < slot_size (tier_of o)) by (destruct (tier_of o); reflexivity).
  nia.
Qed.

Lemma set_cur_bit_twice a c1 c2 : set_cur_bit (set_cur_bit a c1) c2 = set_cur_bit a c2.
Proof. reflexivity. Qed.

(** growing the block that [alloc] has just cut *)
Lemma realloc_after_alloc t a uo un :
  0 <= a_cur_bit a -> 1 <= uo -> uo <= un -> un < 2 ^ 31 ->
  a_cur_bit a + un <= MAX_bIT t ->
  Alloc_realloc t
    (set_cur_bit (set_bs a (Bitset_set (a_bs a) (a_cur_bit a))) (a_cur_bit a + uo))
    (a_p a + a_cur_bit a * slot_size t) uo un
  = (Some (a_p a + a_cur_bit a * slot_size t),
     set_cur_bit (set_bs a (Bitset_set (a_bs a) (a_cur_bit a))) (a_cur_bit a + un)).
Proof.
  intros Hc Huo Hle Hun Hfit.
  pose proof (MAX_bIT_lt t) as HM. pose proof (BS_BITS_le t) as HB.
  set (a1 := set_cur_bit _ (a_cur_bit a + uo)).
  set (p := a_p a + a_cur_bit a * slot_size t).
  assert (Hslot : slot_of t a1 p = a_cur_bit a).
  { unfold slot_of, p, a1. cbn [a_p set_cur_bit set_bs].
    replace (a_p a + a_cur_bit a * slot_size t - a_p a) with (a_cur_bit a * slot_size t) by lia.
    apply Z.div_mul. pose proof (slot_size_pos t). lia. }
  destruct (Alloc_realloc_run t a1 p uo un) as (Hyes & _); try (rewrite ?Hslot; lia).
  rewrite Hslot in Hyes. destruct Hyes as (Hrun & _).
  - split; [reflexivity|exact Hfit].
  - rewrite Hrun. reflexivity.
Qed.

Lemma SmallAlloc_realloc_run s sa a p o n :
  sas s !! sa = Some a ->
  SmallAlloc_realloc sa p o n s
  = Some (fst (Alloc_realloc Small a p o n),
          set_sas (<[sa := snd (Alloc_realloc Small a p o n)]>) s).
Proof.
  intros H. unfold SmallAlloc_realloc.
  rewrite (bind_some _ _ s a s) by (unfold deref; rewrite H; reflexivity).
  reflexivity.
Qed.

Lemma LargeAlloc_realloc_run s la a p o n :
  las s !! la = Some a ->
  LargeAlloc_realloc la p o n s
  = Some (fst (Alloc_realloc Large a p o n),
          set_las (<[la := snd (Alloc_realloc Large a p o n)]>) s).
Proof.
  intros H. unfold LargeAlloc_realloc.
  rewrite (bind_some _ _ s a s) by (unfold deref; rewrite H; reflexivity).
  reflexivity.
Qed.

Lemma set_sub_allocs_twice t s h a a1 :
  set_sub_allocs t (<[h := a]>) (set_sub_allocs t (<[h := a1]>) s)
  = set_sub_allocs t (<[h := a]>) s.
Proof.
  destruct s, t; unfold set_sub_allocs, set_sas, set_las; cbn; f_equal;
    apply insert_insert_eq.
Qed.

Lemma tas_set_sub_allocs t f s : tas (set_sub_allocs t f s) = tas s.
Proof. destruct s, t; reflexivity. Qed.

(** X20: growing the last block in place.  A block just cut from the
    thread's current sub-allocator is grown by [ThreadAlloc::realloc]
    without moving: for sizes [o < n] of one tier, with room for [n]
    behind the cursor, [alloc(o)] followed by [realloc(p, o, n)]
    returns the same pointer [p] and leaves the allocator in the very
    state a single [alloc(n)] leaves - whether [n] still fits the
    rounded old size or the cursor has to be moved up. *)
Theorem realloc_grows_in_place (sys_realloc : Z -> Z -> M (option Z))
    (s : State) (tid this o n : Z) (ta : ThreadAlloc) (a : Alloc) :
  0 <= o < n -> n <= g_max_alloc_size -> tier_of o = tier_of n ->
  tas s !! this = Some ta ->
  0 < current (tier_of n) ta ->
  current (tier_of n) ta mod unit_size (tier_of n) = 0 ->
  sub_allocs (tier_of n) s !! current (tier_of n) ta = Some a ->
  a_p a = current (tier_of n) ta + payload_offset (tier_of n) ->
  0 <= a_cur_bit a ->
  a_cur_bit a + units n <= MAX_bIT (tier_of n) ->
  exists p s1 s2,
    ThreadAlloc_alloc tid this o s = Some (Some p, s1)
    /\ ThreadAlloc_realloc sys_realloc tid this p o n s1 = Some (Some p, s2)
    /\ ThreadAlloc_alloc tid this n s = Some (Some p, s2).
Proof.
  intros Hon Hn Ht Hta Hpos Hal Ha Hp Hc Hfit.
  assert (Ho : 0 <= o <= g_max_alloc_size) by lia.
  assert (Hn' : 0 <= n <= g_max_alloc_size) by lia.
  pose proof (units_range o Ho) as Huo. pose proof (units_range n Hn') as Hun.
  pose proof (units_mono o n ltac:(lia) Hn Ht) as Hmono.
  set (t := tier_of n) in *. set (h := current t ta) in *.
  set (p := a_p a + a_cur_bit a * slot_size t).
  set (B := set_bs a (Bitset_set (a_bs a) (a_cur_bit a))).
  pose proof (alloc_fits t a (units o) Hc ltac:(lia) ltac:(lia)) as Hao.
  pose proof (alloc_fits t a (units n) Hc ltac:(lia) ltac:(lia)) as Han.
  fold p B in Hao, Han.
  assert (Hh : h <> 0) by lia.
  assert (Hrun_o : ThreadAlloc_alloc tid this o s
                   = Some (Some p, set_sub_allocs t (<[h := set_cur_bit B (a_cur_bit a + units o)]>) s)).
  { pose proof (ThreadAlloc_alloc_hit s tid this o ta a p
                  (set_cur_bit B (a_cur_bit a + units o)) Ho Hta) as H.
    rewrite Ht in H. exact (H Hh Ha Hao). }
  assert (Hrun_n : ThreadAlloc_alloc tid this n s
                   = Some (Some p, set_sub_allocs t (<[h := set_cur_bit B (a_cur_bit a + units n)]>) s)).
  { exact (ThreadAlloc_alloc_hit s tid this n ta a p
             (set_cur_bit B (a_cur_bit a + units n)) Hn' Hta Hh Ha Han). }
  exists p, (set_sub_allocs t (<[h := set_cur_bit B (a_cur_bit a + units o)]>) s),
         (set_sub_allocs t (<[h := set_cur_bit B (a_cur_bit a + units n)]>) s).
  split; [exact Hrun_o|]. split; [|exact Hrun_n].
  set (s1 := set_sub_allocs t (<[h := set_cur_bit B (a_cur_bit a + units o)]>) s).
  destruct (header_of_pointer t h a _ (units o) p Hal Hp ltac:(lia) ltac:(lia) Hao)
    as (Hdown & _).
  assert (Hp0 : p <> 0).
  { unfold p. rewrite Hp.
    assert (0 < payload_offset t) by (destruct t; reflexivity).
    assert (0 < slot_size t) by (destruct t; reflexivity). nia. }
  assert (Hre : Alloc_realloc t (set_cur_bit B (a_cur_bit a + units o)) p (units o) (units n)
                = (Some p, set_cur_bit B (a_cur_bit a + units n))).
  { apply realloc_after_alloc; lia. }
  assert (Hta1 : tas s1 !! this = Some ta) by (unfold s1; rewrite tas_set_sub_allocs; exact Hta).
  assert (Ha1 : sub_allocs t s1 !! h = Some (set_cur_bit B (a_cur_bit a + units o)))
    by apply sub_allocs_set.
  assert (Hsame : n <= units o * slot_size t ->
                  s1 = set_sub_allocs t (<[h := set_cur_bit B (a_cur_bit a + units n)]>) s).
  { intros Hk. unfold s1. rewrite (units_same o n); [reflexivity|lia|exact Hn|exact Ht|].
    rewrite Ht. exact Hk. }
  assert (Htwice : set_sub_allocs t (<[h := set_cur_bit B (a_cur_bit a + units n)]>) s1
                   = set_sub_allocs t (<[h := set_cur_bit B (a_cur_bit a + units n)]>) s)
    by apply set_sub_allocs_twice.
  set (s2 := set_sub_allocs t (<[h := set_cur_bit B (a_cur_bit a + units n)]>) s) in *.
  unfold ThreadAlloc_realloc.
  rewrite (proj2 (Z.eqb_neq _ _) Hp0).
  rewrite (proj2 (Z.ltb_ge _ _)) by lia.
  rewrite (proj2 (Z.ltb_lt o n)) by lia. cbn [negb].
  change g_max_alloc_size with (2 ^ 17) in *.
  clearbody p B s1 s2. clear Hrun_o Hrun_n Hao Han Ha Hta.
  subst h t. unfold units, tier_of in *.
  destruct (Z.leb_spec o 2048) as [Hos|Hol], (Z.leb_spec n 2048) as [Hns|Hnl];
    try discriminate Ht; cbn [current sub_allocs set_sub_allocs unit_bits slot_size] in *.
  - rewrite small_k by lia.
    destruct (Z.leb_spec n (16 * small_units o)) as [Hk|Hk].
    + rewrite (bind_some _ _ s1 (Some p) s1) by reflexivity.
      rewrite <- Hsame by (change (slot_size Small) with 16; lia). reflexivity.
    + cbv zeta. rewrite Hdown.
      rewrite (bind_some _ _ s1 (Some p) s2); [reflexivity|].
      rewrite (bind_some _ _ s1 _ s1 (get_head_sa_run s1 this ta Hta1)).
      rewrite Z.eqb_refl. cbn [andb].
      rewrite (SmallAlloc_realloc_run s1 _ _ _ _ _ Ha1).
      replace (Z.shiftr (16 * small_units o) 4) with (small_units o)
        by (rewrite Z.shiftr_div_pow2, Z.mul_comm, Z.div_mul; lia).
      replace (Z.shiftr (u32 (align_up 16 (u32 n))) 4) with (small_units n)
        by (unfold small_units; rewrite (proj2 (Z.ltb_lt 16 n)); [reflexivity|lia]).
      rewrite Hre. cbn [fst snd]. rewrite Htwice. reflexivity.
  - rewrite large_k by lia.
    destruct (Z.leb_spec n (4096 * large_units o)) as [Hk|Hk].
    + rewrite (bind_some _ _ s1 (Some p) s1) by reflexivity.
      rewrite <- Hsame by (change (slot_size Large) with 4096; lia). reflexivity.
    + cbv zeta. rewrite Hdown.
      rewrite (bind_some _ _ s1 (Some p) s2); [reflexivity|].
      rewrite (bind_some _ _ s1 _ s1 (get_head_la_run s1 this ta Hta1)).
      rewrite Z.eqb_refl, (proj2 (Z.leb_le n (2 ^ 17))) by lia. cbn [andb].
      rewrite (LargeAlloc_realloc_run s1 _ _ _ _ _ Ha1).
      replace (Z.shiftr (4096 * large_units o) 12) with (large_units o)
        by (rewrite Z.shiftr_div_pow2, Z.mul_comm, Z.div_mul; lia).
      change (Z.shiftr (u32 (align_up 4096 (u32 n))) 12) with (large_units n).
      rewrite Hre. cbn [fst snd]. rewrite Htwice. reflexivity.
Qed.

Lemma realloc_grows_in_place_witness :
  exists p s1 s2,
    ThreadAlloc_alloc 7 1000 64 fresh_thread = Some (Some p, s1)
    /\ ThreadAlloc_realloc (fun _ _ => mret None) 7 1000 p 64 512 s1 = Some (Some p, s2)
    /\ ThreadAlloc_alloc 7 1000 512 fresh_thread = Some (Some p, s2).
Proof.
  apply (realloc_grows_in_place (fun _ _ => mret None) fresh_thread 7 1000 64 512
           (mkTA 0 0 (2 ^ 15) 0) (Alloc_new Small (2 ^ 15) 0 1000)).
  - lia.
  - vm_compute. discriminate.
  - reflexivity.
  - reflexivity.
  - reflexivity.
  - reflexivity.
  - reflexivity.
  - reflexivity.
  - vm_compute. discriminate.
  - vm_compute. discriminate.
Defined.

Lemma set_sub_allocs_id t s h a :
  sub_allocs t s !! h = Some a -> set_sub_allocs t (<[h := a]>) s = s.
Proof.
  intros H. destruct s, t; unfold set_sub_allocs, set_sas, set_las; cbn in *; f_equal;
    apply insert_id; exact H.
Qed.

(** [ThreadAlloc::realloc] when the block cannot stay where it is: what
    is left is [alloc], then [free] of the old block *)
Lemma ThreadAlloc_realloc_miss sys_realloc s tid this p o n ta a :
  p <> 0 -> 0 <= o < n -> n <= g_max_alloc_size -> tier_of o = tier_of n ->
  tas s !! this = Some ta ->
  align_down (Z.shiftl 1 (unit_bits (tier_of n))) p = current (tier_of n) ta ->
  sub_allocs (tier_of n) s !! current (tier_of n) ta = Some a ->
  units o * slot_size (tier_of n) < n ->
  Alloc_realloc (tier_of n) a p (units o) (units n) = (None, a) ->
  ThreadAlloc_realloc sys_realloc tid this p o n s
  = (x ← ThreadAlloc_alloc tid this n;
     match x with
     | Some _ => ThreadAlloc_free tid this p o;; mret x
     | None => mret None
     end) s.
Proof.
  intros Hp0 Hon Hn Ht Hta Hdown Ha Hk Hre.
  pose proof (set_sub_allocs_id (tier_of n) s _ a Ha) as Hid.
  unfold ThreadAlloc_realloc.
  rewrite (proj2 (Z.eqb_neq _ _) Hp0).
  rewrite (proj2 (Z.ltb_ge _ _)) by lia.
  rewrite (proj2 (Z.ltb_lt o n)) by lia. cbn [negb].
  change g_max_alloc_size with (2 ^ 17) in *.
  unfold units, tier_of in *.
  destruct (Z.leb_spec o 2048) as [Hos|Hol], (Z.leb_spec n 2048) as [Hns|Hnl];
    try discriminate Ht; cbn [current sub_allocs set_sub_allocs unit_bits slot_size] in *.
  - rewrite small_k by lia. change (slot_size Small) with 16 in Hk.
    rewrite (proj2 (Z.leb_gt n (16 * small_units o))) by lia.
    cbv zeta. rewrite Hdown.
    rewrite (bind_some _ _ s None s); [reflexivity|].
    rewrite (bind_some _ _ s _ s (get_head_sa_run s this ta Hta)).
    rewrite Z.eqb_refl. cbn [andb].
    rewrite (SmallAlloc_realloc_run s _ _ _ _ _ Ha).
    replace (Z.shiftr (16 * small_units o) 4) with (small_units o)
      by (rewrite Z.shiftr_div_pow2, Z.mul_comm, Z.div_mul; lia).
    replace (Z.shiftr (u32 (align_up 16 (u32 n))) 4) with (small_units n)
      by (unfold small_units; rewrite (proj2 (Z.ltb_lt 16 n)); [reflexivity|];
          pose proof (small_units_eq o ltac:(lia)); lia).
    rewrite Hre. cbn [fst snd]. rewrite Hid. reflexivity.
  - rewrite large_k by lia. change (slot_size Large) with 4096 in Hk.
    rewrite (proj2 (Z.leb_gt n (4096 * large_units o))) by lia.
    cbv zeta. rewrite Hdown.
    rewrite (bind_some _ _ s None s); [reflexivity|].
    rewrite (bind_some _ _ s _ s (get_head_la_run s this ta Hta)).
    rewrite Z.eqb_refl, (proj2 (Z.leb_le n (2 ^ 17))) by lia. cbn [andb].
    rewrite (LargeAlloc_realloc_run s _ _ _ _ _ Ha).
    replace (Z.shiftr (4096 * large_units o) 12) with (large_units o)
      by (rewrite Z.shiftr_div_pow2, Z.mul_comm, Z.div_mul; lia).
    change (Z.shiftr (u32 (align_up 4096 (u32 n))) 12) with (large_units n).
    rewrite Hre. cbn [fst snd]. rewrite Hid. reflexivity.
Qed.

(** [free] of a block below a set bit leaves the cursor alone *)
Lemma free_below_set_bit t a p c :
  bitmap t (a_bs a) -> a_cur_bit a <= MAX_bIT t ->
  0 <= slot_of t a p < c -> c <= a_cur_bit a -> bit (a_bs a) c = true ->
  Alloc_free t a p
  = (false, set_bs a (Bitset_unset (a_bs a) (slot_of t a p))).
Proof.
  intros Hbm Hmax Hi Hc Hbit.
  pose proof (MAX_bIT_lt t) as HM. pose proof (BS_BITS_le t) as HB.
  destruct (Alloc_free_run t a p Hbm Hmax ltac:(lia)) as (Hbits & _ & _ & _ & _ & Hrun).
  cbv zeta in Hbits, Hrun.
  set (i := slot_of t a p) in *.
  set (bs' := Bitset_unset (a_bs a) i) in *.
  pose proof (rfind_top bs' (a_cur_bit a) (words_unset _ _ (proj1 Hbm)) ltac:(lia)) as Htop.
  set (r := Bitset_rfind bs' (a_cur_bit a)) in *.
  assert (Hbc : bit bs' c = true).
  { rewrite Hbits by lia. rewrite (proj2 (Z.eqb_neq c i)) by lia. exact Hbit. }
  assert (Hbound : c <= (a_cur_bit a / 64 + 1) * 64 - 1).
  { pose proof (Z.div_mod (a_cur_bit a) 64 ltac:(lia)).
    pose proof (Z.mod_pos_bound (a_cur_bit a) 64 ltac:(lia)). lia. }
  assert (Hr : c <= r).
  { destruct Htop as [(_ & Hnone)|(Hr & _ & Habove)].
    - rewrite Hnone in Hbc by lia. discriminate Hbc.
    - destruct (Z_lt_le_dec r c) as [Hlt|Hge]; [|exact Hge].
      rewrite Habove in Hbc by lia. discriminate Hbc. }
  rewrite Hrun. rewrite (proj2 (Z.ltb_ge r i)) by lia.
  rewrite (proj2 (Z.eqb_neq (a_cur_bit a) 0)) by lia.
  destruct a; reflexivity.
Qed.

(** X21: a block that is not the last one is moved by
    [ThreadAlloc::realloc].  For a block at slot [i] of the thread's
    current sub-allocator with another block cut after it, growing
    beyond its rounded size cuts a new block at the cursor, which lies
    behind the old one, and frees the old slot; the cursor stays above
    the new block and nothing else of the state changes. *)
Theorem realloc_moves_inner_block (sys_realloc : Z -> Z -> M (option Z))
    (s : State) (tid this o n i : Z) (ta : ThreadAlloc) (a : Alloc) :
  0 <= o < n -> n <= g_max_alloc_size -> tier_of o = tier_of n ->
  tas s !! this = Some ta ->
  0 < current (tier_of n) ta ->
  current (tier_of n) ta mod unit_size (tier_of n) = 0 ->
  sub_allocs (tier_of n) s !! current (tier_of n) ta = Some a ->
  a_ta a = this ->
  a_p a = current (tier_of n) ta + payload_offset (tier_of n) ->
  cursor_inv (tier_of n) a ->
  0 <= i -> i + units o < a_cur_bit a ->
  units o * slot_size (tier_of n) < n ->
  a_cur_bit a + units n <= MAX_bIT (tier_of n) ->
  exists s',
    ThreadAlloc_realloc sys_realloc tid this (a_p a + i * slot_size (tier_of n)) o n s
    = Some (Some (a_p a + a_cur_bit a * slot_size (tier_of n)), s')
    /\ a_p a + i * slot_size (tier_of n) + units o * slot_size (tier_of n)
       < a_p a + a_cur_bit a * slot_size (tier_of n)
    /\ s' = set_sub_allocs (tier_of n)
              (<[current (tier_of n) ta :=
                   set_cur_bit
                     (set_bs a (Bitset_unset (Bitset_set (a_bs a) (a_cur_bit a)) i))
                     (a_cur_bit a + units n)]>) s.
Proof.
  intros Hon Hn Ht Hta Hpos Hal Ha Hown Hp Hinv Hi Hinner Hk Hfit.
  assert (Ho : 0 <= o <= g_max_alloc_size) by lia.
  assert (Hn' : 0 <= n <= g_max_alloc_size) by lia.
  pose proof (units_range o Ho) as Huo. pose proof (units_range n Hn') as Hun.
  pose proof (inv_cur _ _ Hinv) as Hcur. pose proof (inv_bs _ _ Hinv) as Hbm.
  set (t := tier_of n) in *. set (h := current t ta) in *.
  pose proof (MAX_bIT_lt t) as HM. pose proof (BS_BITS_le t) as HB.
  assert (Hsz : 16 <= slot_size t) by apply slot_size_pos.
  set (p := a_p a + i * slot_size t). set (q := a_p a + a_cur_bit a * slot_size t).
  assert (Hlay : payload_offset t + MAX_bIT t * slot_size t = unit_size t)
    by (destruct t; reflexivity).
  assert (Hoff : 0 < payload_offset t) by (destruct t; reflexivity).
  assert (Hunit : unit_size t = 2 ^ unit_bits t) by (destruct t; reflexivity).
  assert (Hp0 : p <> 0) by (unfold p; nia).
  assert (Hdown : align_down (Z.shiftl 1 (unit_bits t)) p = h).
  { apply align_down_inside.
    - destruct t; vm_compute; discriminate.
    - rewrite <- Hunit. exact Hal.
    - rewrite <- Hunit. unfold p. nia. }
  assert (Hslot : slot_of t a p = i).
  { unfold slot_of, p. replace (a_p a + i * slot_size t - a_p a) with (i * slot_size t) by lia.
    apply Z.div_mul. lia. }
  assert (Hmiss : Alloc_realloc t a p (units o) (units n) = (None, a)).
  { destruct (Alloc_realloc_run t a p (units o) (units n)) as (_ & Hno);
      try (rewrite ?Hslot; lia).
    apply Hno. rewrite Hslot. lia. }
  set (a1 := set_cur_bit (set_bs a (Bitset_set (a_bs a) (a_cur_bit a)))
                         (a_cur_bit a + units n)).
  pose proof (alloc_fits t a (units n) ltac:(lia) ltac:(lia) Hfit) as Han.
  fold a1 q in Han.
  set (s1 := set_sub_allocs t (<[h := a1]>) s).
  assert (Hrun_n : ThreadAlloc_alloc tid this n s = Some (Some q, s1)).
  { apply (ThreadAlloc_alloc_hit s tid this n ta a q a1 Hn' Hta);
      [change (h <> 0); lia|exact Ha|exact Han]. }
  assert (Hlen : forall j, 0 <= j < BS_BITS t -> (cell_of j < length (a_bs a))%nat)
    by (intros j Hj; apply (cell_of_lt t); assumption).
  assert (Hbm1 : bitmap t (a_bs a1)).
  { destruct Hbm as [Hw Hl]. split.
    - apply words_set; [lia|exact Hw].
    - cbn [a1 a_bs set_cur_bit set_bs]. rewrite length_set. exact Hl. }
  assert (Hfree : Alloc_free t a1 p
                  = (false, set_bs a1 (Bitset_unset (a_bs a1) i))).
  { assert (Hslot1 : slot_of t a1 p = i) by exact Hslot.
    assert (H : Alloc_free t a1 p
                = (false, set_bs a1 (Bitset_unset (a_bs a1) (slot_of t a1 p)))).
    { apply (free_below_set_bit t a1 p (a_cur_bit a)).
      - exact Hbm1.
      - cbn [a1 a_cur_bit set_cur_bit]. lia.
      - rewrite Hslot1. lia.
      - cbn [a1 a_cur_bit set_cur_bit]. lia.
      - cbn [a1 a_bs set_cur_bit set_bs]. rewrite bit_set by (try apply Hlen; lia).
        rewrite Z.eqb_refl. reflexivity. }
    rewrite Hslot1 in H. exact H. }
  assert (Hrun_f : ThreadAlloc_free tid this p o s1
                   = Some (tt, set_sub_allocs t (<[h := snd (Alloc_free t a1 p)]>) s1)).
  { pose proof (ThreadAlloc_free_current s1 tid this o ta a1 p Ho Hp0) as H.
    rewrite Ht in H. apply H.
    - unfold s1. rewrite tas_set_sub_allocs. exact Hta.
    - exact Hdown.
    - apply sub_allocs_set.
    - exact Hown. }
  eexists. split; [|split; [unfold p, q; nia|reflexivity]].
  rewrite (ThreadAlloc_realloc_miss sys_realloc s tid this p o n ta a
             Hp0 Hon Hn Ht Hta Hdown Ha Hk Hmiss).
  rewrite (bind_some _ _ s _ _ Hrun_n).
  rewrite (bind_some _ _ s1 _ _ Hrun_f).
  rewrite Hfree. cbn [snd]. unfold s1. rewrite set_sub_allocs_twice. reflexivity.
Qed.

Lemma inv_sa_two : cursor_inv Small sa_two.
Proof. apply inv_alloc; [apply inv_alloc; [apply inv_new|lia]|lia]. Qed.

Lemma realloc_moves_inner_block_witness :
  exists s',
    ThreadAlloc_realloc (fun _ _ => mret None) 7 1000 (2 ^ 15 + 576) 64 512 two_objects
    = Some (Some (2 ^ 15 + 576 + 80), s').
Proof.
  destruct (realloc_moves_inner_block (fun _ _ => mret None) two_objects 7 1000 64 512 0
              (mkTA 0 0 (2 ^ 15) 0) sa_two) as (s' & Hrun & _).
  - lia.
  - vm_compute. discriminate.
  - reflexivity.
  - reflexivity.
  - reflexivity.
  - reflexivity.
  - reflexivity.
  - reflexivity.
  - reflexivity.
  - exact inv_sa_two.
  - lia.
  - vm_compute. reflexivity.
  - vm_compute. reflexivity.
  - vm_compute. discriminate.
  - exists s'. exact Hrun.
Defined.

(** ** Making sub-allocators *)

Lemma all_clear_fresh t s :
  bitmap t s -> (forall j, 0 <= j -> bit s j = false) -> s = fresh_cells t.
Proof.
  intros [Hw Hlen] Hclear. symmetry. apply replicate_as_Forall. split.
  - rewrite <- Hlen. rewrite Z.mul_comm, Z.div_mul by lia. symmetry. apply Nat2Z.id.
  - apply Forall_lookup. intros i x Hi.
    assert (Hc : cell s i = 0).
    { apply cell_zero_bits; [exact Hw|]. intros j Hj. apply Hclear. lia. }
    unfold cell in Hc. rewrite Hi in Hc. symmetry. exact Hc.
Qed.

(** an allocator whose cursor is back at 0 has nothing in its bitmaps *)
Lemma empty_alloc_cells t a :
  cursor_inv t a -> a_cur_bit a = 0 ->
  a_bs a = fresh_cells t /\ a_xbs a = fresh_cells t.
Proof.
  intros Hinv Hc.
  assert (Hbs : forall j, 0 <= j -> bit (a_bs a) j = false).
  { intros j Hj. destruct (bit (a_bs a) j) eqn:E; [|reflexivity].
    pose proof (inv_below _ _ Hinv j Hj E). lia. }
  split; apply all_clear_fresh.
  - apply (inv_bs _ _ Hinv).
  - exact Hbs.
  - apply (inv_xbs _ _ Hinv).
  - intros j Hj. destruct (bit (a_xbs a) j) eqn:E; [|reflexivity].
    pose proof (inv_sub _ _ Hinv j Hj E) as Hset.
    rewrite (Hbs j Hj) in Hset. discriminate Hset.
Qed.

Lemma LargeBlock_alloc_none b b' : LargeBlock_alloc b = (None, b') -> b' = b.
Proof.
  unfold LargeBlock_alloc. destruct (_ <? R); intros H; [discriminate H|].
  injection H as <-. reflexivity.
Qed.

(** X22: [LargeBlock::make_small_alloc].  When the block has no unit
    left it returns null and changes nothing.  Otherwise the new
    SmallAlloc sits on the unit [LargeBlock::alloc] picked, belongs to
    the calling thread, and starts out exactly like one on zeroed pages
    - also on a unit that held a SmallAlloc before, given that the old
    one satisfied the cursor invariant and was empty (cursor 0) when its
    unit was given back: the constructor does not clear the bitmaps, and
    need not. *)
Theorem make_small_alloc_starts_fresh (s : State) (tid lb : Z) (b : LargeBlock) :
  lbs s !! lb = Some b ->
  (forall x old, fst (LargeBlock_alloc b) = Some x -> sas s !! x = Some old ->
                 cursor_inv Small old /\ a_cur_bit old = 0) ->
  match fst (LargeBlock_alloc b) with
  | None => make_small_alloc tid lb s = Some (None, s)
  | Some x =>
      exists s',
        make_small_alloc tid lb s = Some (Some x, s')
        /\ sas s' !! x = Some (Alloc_new Small x lb (default 0 (tls s !! tid)))
        /\ cursor_inv Small (Alloc_new Small x lb (default 0 (tls s !! tid)))
        /\ link_at (links s') x = mkLink 0 0
        /\ lbs s' !! lb = Some (snd (LargeBlock_alloc b))
        /\ (forall y, y <> x -> sas s' !! y = sas s !! y)
        /\ tas s' = tas s /\ trace s' = trace s /\ held s' = held s
  end.
Proof.
  intros Hb Hold. unfold make_small_alloc.
  assert (Hat : LargeBlock_alloc_at lb s
                = Some (fst (LargeBlock_alloc b),
                        set_lbs (<[lb := snd (LargeBlock_alloc b)]>) s)).
  { unfold LargeBlock_alloc_at.
    rewrite (bind_some _ _ s b s) by (unfold deref; rewrite Hb; reflexivity).
    reflexivity. }
  rewrite (bind_some _ _ s _ _ Hat).
  destruct (LargeBlock_alloc b) as [[x|] b'] eqn:E; cbn [fst snd] in *.
  - eexists. split; [reflexivity|].
    split.
    { cbn. rewrite lookup_insert_eq. f_equal. unfold cells_at.
      destruct (sas s !! x) as [old|] eqn:Eold; [|reflexivity].
      destruct (Hold x old eq_refl Eold) as [Hinv Hc].
      destruct (empty_alloc_cells Small old Hinv Hc) as [-> ->]. reflexivity. }
    split; [apply inv_new|].
    split; [cbn; unfold link_at; rewrite lookup_insert_eq; reflexivity|].
    split; [cbn; apply lookup_insert_eq|].
    split; [intros y Hy; cbn; apply lookup_insert_ne; congruence|].
    repeat split.
  - apply LargeBlock_alloc_none in E. subst b'.
    replace (set_lbs (<[lb := b]>) s) with s; [reflexivity|].
    destruct s; unfold set_lbs; cbn in *. f_equal.
    symmetry. apply insert_id. exact Hb.
Qed.

Lemma make_small_alloc_starts_fresh_witness :
  exists s',
    make_small_alloc 7 (2 ^ 21)
      (set_lbs (<[2 ^ 21 := LargeBlock_new (2 ^ 21) 0]>) (init_state []))
    = Some (Some (2 ^ 21 + 2 ^ 15), s')
    /\ sas s' !! (2 ^ 21 + 2 ^ 15) = Some (Alloc_new Small (2 ^ 21 + 2 ^ 15) (2 ^ 21) 0).
Proof.
  assert (E : fst (LargeBlock_alloc (LargeBlock_new (2 ^ 21) 0)) = Some (2 ^ 21 + 2 ^ 15))
    by (vm_compute; reflexivity).
  pose proof (make_small_alloc_starts_fresh
                (set_lbs (<[2 ^ 21 := LargeBlock_new (2 ^ 21) 0]>) (init_state []))
                7 (2 ^ 21) (LargeBlock_new (2 ^ 21) 0)) as H.
  rewrite E in H. destruct H as (s' & Hrun & Hsa & _).
  - reflexivity.
  - intros x old _ H. destruct (lookup_empty_Some (M := gmap Z) x old H).
  - exists s'. split; [exact Hrun|exact Hsa].
Defined.

(** ** GlobalAlloc::alloc *)

Lemma HugeBlock_alloc_run h i :
  0 <= i < 63 -> Z.testbit (hb_bits h) i = false ->
  (forall j, 0 <= j < i -> Z.testbit (hb_bits h) j = true) ->
  HugeBlock_alloc h
  = (Some (hb_p h + i * 2 ^ 21), mkHB (hb_p h) (Z.lor (hb_bits h) (Z.shiftl 1 i))).
Proof.
  intros Hi Hclear Hlow. unfold HugeBlock_alloc.
  rewrite (lowest_clear_found _ i Hi Hclear Hlow).
  replace (i <? R) with true by (symmetry; apply Z.ltb_lt; change R with 63; lia).
  rewrite shl_C by exact Hi. change g_lb_bits with 21.
  rewrite shl_unit by lia. reflexivity.
Qed.

Lemma HugeBlock_alloc_at_run hb h s :
  hbs s !! hb = Some h ->
  HugeBlock_alloc_at hb s
  = Some (fst (HugeBlock_alloc h), set_hbs (<[hb := snd (HugeBlock_alloc h)]>) s).
Proof.
  intros H. unfold HugeBlock_alloc_at.
  rewrite (bind_some _ _ s h s) by (unfold deref; rewrite H; reflexivity).
  reflexivity.
Qed.

Lemma vm_commit_run p n s :
  _vm_commit p n s = Some (tt, wipe p n (set_trace (fun tr => tr ++ [EvCommit p n]) s)).
Proof. reflexivity. Qed.

(** X23: [GlobalAlloc::alloc] when the shard's first huge block has a
    unit left.  The call hands out the lowest free 2 MiB unit of that
    block and names the block as parent; the shard's list is not
    touched.  The mutex is held around the update of the bitmap only:
    the unit is committed after the unlock, and nothing of what was
    stored in it before survives, while everything outside it stays. *)
Theorem global_alloc_from_head (s : State) (alloc_id hb i : Z) (h : HugeBlock) :
  shards s !! shard_of alloc_id = Some hb -> hb <> 0 ->
  hbs s !! hb = Some h -> hb < hb_p h ->
  Z.of_nat (shard_of alloc_id) ∉ held s ->
  0 <= i < 63 -> Z.testbit (hb_bits h) i = false ->
  (forall j, 0 <= j < i -> Z.testbit (hb_bits h) j = true) ->
  exists s',
    GlobalAlloc_alloc alloc_id s = Some ((Some (hb_p h + i * 2 ^ 21), hb), s')
    /\ hbs s' !! hb = Some (mkHB (hb_p h) (Z.lor (hb_bits h) (Z.shiftl 1 i)))
    /\ shards s' = shards s /\ held s' = held s /\ tas s' = tas s
    /\ trace s' = trace s ++ [EvLock (Z.of_nat (shard_of alloc_id));
                              EvUnlock (Z.of_nat (shard_of alloc_id));
                              EvCommit (hb_p h + i * 2 ^ 21) (2 ^ 21)]
    /\ (forall a, hb_p h + i * 2 ^ 21 <= a < hb_p h + (i + 1) * 2 ^ 21 ->
          sas s' !! a = None /\ las s' !! a = None /\ lbs s' !! a = None
          /\ links s' !! a = None)
    /\ (forall a, ~ (hb_p h + i * 2 ^ 21 <= a < hb_p h + (i + 1) * 2 ^ 21) ->
          sas s' !! a = sas s !! a /\ las s' !! a = las s !! a
          /\ lbs s' !! a = lbs s !! a /\ links s' !! a = links s !! a
          /\ (a <> hb -> hbs s' !! a = hbs s !! a)).
Proof.
  intros Hsh Hhb Hh Hbefore Hheld Hi Hclear Hlow.
  set (k := shard_of alloc_id) in *.
  set (p := hb_p h + i * 2 ^ 21).
  set (h' := mkHB (hb_p h) (Z.lor (hb_bits h) (Z.shiftl 1 i))).
  pose proof (HugeBlock_alloc_run h i Hi Hclear Hlow) as Halloc. fold p h' in Halloc.
  set (s1 := set_held (fun l => Z.of_nat k :: l)
               (set_trace (fun tr => tr ++ [EvLock (Z.of_nat k)]) s)).
  set (s2 := set_hbs (<[hb := h']>) s1).
  set (s3 := set_held (filter (fun j => j <> Z.of_nat k))
               (set_trace (fun tr => tr ++ [EvUnlock (Z.of_nat k)]) s2)).
  set (s4 := wipe p (2 ^ 21) (set_trace (fun tr => tr ++ [EvCommit p (2 ^ 21)]) s3)).
  assert (Hlocked : GlobalAlloc_alloc_locked k s1 = Some ((Some p, hb), s2)).
  { unfold GlobalAlloc_alloc_locked. cbv zeta.
    rewrite (bind_some _ _ s1 _ _ (get_head_shard_run k hb s1 Hsh)).
    rewrite (proj2 (Z.eqb_neq _ _) Hhb).
    rewrite (bind_some _ _ s1 (Some (Some p, hb)) s2); [reflexivity|].
    rewrite (bind_some _ _ s1 _ _ (HugeBlock_alloc_at_run hb h s1 Hh)).
    rewrite Halloc. reflexivity. }
  assert (Hrun : GlobalAlloc_alloc alloc_id s = Some ((Some p, hb), s4)).
  { unfold GlobalAlloc_alloc. cbv zeta. fold k.
    rewrite (bind_some _ _ s _ _ (lock_run _ s Hheld)). fold s1.
    rewrite (bind_some _ _ s1 _ _ Hlocked).
    rewrite (bind_some _ _ s2 _ _ (unlock_run _ s2)). fold s3.
    cbn [fst].
    rewrite (bind_some _ _ s3 tt s4) by reflexivity.
    reflexivity. }
  assert (Hout : outside p (2 ^ 21) hb) by (unfold outside, p; nia).
  assert (Hin : forall a, p <= a < p + 2 ^ 21 <-> hb_p h + i * 2 ^ 21 <= a < hb_p h + (i + 1) * 2 ^ 21)
    by (intros a; unfold p; lia).
  exists s4. split; [exact Hrun|].
  split.
  { change (hbs s4) with (filter (fun kv => outside p (2 ^ 21) kv.1) (<[hb := h']> (hbs s))).
    rewrite lookup_wiped by exact Hout. apply lookup_insert_eq. }
  split; [reflexivity|].
  split.
  { change (held s4) with (filter (fun j => j <> Z.of_nat k) (Z.of_nat k :: held s)).
    apply filter_held_id, Hheld. }
  split; [reflexivity|].
  split.
  { change (trace s4) with (((trace s ++ [EvLock (Z.of_nat k)]) ++ [EvUnlock (Z.of_nat k)])
                            ++ [EvCommit p (2 ^ 21)]).
    rewrite <- !app_assoc. reflexivity. }
  split.
  - intros a Ha. apply Hin in Ha.
    change (sas s4) with (filter (fun kv => outside p (2 ^ 21) kv.1) (sas s)).
    change (las s4) with (filter (fun kv => outside p (2 ^ 21) kv.1) (las s)).
    change (lbs s4) with (filter (fun kv => outside p (2 ^ 21) kv.1) (lbs s)).
    change (links s4) with (filter (fun kv => outside p (2 ^ 21) kv.1) (links s)).
    rewrite !lookup_wiped_inside by exact Ha. repeat split.
  - intros a Ha.
    assert (Hout_a : outside p (2 ^ 21) a) by (unfold outside; rewrite Hin; exact Ha).
    change (sas s4) with (filter (fun kv => outside p (2 ^ 21) kv.1) (sas s)).
    change (las s4) with (filter (fun kv => outside p (2 ^ 21) kv.1) (las s)).
    change (lbs s4) with (filter (fun kv => outside p (2 ^ 21) kv.1) (lbs s)).
    change (links s4) with (filter (fun kv => outside p (2 ^ 21) kv.1) (links s)).
    change (hbs s4) with (filter (fun kv => outside p (2 ^ 21) kv.1) (<[hb := h']> (hbs s))).
    rewrite !lookup_wiped by exact Hout_a. repeat split.
    intros Hne. apply lookup_insert_ne. congruence.
Qed.

Lemma global_alloc_from_head_witness :
  exists s',
    GlobalAlloc_alloc 0 two_blocks = Some ((Some (2 ^ 30 + 2 ^ 21), 2 ^ 30), s')
    /\ trace s' = [EvLock 0; EvUnlock 0; EvCommit (2 ^ 30 + 2 ^ 21) (2 ^ 21)].
Proof.
  destruct (global_alloc_from_head two_blocks 0 (2 ^ 30) 0 (mkHB (2 ^ 30 + 2 ^ 21) 0))
    as (s' & Hrun & _ & _ & _ & _ & Htr & _).
  - reflexivity.
  - discriminate.
  - reflexivity.
  - reflexivity.
  - apply not_elem_of_nil.
  - lia.
  - reflexivity.
  - intros j Hj. lia.
  - exists s'. split; [exact Hrun|exact Htr].
Defined.

(** ** ThreadAlloc::free: giving a SmallAlloc back *)

Lemma LargeBlock_free_at_run lb p b s :
  lbs s !! lb = Some b ->
  LargeBlock_free_at lb p s
  = Some (fst (LargeBlock_free b p), set_lbs (<[lb := snd (LargeBlock_free b p)]>) s).
Proof.
  intros H. unfold LargeBlock_free_at.
  rewrite (bind_some _ _ s b s) by (unfold deref; rewrite H; reflexivity).
  reflexivity.
Qed.

Lemma Alloc_free_parent t a p : a_parent (snd (Alloc_free t a p)) = a_parent a.
Proof. unfold Alloc_free. cbv zeta. destruct (_ <? _); reflexivity. Qed.

(** X24: [ThreadAlloc::free] gives an empty SmallAlloc back to its
    LargeBlock.  When the freed block was the last one of a SmallAlloc
    of the calling thread that is not its current one, the SmallAlloc
    is taken out of the thread's list, the others staying linked in
    order, and its unit is marked free in the parent block.  The parent
    itself is kept when other units of it are in use or when it is the
    thread's current LargeBlock; then no memory goes back to the system
    and no mutex is taken. *)
Theorem free_releases_empty_small_alloc (s : State) (tid this p n : Z)
    (ta : ThreadAlloc) (a : Alloc) (b : LargeBlock) (pre post : list Z) :
  0 <= n <= 2048 -> p <> 0 ->
  tas s !! this = Some ta ->
  sas s !! align_down (Z.shiftl 1 g_sb_bits) p = Some a ->
  a_ta a = this ->
  fst (Alloc_free Small a p) = true ->
  pre <> [] ->
  is_list (links s) (ta_sa ta) (pre ++ align_down (Z.shiftl 1 g_sb_bits) p :: post) ->
  lbs s !! a_parent a = Some b ->
  fst (LargeBlock_free b (align_down (Z.shiftl 1 g_sb_bits) p)) = false
  \/ a_parent a = ta_lb ta ->
  exists s',
    ThreadAlloc_free tid this p n s = Some (tt, s')
    /\ is_list (links s') (ta_sa ta) (pre ++ post)
    /\ sas s' !! align_down (Z.shiftl 1 g_sb_bits) p = Some (snd (Alloc_free Small a p))
    /\ lbs s' !! a_parent a
       = Some (snd (LargeBlock_free b (align_down (Z.shiftl 1 g_sb_bits) p)))
    /\ tas s' = tas s /\ hbs s' = hbs s /\ las s' = las s
    /\ trace s' = trace s /\ held s' = held s.
Proof.
  intros Hn Hp Hta Ha Hown Hempty Hpre Hlist Hb Hkeep.
  set (sa := align_down (Z.shiftl 1 g_sb_bits) p) in *.
  set (a' := snd (Alloc_free Small a p)).
  set (b' := snd (LargeBlock_free b sa)).
  set (s1 := set_sas (<[sa := a']>) s).
  set (s2 := set_links (erase_links (ta_sa ta) sa) s1).
  set (s3 := set_lbs (<[a_parent a := b']>) s2).
  assert (Hne : sa <> ta_sa ta).
  { destruct Hlist as (Hhd & Hnd & _). intros Heq.
    destruct pre as [|x pre']; [congruence|]. cbn in Hhd.
    apply NoDup_cons in Hnd. destruct Hnd as [Hnotin _].
    apply Hnotin. rewrite <- Hhd, <- Heq. apply elem_of_app. right. left. }
  assert (Hrun : ThreadAlloc_free tid this p n s = Some (tt, s3)).
  { unfold ThreadAlloc_free.
    rewrite (proj2 (Z.eqb_neq _ _) Hp).
    rewrite (proj2 (Z.leb_le n 2048)) by lia. cbv zeta. fold sa.
    rewrite (bind_some _ _ s a s) by (unfold deref; rewrite Ha; reflexivity).
    rewrite Hown, Z.eqb_refl.
    rewrite (bind_some _ _ s _ _ (SmallAlloc_free_run s sa a p Ha)).
    rewrite Hempty. fold a' s1.
    rewrite (bind_some _ _ s1 true s1).
    2:{ cbn [and_then].
        rewrite (bind_some _ _ s1 _ s1 (get_head_sa_run s1 this ta Hta)).
        rewrite (proj2 (Z.eqb_neq _ _) Hne). reflexivity. }
    cbn [when].
    rewrite (bind_some _ _ s1 tt s2).
    2:{ apply (list_erase_run_any (SaList this) (ta_sa ta) pre sa post s1).
        - simpl. change (tas s1) with (tas s). rewrite Hta. reflexivity.
        - exact Hpre.
        - exact Hlist. }
    rewrite (bind_some _ _ s2 a' s2).
    2:{ unfold deref. change (sas s2) with (<[sa := a']> (sas s)).
        rewrite lookup_insert_eq. reflexivity. }
    cbv zeta. rewrite !(Alloc_free_parent Small a p : a_parent a' = a_parent a).
    rewrite (bind_some _ _ s2 _ _ (LargeBlock_free_at_run (a_parent a) sa b s2 Hb)).
    fold b' s3.
    rewrite (bind_some _ _ s3 false s3); [reflexivity|].
    destruct Hkeep as [Hused|Hcur].
    - rewrite Hused. reflexivity.
    - destruct (fst (LargeBlock_free b sa)); [|reflexivity]. cbn [and_then].
      rewrite (bind_some _ _ s3 _ s3 (get_head_lb_run s3 this ta Hta)).
      rewrite Hcur, Z.eqb_refl. reflexivity. }
  exists s3. split; [exact Hrun|].
  split.
  { change (links s3) with (erase_links (ta_sa ta) sa (links s)).
    apply erase_links_list; assumption. }
  split.
  { change (sas s3) with (<[sa := a']> (sas s)). apply lookup_insert_eq. }
  split.
  { change (lbs s3) with (<[a_parent a := b']> (lbs s)). apply lookup_insert_eq. }
  repeat split.
Qed.

Lemma free_releases_empty_small_alloc_witness :
  exists s',
    ThreadAlloc_free 7 1000 (2 ^ 21 + 2 ^ 16 + 576) 16 two_small_allocs = Some (tt, s')
    /\ is_list (links s') (2 ^ 21 + 2 ^ 15) [2 ^ 21 + 2 ^ 15]
    /\ trace s' = [].
Proof.
  destruct (free_releases_empty_small_alloc two_small_allocs 7 1000
              (2 ^ 21 + 2 ^ 16 + 576) 16 (mkTA (2 ^ 21) 0 (2 ^ 21 + 2 ^ 15) 0)
              (snd (Alloc_alloc Small (Alloc_new Small (2 ^ 21 + 2 ^ 16) (2 ^ 21) 1000) 1))
              (mkLB 0 (2 ^ 21 + 2 ^ 15) 3) [2 ^ 21 + 2 ^ 15] [])
    as (s' & Hrun & Hlist & _ & _ & _ & _ & _ & Htr & _).
  - lia.
  - discriminate.
  - reflexivity.
  - reflexivity.
  - reflexivity.
  - vm_compute. reflexivity.
  - discriminate.
  - split; [reflexivity|]. split.
    + apply NoDup_cons. split; [|apply NoDup_singleton].
      intros H. apply list_elem_of_singleton in H. vm_compute in H. discriminate H.
    + simpl. repeat split; try (vm_compute; congruence).
  - reflexivity.
  - left. vm_compute. reflexivity.
  - exists s'. split; [exact Hrun|]. split; [exact Hlist|exact Htr].
Defined.

(** ** The first allocation: building the blocks *)















Lemma with_head_lb this v s t :
  tas s !! this = Some t ->
  with_head (LbList this) v s
  = set_tas (<[this := mkTA v (ta_la t) (ta_sa t) (ta_id t)]>) s.
Proof. intros H. unfold with_head. rewrite H. reflexivity. Qed.

Lemma with_head_sa this v s t :
  tas s !! this = Some t ->
  with_head (SaList this) v s
  = set_tas (<[this := mkTA (ta_lb t) (ta_la t) v (ta_id t)]>) s.
Proof. intros H. unfold with_head. rewrite H. reflexivity. Qed.

Lemma g_thread_alloc_run tid s :
  g_thread_alloc tid s = Some (default 0 (tls s !! tid), s).
Proof. reflexivity. Qed.



Lemma LargeBlock_alloc_at_run lb b s :
  lbs s !! lb = Some b ->
  LargeBlock_alloc_at lb s
  = Some (fst (LargeBlock_alloc b), set_lbs (<[lb := snd (LargeBlock_alloc b)]>) s).
Proof.
  intros H. unfold LargeBlock_alloc_at.
  rewrite (bind_some _ _ s b s) by (unfold deref; rewrite H; reflexivity).
  reflexivity.
Qed.




(** ** StaticAllocator *)

Lemma align_up_8 x : align_up 8 x = 8 * ((x + 7) / 8).
Proof. exact (align_up_pow2 3 x ltac:(lia)). Qed.

Lemma static_size n :
  0 <= n < 2 ^ 32 ->
  u64 (align_up 8 n) = 8 * ((n + 7) / 8)
  /\ n <= 8 * ((n + 7) / 8) < n + 8.
Proof.
  intros Hn. rewrite align_up_8.
  pose proof (Z.div_mod (n + 7) 8 ltac:(lia)).
  pose proof (Z.mod_pos_bound (n + 7) 8 ltac:(lia)).
  split; [apply u64_small|]; lia.
Qed.

Lemma sys_malloc_run s n r rest :
  os s = r :: rest ->
  sys_malloc n s
  = Some (r, set_trace (fun tr => tr ++ [EvMalloc n r]) (set_os (fun _ => rest) s)).
Proof.
  intros Hos. unfold sys_malloc.
  rewrite (bind_some _ _ s _ _ (ask_run s r rest Hos)). reflexivity.
Qed.

(** X27: [StaticAllocator::alloc] for a size [n], rounded up to the
    multiple [m] of 8.  While the slab has [m] bytes left the block is
    cut at [_p] without a system call, so two such calls in a row give
    adjacent blocks that do not overlap, inside the slab, and keep [_p]
    8-aligned.  When the slab is short and [m <= 4096], a new slab of
    64 KiB is taken from [::malloc] and the block is its beginning; what
    was left of the old slab is given up.  A larger request goes to
    [::malloc] directly and leaves the slab as it is. *)
Theorem static_alloc_bump (ka : StaticAllocator) (s : State) (n : Z) :
  0 <= n < 2 ^ 32 ->
  let m := 8 * ((n + 7) / 8) in
  n <= m < n + 8
  /\ (ka_p ka + m <= ka_e ka ->
        StaticAllocator_alloc ka n s
        = Some ((ka_p ka, mkKA (ka_p ka + m) (ka_e ka)), s)
        /\ (ka_p ka mod 8 = 0 -> (ka_p ka + m) mod 8 = 0)
        /\ forall n2, 0 <= n2 < 2 ^ 32 ->
             ka_p ka + m + 8 * ((n2 + 7) / 8) <= ka_e ka ->
             exists r2 ka2,
               StaticAllocator_alloc (mkKA (ka_p ka + m) (ka_e ka)) n2 s
               = Some ((r2, ka2), s)
               /\ ka_p ka + n <= r2 /\ r2 + n2 <= ka_e ka /\ ka_e ka2 = ka_e ka)
  /\ (ka_e ka < ka_p ka + m -> m <= 4096 ->
        forall r rest, os s = r :: rest -> r <> 0 ->
          StaticAllocator_alloc ka n s
          = Some ((r, mkKA (r + m) (r + 2 ^ 16)),
                  set_trace (fun tr => tr ++ [EvMalloc (2 ^ 16) r])
                    (set_os (fun _ => rest) s))
          /\ r + m <= r + 2 ^ 16)
  /\ (ka_e ka < ka_p ka + m -> 4096 < m ->
        forall r rest, os s = r :: rest ->
          StaticAllocator_alloc ka n s
          = Some ((r, ka),
                  set_trace (fun tr => tr ++ [EvMalloc m r])
                    (set_os (fun _ => rest) s))).
Proof.
  intros Hn m. destruct (static_size n Hn) as [Hm Hr]. fold m in Hm, Hr.
  split; [exact Hr|]. split; [|split].
  - intros Hfit. split; [|split].
    + unfold StaticAllocator_alloc. rewrite Hm. cbv zeta.
      rewrite (proj2 (Z.leb_le _ _) Hfit). reflexivity.
    + intros Hal. unfold m. rewrite Z.add_mod, Hal by lia.
      rewrite (Z.mul_comm 8), Z.mod_mul by lia. reflexivity.
    + intros n2 Hn2 Hfit2. destruct (static_size n2 Hn2) as [Hm2 Hr2].
      eexists _, _. split.
      * unfold StaticAllocator_alloc. rewrite Hm2. cbv zeta. cbn [ka_p ka_e].
        rewrite (proj2 (Z.leb_le _ _) Hfit2). reflexivity.
      * cbn [ka_e]. repeat split; lia.
  - intros Hshort Hsmall r rest Hos Hr0. split; [|lia].
    unfold StaticAllocator_alloc. rewrite Hm. cbv zeta.
    rewrite (proj2 (Z.leb_gt _ _)) by lia.
    rewrite (proj2 (Z.leb_le m 4096) Hsmall).
    rewrite (bind_some _ _ s _ _ (sys_malloc_run s _ r rest Hos)).
    rewrite (proj2 (Z.eqb_neq r 0) Hr0). reflexivity.
  - intros Hshort Hbig r rest Hos.
    unfold StaticAllocator_alloc. rewrite Hm. cbv zeta.
    rewrite (proj2 (Z.leb_gt _ _)) by lia.
    rewrite (proj2 (Z.leb_gt m 4096)) by lia.
    rewrite (bind_some _ _ s _ _ (sys_malloc_run s _ r rest Hos)). reflexivity.
Qed.

Lemma static_alloc_bump_witness :
  StaticAllocator_alloc StaticAllocator_new 13 (init_state [4096])
  = Some ((4096, mkKA (4096 + 16) (4096 + 2 ^ 16)),
          set_trace (fun tr => tr ++ [EvMalloc (2 ^ 16) 4096])
            (set_os (fun _ => []) (init_state [4096]))).
Proof.
  destruct (static_alloc_bump StaticAllocator_new (init_state [4096]) 13 ltac:(lia))
    as (_ & _ & Hnew & _).
  apply (Hnew ltac:(vm_compute; reflexivity) ltac:(vm_compute; discriminate)
           4096 [] eq_refl ltac:(discriminate)).
Defined.

(** ** The scan of the thread's LargeBlocks *)

Lemma alloc_none t a n : fst (Alloc_alloc t a n) = None -> Alloc_alloc t a n = (None, a).
Proof. unfold Alloc_alloc. destruct (_ <=? _); [discriminate|reflexivity]. Qed.

Lemma set_lbs_id s lb b : lbs s !! lb = Some b -> set_lbs (<[lb := b]>) s = s.
Proof.
  intros H. destruct s; unfold set_lbs; cbn in *. f_equal. apply insert_id. exact H.
Qed.

Lemma make_small_alloc_full s tid lb b :
  lbs s !! lb = Some b -> fst (LargeBlock_alloc b) = None ->
  make_small_alloc tid lb s = Some (None, s).
Proof.
  intros Hb Hfull. unfold make_small_alloc.
  rewrite (bind_some _ _ s _ _ (LargeBlock_alloc_at_run lb b s Hb)).
  destruct (LargeBlock_alloc b) as [[x|] b'] eqn:E; [discriminate Hfull|].
  apply LargeBlock_alloc_none in E. subst b'. cbn [fst snd].
  rewrite (set_lbs_id s lb b Hb). reflexivity.
Qed.

Lemma make_small_alloc_run s tid lb b x :
  lbs s !! lb = Some b -> fst (LargeBlock_alloc b) = Some x ->
  (sas s !! x = None
   \/ exists old, sas s !! x = Some old /\ cursor_inv Small old /\ a_cur_bit old = 0) ->
  make_small_alloc tid lb s
  = Some (Some x,
          set_sas (<[x := Alloc_new Small x lb (default 0 (tls s !! tid))]>)
            (set_links (<[x := mkLink 0 0]>)
               (set_lbs (<[lb := snd (LargeBlock_alloc b)]>) s))).
Proof.
  intros Hb Hx Hold. unfold make_small_alloc.
  rewrite (bind_some _ _ s _ _ (LargeBlock_alloc_at_run lb b s Hb)).
  rewrite Hx.
  set (s1 := set_lbs _ s).
  rewrite (bind_some _ _ s1 _ _ (g_thread_alloc_run tid s1)).
  change (tls s1) with (tls s).
  set (s2 := set_links (<[x := mkLink 0 0]>) s1).
  rewrite (bind_some _ _ s1 tt s2) by reflexivity.
  rewrite (bind_some _ _ s2 tt
             (set_sas (<[x := Alloc_new Small x lb (default 0 (tls s !! tid))]>) s2));
    [reflexivity|].
  unfold modify, cells_at. change (sas s2) with (sas s).
  destruct Hold as [Hnone|(old & Hsome & Hinv & Hc)].
  - rewrite Hnone. reflexivity.
  - rewrite Hsome. destruct (empty_alloc_cells Small old Hinv Hc) as [-> ->]. reflexivity.
Qed.

Lemma is_list_frame m m' l xs :
  (forall a, a ∈ xs -> link_at m' a = link_at m a) ->
  is_list m l xs -> is_list m' l xs.
Proof.
  intros Hsame (Hl & Hnd & Hseg). split; [exact Hl|]. split; [exact Hnd|].
  apply (seg_frame m); assumption.
Qed.

(** the scan path of the small tier: the thread's only SmallAlloc and
    its current LargeBlock are full, the next LargeBlock has a unit *)
Lemma lb_scan_run s tid this n ta a0 b0 k bk rest' x :
  0 <= n <= 2048 ->
  tas s !! this = Some ta ->
  ta_sa ta <> 0 -> sas s !! ta_sa ta = Some a0 ->
  fst (Alloc_alloc Small a0 (units n)) = None ->
  next (link_at (links s) (ta_sa ta)) = 0 ->
  is_list (links s) (ta_lb ta) (ta_lb ta :: k :: rest') ->
  lbs s !! ta_lb ta = Some b0 -> fst (LargeBlock_alloc b0) = None ->
  lbs s !! k = Some bk -> fst (LargeBlock_alloc bk) = Some x ->
  (sas s !! x = None
   \/ exists old, sas s !! x = Some old /\ cursor_inv Small old /\ a_cur_bit old = 0) ->
  ThreadAlloc_alloc tid this n s
  = Some (Some (x + 576),
          set_sas (<[x := snd (Alloc_alloc Small
                                 (Alloc_new Small x k (default 0 (tls s !! tid)))
                                 (units n))]>)
            (set_sas (<[x := Alloc_new Small x k (default 0 (tls s !! tid))]>)
               (set_links (<[x := mkLink 0 0]>)
                  (set_lbs (<[k := snd (LargeBlock_alloc bk)]>)
                     (set_tas (<[this := mkTA k (ta_la ta) (ta_sa ta) (ta_id ta)]>)
                        (set_links (head_back_links (ta_lb ta)) s)))))).
Proof.
  intros Hn Hta Hh0 Ha0 Hfull0 Hsingle Hlist Hb0 Hfullb Hbk Hx Hold.
  set (h := ta_sa ta) in *. set (l0 := ta_lb ta) in *.
  pose proof Hlist as (_ & Hnd & Hseg).
  assert (HT : default 0 (last (l0 :: k :: rest')) <> 0).
  { destruct (last (l0 :: k :: rest')) as [t|] eqn:EL.
    - apply last_Some_elem_of in EL. exact (seg_nonzero _ _ _ _ t Hseg EL).
    - apply last_None in EL. discriminate EL. }
  cbn [seg hd] in Hseg. destruct Hseg as (Hl0 & Hlink0 & Hk0 & _).
  assert (Hkl : k <> l0).
  { apply NoDup_cons in Hnd. destruct Hnd as [Hnotin _]. intros ->.
    apply Hnotin. left. }
  set (gta := default 0 (tls s !! tid)).
  set (A := Alloc_new Small x k gta).
  set (ta1 := mkTA k (ta_la ta) (ta_sa ta) (ta_id ta)).
  set (sB := set_tas (<[this := ta1]>) (set_links (head_back_links l0) s)).
  set (sE := set_sas (<[x := A]>)
               (set_links (<[x := mkLink 0 0]>)
                  (set_lbs (<[k := snd (LargeBlock_alloc bk)]>) sB))).
  assert (Hu : units n = small_units n).
  { unfold units. rewrite (proj2 (Z.leb_le n 2048)) by lia. reflexivity. }
  assert (Hhead_lb : head_of (LbList this) s = Some l0).
  { simpl. rewrite Hta. reflexivity. }
  assert (Hback : list_move_head_back (LbList this) s = Some (tt, sB)).
  { rewrite (list_move_head_back_run (LbList this) s l0 Hhead_lb Hl0).
    - rewrite Hlink0. cbn [next].
      rewrite (with_head_lb this k _ ta) by exact Hta. reflexivity.
    - rewrite Hlink0. exact HT. }
  assert (HtaB : tas sB !! this = Some ta1) by apply lookup_insert_eq.
  assert (Hmake : make_small_alloc tid k sB = Some (Some x, sE)).
  { apply (make_small_alloc_run sB tid k bk x); assumption. }
  assert (Hfront : list_move_front (LbList this) k sE = Some (tt, sE)).
  { unfold list_move_front.
    rewrite (bind_some _ _ sE k sE).
    - rewrite Z.eqb_refl. reflexivity.
    - apply get_head_run. change (ta_lb <$> tas sB !! this = Some k).
      rewrite HtaB. reflexivity. }
  assert (HsasE : sas sE !! x = Some A) by apply lookup_insert_eq.
  assert (Hfit : Alloc_alloc Small A (units n)
                 = (Some (a_p A + a_cur_bit A * slot_size Small),
                    set_cur_bit (set_bs A (Bitset_set (a_bs A) (a_cur_bit A)))
                                (a_cur_bit A + units n))).
  { pose proof (units_bounds n ltac:(change g_max_alloc_size with (2 ^ 17); lia))
      as (H1 & H2 & _).
    rewrite (proj2 (Z.leb_le n 2048)) in H2 by lia.
    apply alloc_fits; cbn [A Alloc_new SmallAlloc_new a_cur_bit]; try lia.
    change (MAX_bIT Small) with 2012. lia. }
  assert (Hres : fst (Alloc_alloc Small A (units n)) = Some (x + 576)).
  { rewrite Hfit. cbn [fst A Alloc_new SmallAlloc_new a_p a_cur_bit].
    rewrite Z.mul_0_l, Z.add_0_r. reflexivity. }
  unfold ThreadAlloc_alloc.
  rewrite (proj2 (Z.leb_le n 2048)) by lia. cbv zeta.
  rewrite (bind_some _ _ s _ s (get_head_sa_run s this ta Hta)). fold h.
  rewrite (proj2 (Z.eqb_neq _ _) Hh0).
  rewrite <- Hu.
  rewrite (bind_some _ _ s None s).
  2:{ rewrite (SmallAlloc_alloc_run s h a0 _ Ha0).
      rewrite (alloc_none _ _ _ Hfull0). cbn [fst snd].
      rewrite (set_sub_allocs_id Small s h a0 Ha0 : set_sas (<[h := a0]>) s = s).
      reflexivity. }
  unfold small_alloc_slow.
  rewrite (bind_some _ _ s None s).
  2:{ unfold at_least_two.
      rewrite (bind_some _ _ s _ s (get_head_sa_run s this ta Hta)). fold h.
      rewrite (proj2 (Z.eqb_neq _ _) Hh0).
      rewrite (bind_some _ _ s _ s (get_next_run h s Hh0)).
      rewrite Hsingle. reflexivity. }
  rewrite (bind_some _ _ s _ s (get_head_lb_run s this ta Hta)). fold l0.
  rewrite (proj2 (Z.eqb_neq _ _) Hl0).
  rewrite (bind_some _ _ s _ s (make_small_alloc_full s tid l0 b0 Hb0 Hfullb)).
  rewrite (bind_some _ _ s (Some (Some (x + 576)))
             (set_sas (<[x := snd (Alloc_alloc Small A (units n))]>) sE));
    [reflexivity|].
  unfold at_least_two.
  rewrite (bind_some _ _ s _ s (get_head_lb_run s this ta Hta)). fold l0.
  rewrite (proj2 (Z.eqb_neq _ _) Hl0).
  rewrite (bind_some _ _ s _ s (get_next_run l0 s Hl0)).
  rewrite Hlink0. cbn [next hd].
  rewrite (proj2 (Z.eqb_neq _ _) Hk0).
  unfold _try_alloc.
  rewrite (bind_some _ _ s _ s (get_head_lb_run s this ta Hta)). fold l0.
  rewrite (bind_some _ _ s _ s (get_next_run l0 s Hl0)).
  rewrite Hlink0. cbn [next hd].
  rewrite (bind_some _ _ s _ _ Hback).
  cbn [try_loop].
  rewrite (proj2 (Z.eqb_neq _ _) Hkl).
  rewrite (bind_some _ _ sB (Some (Some (x + 576)))
             (set_sas (<[x := snd (Alloc_alloc Small A (units n))]>) sE));
    [reflexivity|].
  rewrite (bind_some _ _ sB _ _ Hmake).
  rewrite (bind_some _ _ sE _ _ Hfront).
  rewrite (bind_some _ _ sE _ _ (SmallAlloc_alloc_run sE x A _ HsasE)).
  rewrite Hres. reflexivity.
Qed.

Lemma Alloc_alloc_ta t a n : a_ta (snd (Alloc_alloc t a n)) = a_ta a.
Proof. unfold Alloc_alloc. destruct (_ <=? _); reflexivity. Qed.

(** X28: a SmallAlloc made during the scan of the thread's LargeBlocks
    is left outside the thread's list.  When the thread's only
    SmallAlloc and its current LargeBlock are full and the next
    LargeBlock has a unit, [ThreadAlloc::alloc] rotates the LargeBlock
    list, builds a SmallAlloc on that unit and returns its first block -
    but, unlike the other two places that build one, it does not push
    the new SmallAlloc to the list: its links stay null and [_sa] is
    unchanged.  When the block is freed again, the SmallAlloc is empty
    and not the current one, so [list_erase] is called on it and writes
    through its null [prev]: the computation is stuck. *)
Theorem scan_leaves_small_alloc_unlisted (s : State) (tid this n k x : Z)
    (ta : ThreadAlloc) (a0 : Alloc) (b0 bk : LargeBlock) (rest' : list Z) :
  0 <= n <= 2048 ->
  tas s !! this = Some ta -> tls s !! tid = Some this ->
  ta_sa ta <> 0 -> sas s !! ta_sa ta = Some a0 ->
  fst (Alloc_alloc Small a0 (units n)) = None ->
  next (link_at (links s) (ta_sa ta)) = 0 ->
  is_list (links s) (ta_lb ta) (ta_lb ta :: k :: rest') ->
  lbs s !! ta_lb ta = Some b0 -> fst (LargeBlock_alloc b0) = None ->
  lbs s !! k = Some bk -> fst (LargeBlock_alloc bk) = Some x ->
  0 < x -> x mod 2 ^ 15 = 0 -> x <> ta_sa ta -> x ∉ ta_lb ta :: k :: rest' ->
  (sas s !! x = None
   \/ exists old, sas s !! x = Some old /\ cursor_inv Small old /\ a_cur_bit old = 0) ->
  exists s',
    ThreadAlloc_alloc tid this n s = Some (Some (x + 576), s')
    /\ tas s' !! this = Some (mkTA k (ta_la ta) (ta_sa ta) (ta_id ta))
    /\ is_list (links s') k ((k :: rest') ++ [ta_lb ta])
    /\ link_at (links s') x = mkLink 0 0
    /\ sas s' !! x = Some (snd (Alloc_alloc Small (Alloc_new Small x k this) (units n)))
    /\ lbs s' !! k = Some (snd (LargeBlock_alloc bk))
    /\ trace s' = trace s
    /\ ThreadAlloc_free tid this (x + 576) n s' = None.
Proof.
  intros Hn Hta Htls Hh0 Ha0 Hfull0 Hsingle Hlist Hb0 Hfullb Hbk Hx Hxpos Hxal Hxne
         Hxlist Hold.
  pose proof (lb_scan_run s tid this n ta a0 b0 k bk rest' x Hn Hta Hh0 Ha0 Hfull0
                Hsingle Hlist Hb0 Hfullb Hbk Hx Hold) as Hrun.
  rewrite Htls in Hrun. change (default 0 (Some this)) with this in Hrun.
  set (A := Alloc_new Small x k this) in *.
  set (a1 := snd (Alloc_alloc Small A (units n))) in *.
  set (ta1 := mkTA k (ta_la ta) (ta_sa ta) (ta_id ta)) in *.
  set (sF := set_sas (<[x := a1]>) _) in Hrun.
  assert (Hlinks : links sF = <[x := mkLink 0 0]> (head_back_links (ta_lb ta) (links s)))
    by reflexivity.
  assert (Hlinkx : link_at (links sF) x = mkLink 0 0).
  { rewrite Hlinks, link_at_insert. rewrite decide_True by reflexivity. reflexivity. }
  assert (HtaF : tas sF !! this = Some ta1) by apply lookup_insert_eq.
  assert (HsasF : sas sF !! x = Some a1) by apply lookup_insert_eq.
  exists sF. split; [exact Hrun|]. split; [exact HtaF|].
  split.
  { rewrite Hlinks.
    apply (is_list_frame (head_back_links (ta_lb ta) (links s))).
    - intros a Ha. rewrite link_at_insert. rewrite decide_False; [reflexivity|].
      intros <-. apply Hxlist.
      change ((k :: rest') ++ [ta_lb ta]) with (k :: (rest' ++ [ta_lb ta])) in Ha.
      apply elem_of_cons in Ha. destruct Ha as [->|Ha]; [right; left|].
      apply elem_of_app in Ha. destruct Ha as [Ha|Ha].
      + right. right. exact Ha.
      + apply list_elem_of_singleton in Ha. subst x. left.
    - apply head_back_links_list. exact Hlist. }
  split; [exact Hlinkx|]. split; [exact HsasF|].
  split.
  { change (lbs sF) with (<[k := snd (LargeBlock_alloc bk)]> (lbs s)).
    apply lookup_insert_eq. }
  split; [reflexivity|].
  (* the free *)
  assert (Hu : 1 <= units n < 2 ^ 31)
    by (apply units_range; change g_max_alloc_size with (2 ^ 17); lia).
  assert (Hfit : Alloc_alloc Small A (units n) = (Some (x + 576), a1)).
  { pose proof (units_bounds n ltac:(change g_max_alloc_size with (2 ^ 17); lia))
      as (H1 & H2 & _).
    rewrite (proj2 (Z.leb_le n 2048)) in H2 by lia.
    unfold a1. rewrite (alloc_fits Small A (units n));
      cbn [A Alloc_new SmallAlloc_new a_cur_bit a_p snd]; try lia.
    - rewrite Z.mul_0_l, Z.add_0_r. reflexivity.
    - change (MAX_bIT Small) with 2012. lia. }
  assert (Hback : Alloc_free Small a1 (x + 576) = (true, A)).
  { rewrite (alloc_free_back Small A a1 (units n) (x + 576) (inv_new _ _ _ _) Hu Hfit).
    reflexivity. }
  assert (Hown : a_ta a1 = this).
  { unfold a1. rewrite Alloc_alloc_ta. reflexivity. }
  assert (Hdown : align_down (Z.shiftl 1 g_sb_bits) (x + 576) = x).
  { apply (align_down_inside 15); [lia|exact Hxal|lia]. }
  unfold ThreadAlloc_free.
  rewrite (proj2 (Z.eqb_neq (x + 576) 0)) by lia.
  rewrite (proj2 (Z.leb_le n 2048)) by lia. cbv zeta. rewrite Hdown.
  rewrite (bind_some _ _ sF a1 sF) by (unfold deref; rewrite HsasF; reflexivity).
  rewrite Hown, Z.eqb_refl.
  rewrite (bind_some _ _ sF _ _ (SmallAlloc_free_run sF x a1 _ HsasF)).
  rewrite Hback. cbn [fst snd].
  set (sG := set_sas (<[x := A]>) sF).
  rewrite (bind_some _ _ sG true sG).
  2:{ cbn [and_then].
      rewrite (bind_some _ _ sG _ sG (get_head_sa_run sG this ta1 HtaF)).
      cbn [ta1 ta_sa]. rewrite (proj2 (Z.eqb_neq _ _) Hxne). reflexivity. }
  cbn [when]. apply bind_none.
  unfold list_erase.
  rewrite (bind_some _ _ sG _ sG (get_prev_run x sG ltac:(lia))).
  rewrite (bind_some _ _ sG _ sG (get_next_run x sG ltac:(lia))).
  change (links sG) with (links sF). rewrite Hlinkx. cbn [prev next].
  apply bind_none. reflexivity.
Qed.

Lemma scan_leaves_small_alloc_unlisted_witness :
  exists s',
    ThreadAlloc_alloc 7 1000 16 scan_state = Some (Some (2 ^ 21 + 2 ^ 15 + 576), s')
    /\ link_at (links s') (2 ^ 21 + 2 ^ 15) = mkLink 0 0
    /\ ThreadAlloc_free 7 1000 (2 ^ 21 + 2 ^ 15 + 576) 16 s' = None.
Proof.
  destruct (scan_leaves_small_alloc_unlisted scan_state 7 1000 16 (2 ^ 21)
              (2 ^ 21 + 2 ^ 15) (mkTA (2 ^ 22) 0 (2 ^ 22 + 2 ^ 15) 0)
              (snd (Alloc_alloc Small (Alloc_new Small (2 ^ 22 + 2 ^ 15) (2 ^ 22) 1000) 2012))
              (mkLB 0 (2 ^ 22 + 2 ^ 15) (2 ^ 63 - 1))
              (mkLB 0 (2 ^ 21 + 2 ^ 15) (2 ^ 63 - 2)) [])
    as (s' & Hrun & _ & _ & Hlink & _ & _ & _ & Hfree).
  - lia.
  - reflexivity.
  - reflexivity.
  - discriminate.
  - reflexivity.
  - vm_compute. reflexivity.
  - vm_compute. reflexivity.
  - split; [reflexivity|]. split.
    + apply NoDup_cons. split; [|apply NoDup_singleton].
      intros H. apply list_elem_of_singleton in H. vm_compute in H. discriminate H.
    + simpl. repeat split; try (vm_compute; congruence).
  - reflexivity.
  - vm_compute. reflexivity.
  - reflexivity.
  - vm_compute. reflexivity.
  - lia.
  - reflexivity.
  - vm_compute. discriminate.
  - intros H. apply elem_of_cons in H. destruct H as [H|H]; [vm_compute in H; discriminate H|].
    apply list_elem_of_singleton in H. vm_compute in H. discriminate H.
  - left. reflexivity.
  - exists s'. split; [exact Hrun|]. split; [exact Hlink|exact Hfree].
Defined.

(** ** The scan of the thread's SmallAllocs *)

Lemma SmallAlloc_try_hard_alloc_run s sa a u :
  sas s !! sa = Some a ->
  SmallAlloc_try_hard_alloc sa u s
  = Some (fst (Alloc_try_hard_alloc Small a u),
          set_sas (<[sa := snd (Alloc_try_hard_alloc Small a u)]>) s).
Proof.
  intros H. unfold SmallAlloc_try_hard_alloc.
  rewrite (bind_some _ _ s a s) by (unfold deref; rewrite H; reflexivity).
  reflexivity.
Qed.

(** X29: the scan of the thread's SmallAllocs.  When the current
    SmallAlloc cannot serve the request and the next one in the list
    can - after taking back what other threads have freed in it - the
    block comes from that one, and it becomes the current SmallAlloc:
    the list is rotated by one, the old current one going to the tail.
    The full SmallAlloc is left as it is, no block list or huge block is
    touched and the system is not called. *)
Theorem alloc_takes_next_small_alloc (s : State) (tid this n k p : Z)
    (ta : ThreadAlloc) (a0 a1 : Alloc) (rest' : list Z) :
  0 <= n <= 2048 ->
  tas s !! this = Some ta ->
  is_list (links s) (ta_sa ta) (ta_sa ta :: k :: rest') ->
  sas s !! ta_sa ta = Some a0 ->
  fst (Alloc_alloc Small a0 (units n)) = None ->
  sas s !! k = Some a1 ->
  fst (Alloc_try_hard_alloc Small a1 (units n)) = Some p ->
  exists s',
    ThreadAlloc_alloc tid this n s = Some (Some p, s')
    /\ tas s' !! this = Some (mkTA (ta_lb ta) (ta_la ta) k (ta_id ta))
    /\ is_list (links s') k ((k :: rest') ++ [ta_sa ta])
    /\ sas s' !! k = Some (snd (Alloc_try_hard_alloc Small a1 (units n)))
    /\ sas s' !! ta_sa ta = Some a0
    /\ lbs s' = lbs s /\ hbs s' = hbs s /\ shards s' = shards s
    /\ trace s' = trace s /\ held s' = held s.
Proof.
  intros Hn Hta Hlist Ha0 Hfull0 Ha1 Hp.
  set (h := ta_sa ta) in *.
  pose proof Hlist as (_ & Hnd & Hseg).
  assert (HT : default 0 (last (h :: k :: rest')) <> 0).
  { destruct (last (h :: k :: rest')) as [t|] eqn:EL.
    - apply last_Some_elem_of in EL. exact (seg_nonzero _ _ _ _ t Hseg EL).
    - apply last_None in EL. discriminate EL. }
  cbn [seg hd] in Hseg. destruct Hseg as (Hh0 & Hlink0 & Hk0 & _).
  assert (Hkh : k <> h).
  { apply NoDup_cons in Hnd. destruct Hnd as [Hnotin _]. intros ->.
    apply Hnotin. left. }
  set (ta1 := mkTA (ta_lb ta) (ta_la ta) k (ta_id ta)).
  set (sB := set_tas (<[this := ta1]>) (set_links (head_back_links h) s)).
  set (sC := set_sas (<[k := snd (Alloc_try_hard_alloc Small a1 (units n))]>) sB).
  assert (Hu : units n = small_units n).
  { unfold units. rewrite (proj2 (Z.leb_le n 2048)) by lia. reflexivity. }
  assert (Hhead : head_of (SaList this) s = Some h).
  { simpl. rewrite Hta. reflexivity. }
  assert (Hback : list_move_head_back (SaList this) s = Some (tt, sB)).
  { rewrite (list_move_head_back_run (SaList this) s h Hhead Hh0).
    - rewrite Hlink0. cbn [next].
      rewrite (with_head_sa this k _ ta) by exact Hta. reflexivity.
    - rewrite Hlink0. exact HT. }
  assert (HtaB : tas sC !! this = Some ta1) by apply lookup_insert_eq.
  assert (Hfront : list_move_front (SaList this) k sC = Some (tt, sC)).
  { unfold list_move_front.
    rewrite (bind_some _ _ sC k sC).
    - rewrite Z.eqb_refl. reflexivity.
    - apply get_head_run. change (ta_sa <$> tas sC !! this = Some k).
      rewrite HtaB. reflexivity. }
  exists sC. split.
  { unfold ThreadAlloc_alloc.
    rewrite (proj2 (Z.leb_le n 2048)) by lia. cbv zeta.
    rewrite (bind_some _ _ s _ s (get_head_sa_run s this ta Hta)). fold h.
    rewrite (proj2 (Z.eqb_neq _ _) Hh0).
    rewrite <- Hu.
    rewrite (bind_some _ _ s None s).
    2:{ rewrite (SmallAlloc_alloc_run s h a0 _ Ha0).
        rewrite (alloc_none _ _ _ Hfull0). cbn [fst snd].
        rewrite (set_sub_allocs_id Small s h a0 Ha0 : set_sas (<[h := a0]>) s = s).
        reflexivity. }
    unfold small_alloc_slow.
    rewrite (bind_some _ _ s (Some p) sC); [reflexivity|].
    unfold at_least_two.
    rewrite (bind_some _ _ s _ s (get_head_sa_run s this ta Hta)). fold h.
    rewrite (proj2 (Z.eqb_neq _ _) Hh0).
    rewrite (bind_some _ _ s _ s (get_next_run h s Hh0)).
    rewrite Hlink0. cbn [next hd].
    rewrite (proj2 (Z.eqb_neq _ _) Hk0).
    unfold _try_alloc.
    rewrite (bind_some _ _ s _ s (get_head_sa_run s this ta Hta)). fold h.
    rewrite (bind_some _ _ s _ s (get_next_run h s Hh0)).
    rewrite Hlink0. cbn [next hd].
    rewrite (bind_some _ _ s _ _ Hback).
    cbn [try_loop].
    rewrite (proj2 (Z.eqb_neq _ _) Hkh).
    rewrite (bind_some _ _ sB (Some p) sC); [reflexivity|].
    rewrite (bind_some _ _ sB _ _ (SmallAlloc_try_hard_alloc_run sB k a1 _ Ha1)).
    rewrite Hp. fold sC.
    rewrite (bind_some _ _ sC _ _ Hfront). reflexivity. }
  split; [exact HtaB|].
  split.
  { change (links sC) with (head_back_links h (links s)).
    apply head_back_links_list. exact Hlist. }
  split.
  { change (sas sC) with (<[k := snd (Alloc_try_hard_alloc Small a1 (units n))]> (sas s)).
    apply lookup_insert_eq. }
  split.
  { change (sas sC) with (<[k := snd (Alloc_try_hard_alloc Small a1 (units n))]> (sas s)).
    rewrite lookup_insert_ne by exact Hkh. exact Ha0. }
  repeat split.
Qed.

Lemma alloc_takes_next_small_alloc_witness :
  exists s',
    ThreadAlloc_alloc 7 1000 16 reclaim_state = Some (Some (2 ^ 21 + 2 ^ 16 + 576), s')
    /\ tas s' !! 1000 = Some (mkTA (2 ^ 21) 0 (2 ^ 21 + 2 ^ 16) 0)
    /\ is_list (links s') (2 ^ 21 + 2 ^ 16) [2 ^ 21 + 2 ^ 16; 2 ^ 21 + 2 ^ 15].
Proof.
  destruct (alloc_takes_next_small_alloc reclaim_state 7 1000 16 (2 ^ 21 + 2 ^ 16)
              (2 ^ 21 + 2 ^ 16 + 576) (mkTA (2 ^ 21) 0 (2 ^ 21 + 2 ^ 15) 0)
              (snd (Alloc_alloc Small (Alloc_new Small (2 ^ 21 + 2 ^ 15) (2 ^ 21) 1000) 2012))
              (Alloc_xfree Small
                 (snd (Alloc_alloc Small (Alloc_new Small (2 ^ 21 + 2 ^ 16) (2 ^ 21) 1000) 1))
                 (2 ^ 21 + 2 ^ 16 + 576)) [])
    as (s' & Hrun & Htas & Hlist & _).
  - lia.
  - reflexivity.
  - split; [reflexivity|]. split.
    + apply NoDup_cons. split; [|apply NoDup_singleton].
      intros H. apply list_elem_of_singleton in H. vm_compute in H. discriminate H.
    + simpl. repeat split; try (vm_compute; congruence).
  - reflexivity.
  - vm_compute. reflexivity.
  - reflexivity.
  - vm_compute. reflexivity.
  - exists s'. split; [exact Hrun|]. split; [exact Htas|exact Hlist].
Defined.
